(** * MapReader annotator: session, queue and context engine

    A shallow embedding of [mapreader/annotate/annotator.py] (class
    [Annotator]) and proofs about its queue navigation, eligibility filter,
    resume merge, saved data, session file name, literal evaluation of table
    columns and context composition.

    Conventions.  Python exceptions are values of [exn]; a computation that
    can raise returns a [result].  Methods that mutate the annotator take the
    state and return the new state together with their result, so that the
    state left behind by a raised exception can still be observed.  The
    state is the record [annotator]; the columns [context_label] and
    [context_changed] that [annotate_context] adds are carried beside it, and
    what the methods only read (the label list, the [url] column, the image
    files) is a [setting].  Python [int] is [Z]; list subscripts follow
    Python (negative subscripts count from the end, anything outside raises
    [IndexError]).  Column values that are compared against thresholds are
    rationals. *)

From Stdlib Require Import ZArith List String Ascii Bool Lia QArith Qround Permutation Sorted.
From Stdlib Require Import Uint63.
From Corelib Require Import PrimFloat FloatOps SpecFloat.
Import ListNotations.
Open Scope string_scope.
Open Scope list_scope.
Open Scope Z_scope.

(** ** Python values and exceptions *)

Inductive exn : Type :=
| IndexError
| KeyError
| ValueError
| TypeError
| SyntaxError
| AttributeError
| FileNotFoundError.

Inductive result (A : Type) : Type :=
| Ok (a : A)
| Raise (e : exn).

Arguments Ok {A} a.
Arguments Raise {A} e.

Definition bind {A B : Type} (m : result A) (k : A -> result B) : result B :=
  match m with
  | Ok a => k a
  | Raise e => Raise e
  end.

Notation "x <- m ;; k" := (bind m (fun x => k))
  (at level 61, m at next level, right associativity).

(** [mapM f l] is the list comprehension [[f(x) for x in l]]: elements are
    evaluated left to right and the first exception aborts the whole list. *)
Fixpoint mapM {A B : Type} (f : A -> result B) (l : list A) : result (list B) :=
  match l with
  | [] => Ok []
  | x :: xs => y <- f x ;; ys <- mapM f xs ;; Ok (y :: ys)
  end.

Definition len {A : Type} (l : list A) : Z := Z.of_nat (List.length l).

(** [l[i]] on a Python list. *)
Definition getitem {A : Type} (l : list A) (i : Z) : result A :=
  let j := if i <? 0 then i + len l else i in
  if (j <? 0) || (len l <=? j) then Raise IndexError
  else match nth_error l (Z.to_nat j) with
       | Some a => Ok a
       | None => Raise IndexError
       end.

(** ** The item table *)

(** A cell of the label column: Python's [None] (the value the constructor
    fills a missing label column with), the [float] NaN that pandas puts
    where a value is missing, or a string. *)
Inductive label_value : Type :=
| PyNone
| PyNaN
| PyStr (s : string).

(** One row of the patch table.  [row_key] is the DataFrame index label;
    [features] are the numeric columns that eligibility constraints can
    name. *)
Record row : Type := mk_row {
  row_key : string;
  image_path : string;
  label : label_value;
  changed : bool;
  parent_id : string;
  min_x : Z;
  min_y : Z;
  max_x : Z;
  max_y : Z;
  shape : option (Z * Z * Z);
  features : list (string * Q)
}.

Fixpoint assoc {V : Type} (k : string) (l : list (string * V)) : option V :=
  match l with
  | [] => None
  | (k', v) :: rest => if String.eqb k k' then Some v else assoc k rest
  end.

(** [row[col]] for a column that holds numbers. *)
Definition row_get (r : row) (col : string) : result Q :=
  if String.eqb col "min_x" then Ok (inject_Z (min_x r))
  else if String.eqb col "min_y" then Ok (inject_Z (min_y r))
  else if String.eqb col "max_x" then Ok (inject_Z (max_x r))
  else if String.eqb col "max_y" then Ok (inject_Z (max_y r))
  else match assoc col (features r) with
       | Some v => Ok v
       | None => Raise KeyError
       end.

Definition find_row (rows : list row) (ix : string) : option row :=
  find (fun r => String.eqb (row_key r) ix) rows.

(** [df.at[ix, patch_paths_col]]. *)
Definition at_image_path (rows : list row) (ix : string) : result string :=
  match find_row rows ix with
  | Some r => Ok (image_path r)
  | None => Raise KeyError
  end.

Definition set_label (r : row) (l : label_value) (c : bool) : row :=
  mk_row (row_key r) (image_path r) l c (parent_id r) (min_x r) (min_y r)
    (max_x r) (max_y r) (shape r) (features r).

(** ** The annotator *)

(** What the output area shows and what is written.  [Rendered ix] stands
    for the whole display block of [render] for row [ix] (the patch image or
    the context image, the link to the map and the progress bar);
    [Pictured ix] for the image alone, when the block raised after showing
    it; [Complete] is the closing message of [render_complete]; [Saved] is
    one file written by [_auto_save]. *)
Inductive event : Type :=
| Rendered (ix : string)
| Pictured (ix : string)
| Complete
| Saved.

(** The annotator: the DataFrame rows it subclasses plus the attributes the
    queue engine reads and writes.  [out] lists the events, newest first. *)
Record annotator : Type := mk_annotator {
  rows : list row;
  _queue : list string;
  current_index : Z;
  previous_index : Z;
  _min_values : list (string * Q);
  _max_values : list (string * Q);
  auto_save : bool;
  _annotate_context : bool;
  surrounding : Z;
  buttons_disabled : bool;
  out : list event
}.

Definition set_indices (self : annotator) (prev cur : Z) : annotator :=
  mk_annotator (rows self) (_queue self) cur prev (_min_values self)
    (_max_values self) (auto_save self) (_annotate_context self)
    (surrounding self) (buttons_disabled self) (out self).

Definition set_queue (self : annotator) (q : list string) : annotator :=
  mk_annotator (rows self) q (current_index self) (previous_index self)
    (_min_values self) (_max_values self) (auto_save self)
    (_annotate_context self) (surrounding self) (buttons_disabled self)
    (out self).

Definition set_bounds (self : annotator) (mins maxs : list (string * Q))
  : annotator :=
  mk_annotator (rows self) (_queue self) (current_index self)
    (previous_index self) mins maxs (auto_save self) (_annotate_context self)
    (surrounding self) (buttons_disabled self) (out self).

Definition set_buttons_disabled (self : annotator) (b : bool) : annotator :=
  mk_annotator (rows self) (_queue self) (current_index self)
    (previous_index self) (_min_values self) (_max_values self)
    (auto_save self) (_annotate_context self) (surrounding self) b (out self).

Definition emit (e : event) (self : annotator) : annotator :=
  mk_annotator (rows self) (_queue self) (current_index self)
    (previous_index self) (_min_values self) (_max_values self)
    (auto_save self) (_annotate_context self) (surrounding self)
    (buttons_disabled self) (e :: out self).

(** [check_eligibility] of [get_queue]: a row whose label is not [None] is
    refused; otherwise both comprehensions are evaluated in full and [all] decides. *)
Definition check_eligibility (mins maxs : list (string * Q)) (r : row)
  : result bool :=
  match label r with
  | PyNone =>
      lo <- mapM (fun cm => v <- row_get r (fst cm) ;; Ok (Qle_bool (snd cm) v)) mins ;;
      hi <- mapM (fun cm => v <- row_get r (fst cm) ;; Ok (Qle_bool v (snd cm))) maxs ;;
      Ok (forallb (fun b => b) (lo ++ hi))
  | _ => Ok false
  end.

(** [queue_df.apply(check_eligibility, axis=1)] followed by the boolean
    mask: the eligible rows, in table order. *)
Fixpoint eligible_rows (mins maxs : list (string * Q)) (l : list row)
  : result (list row) :=
  match l with
  | [] => Ok []
  | r :: rest =>
      b <- check_eligibility mins maxs r ;;
      tl <- eligible_rows mins maxs rest ;;
      Ok (if b then r :: tl else tl)
  end.

Section Sampling.

(** [DataFrame.sample(frac=1)]: the permutation the random source draws. *)
Variable sample : list row -> list row.

(** [get_queue(as_type="list")]. *)
Definition get_queue (self : annotator) : result (list string) :=
  queue_df <- eligible_rows (_min_values self) (_max_values self) (rows self) ;;
  Ok (map row_key (sample queue_df)).

End Sampling.


(** ** Saved data *)

(** [x.split(sep)] for a separator of one character: the pieces between the
    occurrences of [sep], at least one piece. *)
Fixpoint split_on (sep : ascii) (x : string) : list string :=
  match x with
  | EmptyString => [EmptyString]
  | String c rest =>
      if Ascii.eqb c sep then EmptyString :: split_on sep rest
      else match split_on sep rest with
           | piece :: pieces => String c piece :: pieces
           | [] => [String c EmptyString]
           end
  end.

(** The key [get_labelled_data] sorts by:
    [f"{x.split('#')[1]}-{x.split('#')[0]}"]. *)
Definition sort_value (x : string) : result string :=
  second <- getitem (split_on "#" x) 1 ;;
  first <- getitem (split_on "#" x) 0 ;;
  Ok (second ++ "-" ++ first)%string.

(** [labels.index(x)]: the first position of [x], [ValueError] when [x] is
    not in the list. *)
Fixpoint index_of (x : string) (labels : list string) : result Z :=
  match labels with
  | [] => Raise ValueError
  | y :: rest =>
      if String.eqb x y then Ok 0 else i <- index_of x rest ;; Ok (i + 1)
  end.

(** The columns [context_label] and [context_changed] that
    [annotate_context] adds: the cells written so far, newest first, by row
    key.  A row without a cell has a null [context_label] and a false
    [context_changed]. *)
Definition context_cells : Type := list (string * string).

(** The cell of [filter_col] in row [r] when [notna()] holds of it:
    [context_label] in context mode, the label column otherwise.  [None] and
    NaN both count as missing. *)
Definition active_label (self : annotator) (ctx : context_cells) (r : row)
  : option string :=
  if _annotate_context self then assoc (row_key r) ctx
  else match label r with
       | PyStr s => Some s
       | _ => None
       end.

Inductive label_cell : Type :=
| LabelText (s : string)
| LabelIndex (i : Z).

(** A row of the frame [get_labelled_data] returns: its index label, the
    path column when it is included, and the label column. *)
Record saved_row : Type := mk_saved_row {
  saved_key : string;
  saved_path : option string;
  saved_cell : label_cell
}.

(** [self[self[filter_col].notna()]]: the rows with a label, each with that
    label. *)
Definition labelled_rows (self : annotator) (ctx : context_cells)
  : list (row * string) :=
  flat_map
    (fun r =>
       match active_label self ctx r with
       | Some x => [(r, x)]
       | None => []
       end)
    (rows self).

Fixpoint insert_by_value {A : Type} (x : string * A) (l : list (string * A))
  : list (string * A) :=
  match l with
  | [] => [x]
  | y :: rest =>
      if String.leb (fst x) (fst y) then x :: l else y :: insert_by_value x rest
  end.

(** [sort_values("sort_value")]: ascending by the string key.  Rows with
    equal keys keep their order here; the sort pandas runs does not promise
    that. *)
Definition sort_by_value {A : Type} (l : list (string * A)) : list (string * A) :=
  fold_right insert_by_value [] l.

(** [get_labelled_data(sort, index_labels, include_paths)] on a table
    without an [image_id] column; [labels] is [self._labels]. *)
Definition get_labelled_data (self : annotator) (ctx : context_cells)
    (labels : list string) (sort index_labels include_paths : bool)
  : result (list saved_row) :=
  let filtered_df := labelled_rows self ctx in
  cells <- mapM
             (fun rx =>
                if index_labels
                then i <- index_of (snd rx) labels ;; Ok (LabelIndex i)
                else Ok (LabelText (snd rx)))
             filtered_df ;;
  let filtered_df :=
    map (fun rc =>
           mk_saved_row (row_key (fst (fst rc)))
             (if include_paths then Some (image_path (fst (fst rc))) else None)
             (snd rc))
        (combine filtered_df cells) in
  if negb sort then Ok filtered_df
  else
    values <- mapM (fun s => sort_value (saved_key s)) filtered_df ;;
    Ok (map snd (sort_by_value (combine values filtered_df))).

(** [s[:-4]]. *)
Definition drop_last4 (s : string) : string :=
  substring 0 (String.length s - 4) s.

(** [save_name] of [_auto_save]. *)
Definition save_name (annotations_file : string) (annotate_context : bool) : string :=
  if annotate_context then (drop_last4 annotations_file ++ "_context.csv")%string
  else annotations_file.


(** ** Queue engine *)

(** What the queue engine reads of the annotator besides the fields above,
    and never writes: the label list [_labels]; whether the table has a
    [url] column (the constructor joins one from the parent table when that
    has it); and [show_picture], the picture part of the display block of
    [render] ([get_patch_image], [get_context] when [show_context] is set,
    and [display] of the one or the other) with the image files it opens: it
    gives the exception that part raises for a row, if any. *)
Record setting : Type := mk_setting {
  _labels : list string;
  url_column : bool;
  show_picture : annotator -> string -> result unit
}.

Section Engine.

Variable env : setting.

(** The columns [context_label] and [context_changed] as they are when the
    method is called. *)
Variable ctx : context_cells.

(** [_auto_save]: [get_labelled_data(sort=True)] may raise, and then
    nothing is written; writing the file is taken to succeed. *)
Definition _auto_save (self : annotator) : annotator * result unit :=
  match get_labelled_data self ctx (_labels env) true false true with
  | Raise e => (self, Raise e)
  | Ok _ => (emit Saved self, Ok tt)
  end.

(** [render_complete]: the closing message, the save when [auto_save] is
    set, and only then the label buttons are disabled. *)
Definition render_complete (self : annotator) : annotator * result unit :=
  let self := emit Complete self in
  if auto_save self
  then match _auto_save self with
       | (self, Raise e) => (self, Raise e)
       | (self, Ok _) => (set_buttons_disabled self true, Ok tt)
       end
  else (set_buttons_disabled self true, Ok tt).

(** [render]: [len(self)] is the number of rows of the table.  The loop over
    the label buttons and [get_patch_image] look the row of [ix] up, which
    raises [KeyError] when the table has no such row; the cell
    [self.at[ix, "url"]] is read after the picture is shown, whether or not
    the table has that column.  An exception raised inside the block
    [with self.out] is taken to leave the block and the method, as it does
    when no IPython shell is running to print it in the output area. *)
Definition render (self : annotator) : annotator * result unit :=
  if len (rows self) - 1 <=? current_index self
  then render_complete self
  else match getitem (_queue self) (current_index self) with
       | Raise e => (self, Raise e)
       | Ok ix =>
           match at_image_path (rows self) ix with
           | Raise e => (self, Raise e)
           | Ok _ =>
               match show_picture env self ix with
               | Raise e => (self, Raise e)
               | Ok _ =>
                   if url_column env
                   then (emit (Rendered ix) self, Ok tt)
                   else (emit (Pictured ix) self, Raise KeyError)
               end
           end
       end.

(** [_next_example]: [None] is the bare [return] after [render_complete]. *)
Definition _next_example (self : annotator)
  : annotator * result (option (Z * Z * string)) :=
  if current_index self =? len (_queue self)
  then match render_complete self with
       | (self, Raise e) => (self, Raise e)
       | (self, Ok _) => (self, Ok None)
       end
  else
    let self := set_indices self (current_index self) (current_index self + 1) in
    match getitem (_queue self) (current_index self) with
    | Raise e => (self, Raise e)
    | Ok ix =>
        match at_image_path (rows self) ix with
        | Raise e => (self, Raise e)
        | Ok img_path =>
            match render self with
            | (self, Raise e) => (self, Raise e)
            | (self, Ok _) =>
                (self, Ok (Some (previous_index self, current_index self, img_path)))
            end
        end
    end.

(** [_prev_example]. *)
Definition _prev_example (self : annotator)
  : annotator * result (option (Z * Z * string)) :=
  if current_index self =? len (_queue self)
  then match render_complete self with
       | (self, Raise e) => (self, Raise e)
       | (self, Ok _) => (self, Ok None)
       end
  else
    let self :=
      if 0 <? current_index self
      then set_indices self (current_index self) (current_index self - 1)
      else self in
    match getitem (_queue self) (current_index self) with
    | Raise e => (self, Raise e)
    | Ok ix =>
        match at_image_path (rows self) ix with
        | Raise e => (self, Raise e)
        | Ok img_path =>
            match render self with
            | (self, Raise e) => (self, Raise e)
            | (self, Ok _) =>
                (self, Ok (Some (previous_index self, current_index self, img_path)))
            end
        end
    end.

(** [_annotate]: new bounds when given, cursor back to -1, buttons enabled,
    queue rebuilt, then the first [_next_example].  The display options
    ([show_context], [resize_to], [max_size]) are read by the picture part
    of the display only. *)
Definition _annotate (sample : list row -> list row)
    (min_values max_values : option (list (string * Q))) (self : annotator)
  : annotator * result (option (Z * Z * string)) :=
  let mins := match min_values with Some m => m | None => _min_values self end in
  let maxs := match max_values with Some m => m | None => _max_values self end in
  let self := set_bounds self mins maxs in
  let self := set_indices self (previous_index self) (-1) in
  let self := set_buttons_disabled self false in
  match get_queue sample self with
  | Raise e => (self, Raise e)
  | Ok q => _next_example (set_queue self q)
  end.

(** [advance n] calls [_next_example] [n] times, stopping at the first
    exception; it returns the state reached and the last result. *)
Fixpoint advance (n : nat) (self : annotator)
  : annotator * result (option (Z * Z * string)) :=
  match n with
  | O => (self, Ok None)
  | S O => _next_example self
  | S m =>
      match _next_example self with
      | (self, Raise e) => (self, Raise e)
      | (self, Ok _) => advance m self
      end
  end.

End Engine.

(** The annotator as the constructor leaves it, before the queue is set. *)
Definition fresh (table : list row) (mins maxs : list (string * Q))
    (autosave : bool) : annotator :=
  mk_annotator table [] (-1) 0 mins maxs autosave false 1 false [].

(** ** Annotation recorder *)

Definition set_rows (self : annotator) (table : list row) : annotator :=
  mk_annotator table (_queue self) (current_index self) (previous_index self)
    (_min_values self) (_max_values self) (auto_save self)
    (_annotate_context self) (surrounding self) (buttons_disabled self)
    (out self).

Definition set_mode (self : annotator) (annotate_context : bool) (s : Z) : annotator :=
  mk_annotator (rows self) (_queue self) (current_index self)
    (previous_index self) (_min_values self) (_max_values self)
    (auto_save self) annotate_context s (buttons_disabled self) (out self).

(** [self.at[ix, self.label_col] = annotation] and
    [self.at[ix, "changed"] = True], for an index label [ix] of the table. *)
Definition set_label_at (ix annotation : string) (table : list row) : list row :=
  map (fun r =>
         if String.eqb (row_key r) ix then set_label r (PyStr annotation) true else r)
      table.

(** [_add_annotation(annotation)] on the annotator and its context
    columns. *)
Definition _add_annotation (env : setting) (annotation : string)
    (st : annotator * context_cells)
  : (annotator * context_cells) * result (option (Z * Z * string)) :=
  match getitem (_queue (fst st)) (current_index (fst st)) with
  | Raise e => (st, Raise e)
  | Ok ix =>
      let st :=
        if _annotate_context (fst st)
        then (fst st, (ix, annotation) :: snd st)
        else (set_rows (fst st) (set_label_at ix annotation (rows (fst st))), snd st) in
      let saved :=
        if auto_save (fst st) then _auto_save env (snd st) (fst st)
        else (fst st, Ok tt) in
      match saved with
      | (self, Raise e) => ((self, snd st), Raise e)
      | (self, Ok _) =>
          let next := _next_example env (snd st) self in
          ((fst next, snd st), snd next)
      end
  end.

(** [annotate] and [annotate_context]: the mode is set, [annotate_context]
    fixes [surrounding] to 1, and [_annotate] does the rest. *)
Definition annotate (env : setting) (ctx : context_cells)
    (sample : list row -> list row)
    (min_values max_values : option (list (string * Q))) (surrounding_arg : option Z)
    (self : annotator)
  : annotator * result (option (Z * Z * string)) :=
  let s := match surrounding_arg with Some s => s | None => surrounding self end in
  _annotate env ctx sample min_values max_values (set_mode self false s).

Definition annotate_context (env : setting) (ctx : context_cells)
    (sample : list row -> list row)
    (min_values max_values : option (list (string * Q))) (self : annotator)
  : annotator * result (option (Z * Z * string)) :=
  _annotate env ctx sample min_values max_values (set_mode self true 1).

(** ** Resume merger

    The label column has its default name, [label], and the save file holds
    the index, the path column and the label column, as [_auto_save] writes
    it. *)

(** The label column of a save file as [pandas.read_csv] types it: [int64]
    when every cell is an integer (the old format, indices into the label
    list), [object] otherwise (strings, and NaN for a blank cell, written
    [None] here). *)
Inductive column : Type :=
| IntColumn (cells : list Z)
| ObjectColumn (cells : list (option string)).

(** [existing_annotations]: the index of the file and its two columns. *)
Record save_file : Type := mk_save_file {
  save_index : list string;
  save_image_path : list string;
  save_label : column
}.

(** [sorted(set(labels), key=labels.index)]: duplicates dropped, the first
    occurrence of each label kept in place. *)
Fixpoint uniq_from (seen : list string) (labels : list string) : list string :=
  match labels with
  | [] => []
  | x :: rest =>
      if existsb (String.eqb x) seen then uniq_from seen rest
      else x :: uniq_from (x :: seen) rest
  end.

Definition uniq (labels : list string) : list string := uniq_from [] labels.

(** The dtype test and [apply(lambda x: labels[x])]. *)
Definition resolve_labels (labels : list string) (c : column)
  : result (list (option string)) :=
  match c with
  | IntColumn cells => mapM (fun x => s <- getitem labels x ;; Ok (Some s)) cells
  | ObjectColumn cells => Ok cells
  end.

(** [patch_df.join(existing_annotations, how="left", ...)], reduced to the
    label column of the right side: every left row, in order, once per right
    row with the same index, and once with a null when there is none. *)
Definition left_join (left : list row) (right : list (string * option string))
  : list (row * option string) :=
  flat_map
    (fun r =>
       match filter (fun e => String.eqb (fst e) (row_key r)) right with
       | [] => [(r, None)]
       | matches => map (fun e => (r, snd e)) matches
       end)
    left.

(** [label_y.fillna(label_x)] on one cell: the cell of the file when it has
    a value, and the cell of the fresh table, whatever it holds, where the
    file has none (a blank cell, or no row with this index). *)
Definition fillna (label_y : option string) (label_x : label_value) : label_value :=
  match label_y with
  | Some s => PyStr s
  | None => label_x
  end.

(** [True if x else False] on a label cell: [None] and the empty string are
    false, every other string is true, and so is NaN. *)
Definition truthy (x : label_value) : bool :=
  match x with
  | PyStr s => negb (String.eqb s "")
  | PyNaN => true
  | PyNone => false
  end.

(** The branch of the constructor taken when the session file exists. *)
Definition merge_existing (labels : list string) (patch_df : list row)
    (existing_annotations : save_file) : result (list row) :=
  label_y <- resolve_labels labels (save_label existing_annotations) ;;
  let right := combine (save_index existing_annotations) label_y in
  Ok (map
        (fun rl =>
           let l := fillna (snd rl) (label (fst rl)) in
           set_label (fst rl) l (truthy l))
        (left_join patch_df right)).

(** ** Context compositor *)

(** An opened image: its size and its samples (every channel of every pixel,
    each a [uint8]). *)
Record picture : Type := mk_picture {
  height : Z;
  width : Z;
  samples : list Z
}.

(** One cell of the context grid: what [get_path] returned, or the white
    square of [get_empty_square((width, height))]. *)
Inductive tile : Type :=
| Picture (im : picture)
| EmptySquare (w h : Z).

(** [astype(np.uint8)] on a [float64] that lies in the range of the type:
    the fraction is dropped. *)
Definition astype_uint8 (f : PrimFloat.float) : Z :=
  match Prim2SF f with
  | S754_finite s m e =>
      let a := match e with
               | Z0 => Zpos m
               | Zpos p => Zpos m * 2 ^ Zpos p
               | Zneg p => Zpos m / 2 ^ Zpos p
               end in
      (if s then - a else a) mod 256
  | _ => 0
  end.

Definition float_of_Z (z : Z) : PrimFloat.float :=
  PrimFloat.of_uint63 (Uint63.of_Z z).

(** [256 - (256 - im_array) * 0.4] on one sample, then the cast back.  The
    inner difference is taken in [uint16] (the array is [uint8] and 256 does
    not fit), so it does not wrap; the product and the outer difference are
    [float64].  [0x1.999999999999ap-2] is the [float64] that the literal
    [0.4] denotes. *)
Definition lighten (old : Z) : Z :=
  astype_uint8
    (PrimFloat.sub (float_of_Z 256)
       (PrimFloat.mul (float_of_Z (256 - old)) 0x1.999999999999ap-2%float)).

(** [range(lo, hi)]. *)
Definition range (lo hi : Z) : list Z :=
  map (fun k => lo + Z.of_nat k) (seq 0 (Z.to_nat (hi - lo))).

(** [itertools.product(ys, xs)]. *)
Definition product {A B : Type} (ys : list A) (xs : list B) : list (A * B) :=
  flat_map (fun y => map (fun x => (y, x)) xs) ys.

Fixpoint split_sizes {A : Type} (sizes : list nat) (l : list A) : list (list A) :=
  match sizes with
  | [] => []
  | k :: rest => firstn k l :: split_sizes rest (skipn k l)
  end.

(** [numpy.array_split(l, n)]: [len(l) % n] sections of size
    [len(l) // n + 1], then sections of size [len(l) // n]. *)
Definition array_split {A : Type} (l : list A) (n : Z) : result (list (list A)) :=
  if n <=? 0 then Raise ValueError
  else
    let k := Z.to_nat n in
    let each := Nat.div (List.length l) k in
    let extras := Nat.modulo (List.length l) k in
    Ok (split_sizes (repeat (S each) extras ++ repeat each (k - extras)) l).

Definition some_key_eqb (x : option string) (ix : string) : bool :=
  match x with
  | Some k => String.eqb k ix
  | None => false
  end.

Section Images.

(** [Image.open]: the image files on disk. *)
Variable open_image : string -> picture.

(** [get_path(image_path, dim)] of [get_context]. *)
Definition get_path (annotate_context : bool) (image_path : string) (dim : bool) : picture :=
  let im := open_image image_path in
  let dim := if annotate_context then false else dim in
  if dim
  then mk_picture (height im) (width im) (map lighten (samples im))
  else im.

(** [height, width] of the focal tile: the [shape] column, or, when the
    table has none, the size of the image file. *)
Definition tile_size (focal : row) : Z * Z :=
  match shape focal with
  | Some (h, w, _) => (h, w)
  | None => let im := open_image (image_path focal) in (height im, width im)
  end.

(** [self.query(f"parent_id=='{current_parent}'")]. *)
Definition parent_frame (self : annotator) (focal : row) : list row :=
  filter (fun r => String.eqb (parent_id r) (parent_id focal)) (rows self).

(** [deltas] and the origins [y_and_x] expected around the focal tile, rows
    outermost. *)
Definition deltas (self : annotator) : list Z :=
  range (- surrounding self) (surrounding self + 1).

Definition y_and_x (self : annotator) (focal : row) (hw : Z * Z) : list (Z * Z) :=
  product (map (fun y_delta => min_y focal + y_delta * fst hw) (deltas self))
          (map (fun x_delta => min_x focal + x_delta * snd hw) (deltas self)).

(** [parent_frame.query(f"min_x == {x} & min_y == {y}")]. *)
Definition query (frame : list row) (yx : Z * Z) : list row :=
  filter (fun r => (min_x r =? snd yx) && (min_y r =? fst yx)) frame.

(** [get_context], up to the grid [images] and the size of the canvas they
    are pasted on.  The advisory warning, the pasting and the final resize
    are left out. *)
Definition get_context (self : annotator) : result (list (list tile) * (Z * Z)) :=
  ix <- getitem (_queue self) (current_index self) ;;
  match find_row (rows self) ix with
  | None => Raise KeyError
  | Some focal =>
      let hw := tile_size focal in
      let items := map (query (parent_frame self focal)) (y_and_x self focal hw) in
      let ids :=
        map (fun x => match x with [r] => Some (row_key r) | _ => None end) items in
      let ids := map (fun x => negb (some_key_eqb x ix)) ids in
      let image_paths :=
        map (fun x => match x with [r] => Some (image_path r) | _ => None end) items in
      let image_list := combine image_paths ids in
      let per_row := len (deltas self) in
      chunks <- array_split image_list per_row ;;
      let images :=
        map (map (fun x =>
                    match fst x with
                    | Some p =>
                        if String.eqb p "" then EmptySquare (snd hw) (fst hw)
                        else Picture (get_path (_annotate_context self) p (snd x))
                    | None => EmptySquare (snd hw) (fst hw)
                    end))
            chunks in
      Ok (images,
          ((2 * surrounding self + 1) * snd hw, (2 * surrounding self + 1) * fst hw))
  end.

End Images.

(** ** Schema normalizer: literal evaluation of columns *)

(** A cell of a DataFrame column. *)
#[warnings="-register-all"]
Inductive value : Type :=
| VNone
| VBool (b : bool)
| VInt (z : Z)
| VFloat (f : PrimFloat.float)
| VStr (s : string)
| VTuple (items : list value)
| VList (items : list value).

(** A DataFrame as its columns, in order, each with its name. *)
Definition table : Type := list (string * list value).

Section LiteralEval.

(** What [ast.literal_eval] makes of a string: the value of the literal, or
    the exception it raises. *)
Variable parse : string -> result value.

(** [ast.literal_eval(node_or_string)]: anything that is not a string is
    taken for a syntax tree and refused as malformed. *)
Definition literal_eval (node_or_string : value) : result value :=
  match node_or_string with
  | VStr s => parse s
  | _ => Raise ValueError
  end.

(** One turn of the loop of [_eval_df]: the column is replaced only when
    [apply] went through every cell. *)
Definition eval_column (col : string * list value) : result (string * list value) :=
  match mapM literal_eval (snd col) with
  | Ok cells => Ok (fst col, cells)
  | Raise ValueError => Ok col
  | Raise TypeError => Ok col
  | Raise SyntaxError => Ok col
  | Raise e => Raise e
  end.

Definition _eval_df (df : table) : result table := mapM eval_column df.

End LiteralEval.

(** *** A parser for plain literals

    Decimal integers with an optional sign, [None], [True], [False], strings
    between single or double quotes that hold no backslash, and tuples and
    lists of these.  On such text it computes the value [ast.literal_eval]
    gives; every other text is answered with [ValueError]. *)

Definition is_digit (c : ascii) : bool :=
  let n := nat_of_ascii c in (48 <=? n)%nat && (n <=? 57)%nat.

Definition is_ident_char (c : ascii) : bool :=
  let n := nat_of_ascii c in
  is_digit c || ((65 <=? n)%nat && (n <=? 90)%nat)
  || ((97 <=? n)%nat && (n <=? 122)%nat) || (n =? 95)%nat.

Definition is_blank (c : ascii) : bool :=
  let n := nat_of_ascii c in (n =? 32)%nat || (n =? 9)%nat.

Fixpoint skip_blanks (s : list ascii) : list ascii :=
  match s with
  | c :: rest => if is_blank c then skip_blanks rest else s
  | [] => []
  end.

Fixpoint take_digits (s : list ascii) : list ascii * list ascii :=
  match s with
  | c :: rest =>
      if is_digit c
      then let dr := take_digits rest in (c :: fst dr, snd dr)
      else ([], s)
  | [] => ([], [])
  end.

Definition digits_value (ds : list ascii) : Z :=
  fold_left (fun acc c => 10 * acc + Z.of_nat (nat_of_ascii c - 48)) ds 0.

(** A decimal integer literal has no leading zero unless it is all zeros. *)
Definition digits_ok (ds : list ascii) : bool :=
  match ds with
  | [] => false
  | c :: rest =>
      negb (Ascii.eqb c "0"%char) || forallb (Ascii.eqb "0"%char) rest
  end.

(** The text up to the closing quote [q]; no backslash and no line break. *)
Fixpoint take_quoted (q : ascii) (s : list ascii) : option (list ascii * list ascii) :=
  match s with
  | [] => None
  | c :: rest =>
      if Ascii.eqb c q then Some ([], rest)
      else if Ascii.eqb c "\"%char || (nat_of_ascii c =? 10)%nat then None
      else match take_quoted q rest with
           | Some (body, rest') => Some (c :: body, rest')
           | None => None
           end
  end.

Fixpoint strip_prefix (p s : list ascii) : option (list ascii) :=
  match p, s with
  | [], _ => Some s
  | a :: p', b :: s' => if Ascii.eqb a b then strip_prefix p' s' else None
  | _ :: _, [] => None
  end.

(** A keyword, not followed by a character that would continue a name. *)
Definition keyword (k : string) (s : list ascii) : option (list ascii) :=
  match strip_prefix (list_ascii_of_string k) s with
  | Some (c :: rest) => if is_ident_char c then None else Some (c :: rest)
  | other => other
  end.

Definition parse_number (s : list ascii) : option (value * list ascii) :=
  let dr := take_digits s in
  if digits_ok (fst dr)
  then match snd dr with
       | c :: _ => if is_ident_char c || Ascii.eqb c "."%char then None
                   else Some (VInt (digits_value (fst dr)), snd dr)
       | [] => Some (VInt (digits_value (fst dr)), [])
       end
  else None.

Fixpoint parse_value (fuel : nat) (s : list ascii) {struct fuel}
  : option (value * list ascii) :=
  match fuel with
  | O => None
  | S fuel' =>
      match skip_blanks s with
      | [] => None
      | c :: rest =>
          if Ascii.eqb c "'"%char || Ascii.eqb c (ascii_of_nat 34) then
            match take_quoted c rest with
            | Some (body, rest') => Some (VStr (string_of_list_ascii body), rest')
            | None => None
            end
          else if Ascii.eqb c "-"%char then
            match parse_number (skip_blanks rest) with
            | Some (VInt z, rest') => Some (VInt (- z), rest')
            | _ => None
            end
          else if Ascii.eqb c "+"%char then parse_number (skip_blanks rest)
          else if is_digit c then parse_number (c :: rest)
          else if Ascii.eqb c "("%char then
            match parse_items fuel' ")"%char rest with
            | Some (items, comma, rest') =>
                match items, comma with
                | [v], false => Some (v, rest')
                | _, _ => Some (VTuple items, rest')
                end
            | None => None
            end
          else if Ascii.eqb c "["%char then
            match parse_items fuel' "]"%char rest with
            | Some (items, _, rest') => Some (VList items, rest')
            | None => None
            end
          else
            match keyword "None" (c :: rest) with
            | Some rest' => Some (VNone, rest')
            | None =>
                match keyword "True" (c :: rest) with
                | Some rest' => Some (VBool true, rest')
                | None =>
                    match keyword "False" (c :: rest) with
                    | Some rest' => Some (VBool false, rest')
                    | None => None
                    end
                end
            end
      end
  end
with parse_items (fuel : nat) (close : ascii) (s : list ascii) {struct fuel}
  : option (list value * bool * list ascii) :=
  match fuel with
  | O => None
  | S fuel' =>
      match skip_blanks s with
      | [] => None
      | c :: rest =>
          if Ascii.eqb c close then Some ([], false, rest)
          else
            match parse_value fuel' (c :: rest) with
            | None => None
            | Some (v, rest1) =>
                match skip_blanks rest1 with
                | d :: rest2 =>
                    if Ascii.eqb d close then Some ([v], false, rest2)
                    else if Ascii.eqb d ","%char then
                      match parse_items fuel' close rest2 with
                      | Some (vs, _, rest3) => Some (v :: vs, true, rest3)
                      | None => None
                      end
                    else None
                | [] => None
                end
            end
      end
  end.

Definition literal_parse (s : string) : result value :=
  let cs := list_ascii_of_string s in
  match parse_value (S (List.length cs)) cs with
  | Some (v, rest) =>
      match skip_blanks rest with
      | [] => Ok v
      | _ :: _ => Raise ValueError
      end
  | None => Raise ValueError
  end.

(** ** Session identity *)

(** [sorted] on a list of strings: Python orders strings by code point, as
    [String.leb] orders them by character code. *)
Fixpoint insert_sorted (x : string) (l : list string) : list string :=
  match l with
  | [] => [x]
  | y :: rest => if String.leb x y then x :: l else y :: insert_sorted x rest
  end.

Definition sorted (l : list string) : list string := fold_right insert_sorted [] l.

(** *** [json.dumps] of a list of strings

    The default encoder: [ensure_ascii] is on, items are separated by a comma
    and a space.  A character of a path is a code point below 256. *)

Definition quote : ascii := ascii_of_nat 34.

Definition backslash : ascii := ascii_of_nat 92.

Definition hex_digit (n : nat) : ascii :=
  nth n (list_ascii_of_string "0123456789abcdef") "0"%char.

(** The replacement [py_encode_basestring_ascii] makes for one character:
    the short escapes, [\u00xx] for every other character outside
    [' ' .. '~'], and the character itself inside that range. *)
Definition escape (c : ascii) : string :=
  let n := nat_of_ascii c in
  if (n =? 34)%nat then String backslash (String quote EmptyString)
  else if (n =? 92)%nat then String backslash (String backslash EmptyString)
  else if (n =? 10)%nat then String backslash "n"
  else if (n =? 13)%nat then String backslash "r"
  else if (n =? 9)%nat then String backslash "t"
  else if (n =? 8)%nat then String backslash "b"
  else if (n =? 12)%nat then String backslash "f"
  else if (32 <=? n)%nat && (n <=? 126)%nat then String c EmptyString
  else String backslash
         (String "u" (String "0" (String "0"
            (String (hex_digit (n / 16)) (String (hex_digit (n mod 16)) EmptyString))))).

Fixpoint escape_all (s : string) : string :=
  match s with
  | EmptyString => EmptyString
  | String c rest => (escape c ++ escape_all rest)%string
  end.

Definition encode_basestring_ascii (s : string) : string :=
  String quote (escape_all s ++ String quote EmptyString)%string.

Definition json_dumps (l : list string) : string :=
  ("[" ++ String.concat ", " (map encode_basestring_ascii l) ++ "]")%string.

(** *** [hashlib.md5]: the MD5 digest of RFC 1321 on a sequence of bytes *)

Module MD5.

Definition add32 (x y : Z) : Z := (x + y) mod 4294967296.

Definition not32 (x : Z) : Z := 4294967295 - x.

Definition rotl32 (x c : Z) : Z :=
  Z.lor (Z.shiftl x c mod 4294967296) (Z.shiftr x (32 - c)).

Definition shifts : list Z :=
  [7; 12; 17; 22; 7; 12; 17; 22; 7; 12; 17; 22; 7; 12; 17; 22;
   5; 9; 14; 20; 5; 9; 14; 20; 5; 9; 14; 20; 5; 9; 14; 20;
   4; 11; 16; 23; 4; 11; 16; 23; 4; 11; 16; 23; 4; 11; 16; 23;
   6; 10; 15; 21; 6; 10; 15; 21; 6; 10; 15; 21; 6; 10; 15; 21].

(** [floor(2^32 * abs(sin(i + 1)))] for [i] from 0 to 63. *)
Definition sines : list Z :=
  [3614090360; 3905402710; 606105819; 3250441966;
   4118548399; 1200080426; 2821735955; 4249261313;
   1770035416; 2336552879; 4294925233; 2304563134;
   1804603682; 4254626195; 2792965006; 1236535329;
   4129170786; 3225465664; 643717713; 3921069994;
   3593408605; 38016083; 3634488961; 3889429448;
   568446438; 3275163606; 4107603335; 1163531501;
   2850285829; 4243563512; 1735328473; 2368359562;
   4294588738; 2272392833; 1839030562; 4259657740;
   2763975236; 1272893353; 4139469664; 3200236656;
   681279174; 3936430074; 3572445317; 76029189;
   3654602809; 3873151461; 530742520; 3299628645;
   4096336452; 1126891415; 2878612391; 4237533241;
   1700485571; 2399980690; 4293915773; 2240044497;
   1873313359; 4264355552; 2734768916; 1309151649;
   4149444226; 3174756917; 718787259; 3951481745].

(** [k] bytes of [n], least significant first. *)
Fixpoint le_bytes (k : nat) (n : Z) : list Z :=
  match k with
  | O => []
  | S k' => n mod 256 :: le_bytes k' (n / 256)
  end.

Fixpoint le_word (bytes : list Z) : Z :=
  match bytes with
  | [] => 0
  | b :: rest => b + 256 * le_word rest
  end.

(** The message followed by the bit [1], zeros up to 56 modulo 64, and the
    length in bits on 8 bytes. *)
Definition pad (msg : list Z) : list Z :=
  let n := List.length msg in
  msg ++ 128 :: repeat 0 (Z.to_nat ((55 - Z.of_nat n) mod 64))
      ++ le_bytes 8 ((8 * Z.of_nat n) mod 18446744073709551616).

(** Consecutive sections of [size] elements; [fuel] bounds their number. *)
Fixpoint sections {A : Type} (fuel size : nat) (l : list A) : list (list A) :=
  match fuel, l with
  | O, _ => []
  | _, [] => []
  | S fuel', _ => firstn size l :: sections fuel' size (skipn size l)
  end.

Definition state : Type := (Z * Z * Z * Z)%type.

Definition initial : state := (1732584193, 4023233417, 2562383102, 271733878).

(** One of the 64 operations on a block whose 16 words are [M]. *)
Definition step (M : list Z) (st : state) (i : nat) : state :=
  let '(A, B, C, D) := st in
  let iz := Z.of_nat i in
  let fg :=
    if (i <? 16)%nat then (Z.lor (Z.land B C) (Z.land (not32 B) D), iz)
    else if (i <? 32)%nat then (Z.lor (Z.land D B) (Z.land (not32 D) C), (5 * iz + 1) mod 16)
    else if (i <? 48)%nat then (Z.lxor (Z.lxor B C) D, (3 * iz + 5) mod 16)
    else (Z.lxor C (Z.lor B (not32 D)), (7 * iz) mod 16) in
  let F := add32 (add32 (add32 (fst fg) A) (nth i sines 0)) (nth (Z.to_nat (snd fg)) M 0) in
  (D, add32 B (rotl32 F (nth i shifts 0)), B, C).

Definition process (st : state) (block : list Z) : state :=
  let M := map le_word (sections 16 4 block) in
  let '(a0, b0, c0, d0) := st in
  let '(A, B, C, D) := fold_left (step M) (seq 0 64) st in
  (add32 a0 A, add32 b0 B, add32 c0 C, add32 d0 D).

Definition digest_state (msg : list Z) : state :=
  let padded := pad msg in
  fold_left process (sections (List.length padded) 64 padded) initial.

Definition hex_byte (b : Z) : string :=
  String (hex_digit (Z.to_nat (b / 16))) (String (hex_digit (Z.to_nat (b mod 16))) EmptyString).

Definition hex_of_state (st : state) : string :=
  let '(a, b, c, d) := st in
  String.concat ""
    (map hex_byte (le_bytes 4 a ++ le_bytes 4 b ++ le_bytes 4 c ++ le_bytes 4 d)).

(** [hashlib.md5(text.encode("utf-8")).hexdigest()] for a text of ASCII
    characters. *)
Definition hexdigest (text : string) : string :=
  hex_of_state
    (digest_state (map (fun c => Z.of_nat (nat_of_ascii c)) (list_ascii_of_string text))).

End MD5.

(** *** The session file *)

(** [task_name.replace(" ", "_")]. *)
Fixpoint replace_spaces (s : string) : string :=
  match s with
  | EmptyString => EmptyString
  | String c rest =>
      String (if Ascii.eqb c " "%char then "_"%char else c) (replace_spaces rest)
  end.

Fixpoint ends_with_slash (s : string) : bool :=
  match s with
  | EmptyString => false
  | String c EmptyString => Ascii.eqb c "/"%char
  | String _ rest => ends_with_slash rest
  end.

(** [os.path.join(a, b)] on a POSIX system. *)
Definition os_path_join (a b : string) : string :=
  match b with
  | String c _ =>
      if Ascii.eqb c "/"%char then b
      else if String.eqb a "" || ends_with_slash a then (a ++ b)%string
      else (a ++ "/" ++ b)%string
  | EmptyString =>
      if String.eqb a "" || ends_with_slash a then a else (a ++ "/")%string
  end.

(** [x or default] for an optional string argument: [None] and the empty
    string both count as missing. *)
Definition or_default (x : option string) (default : string) : string :=
  match x with
  | Some s => if String.eqb s "" then default else s
  | None => default
  end.

(** The name of the session file as the constructor computes it from the
    path column.  [random_name] is the string of 30 letters and digits drawn
    for a missing [username]. *)
Definition annotations_file (annotations_dir : string) (paths : list string)
    (username task_name : option string) (random_name : string) : string :=
  let image_list := json_dumps (sorted paths) in
  let username := or_default username random_name in
  let task_name := or_default task_name "task" in
  let id := MD5.hexdigest image_list in
  let annotations_file :=
    (replace_spaces task_name ++ "_#" ++ username ++ "#-" ++ id ++ ".csv")%string in
  os_path_join annotations_dir annotations_file.

(** ** Label buttons *)

(** [self.buttons_per_row] as the constructor sets it from the number of
    labels. *)
Definition buttons_per_row (n_labels : Z) : Z :=
  if n_labels mod 2 =? 0
  then (if 4 <? n_labels then 4 else 2)
  else (if n_labels =? 3 then 3 else 5).

(** The box of label buttons, each button standing for its label. *)
Inductive box : Type :=
| HBox (buttons : list string)
| VBox (hboxes : list (list string)).

(** [l[start:stop]] for [0 <= start <= stop]. *)
Definition slice {A : Type} (l : list A) (start stop : Z) : list A :=
  firstn (Z.to_nat (stop - start)) (skipn (Z.to_nat start) l).

(** [range(0, stop, step)] for a positive [step]. *)
Definition range_step (stop step : Z) : list Z :=
  map (fun k => Z.of_nat k * step) (seq 0 (Z.to_nat ((stop + step - 1) / step))).

(** The box of [_setup_box]. *)
Definition _setup_box (buttons : list string) (per_row : Z) : box :=
  if per_row <? len buttons
  then VBox (map (fun x => slice buttons x (x + per_row))
               (range_step (len buttons) per_row))
  else HBox buttons.

(** ** Statements about tables and queues *)

(** Every key of the queue is the index of a row of the table. *)
Definition queue_in_table (self : annotator) : Prop :=
  forall ix, In ix (_queue self) -> exists path, at_image_path (rows self) ix = Ok path.

(** Row [r] has a number in every constrained column, not below the minimum
    of the column and not above its maximum. *)
Definition within_bounds (mins maxs : list (string * Q)) (r : row) : Prop :=
  (forall col m, In (col, m) mins -> exists v, row_get r col = Ok v /\ (m <= v)%Q)
  /\ (forall col m, In (col, m) maxs -> exists v, row_get r col = Ok v /\ (v <= m)%Q).

(** Row [r] has a number in every constrained column. *)
Definition columns_present (mins maxs : list (string * Q)) (r : row) : Prop :=
  forall col m, In (col, m) (mins ++ maxs) -> exists v, row_get r col = Ok v.

(** A label that is null ([None] or NaN) or the empty string. *)
Definition null_or_empty (l : label_value) : Prop :=
  l = PyNone \/ l = PyNaN \/ l = PyStr "".

(** The index of the table is unique. *)
Definition unique_index (table : list row) : Prop := NoDup (map row_key table).

(** Row [r] is the row of the table with index label [ix]. *)
Definition row_at (table : list row) (ix : string) (r : row) : Prop :=
  In r table /\ row_key r = ix.


(** The index label holds a [#], so that [x.split('#')[1]] exists. *)
Definition has_hash (x : string) : Prop := In "#"%char (list_ascii_of_string x).

(** Every row that [get_labelled_data] would write has a [#] in its index
    label; and the contrary. *)
Definition saveable (self : annotator) (ctx : context_cells) : Prop :=
  forall r, In r (rows self) -> active_label self ctx r <> None -> has_hash (row_key r).

Definition unsaveable (self : annotator) (ctx : context_cells) : Prop :=
  exists r, In r (rows self) /\ active_label self ctx r <> None /\ ~ has_hash (row_key r).

(** The picture part of the display shows every row of these keys, whatever
    the state of the annotator. *)
Definition pictures_shown (env : setting) (keys : list string) : Prop :=
  forall s ix, In ix keys -> show_picture env s ix = Ok tt.

(** The label the save file holds for a key: null when the key is absent or
    its cell is blank. *)
Definition saved_label (right : list (string * option string)) (k : string)
  : option string :=
  match assoc k right with
  | Some l => l
  | None => None
  end.

(** The entry of the label list an index stands for: position [x] for
    [x >= 0], position [len(labels) + x] for a negative [x]. *)
Definition entry (labels : list string) (x : Z) : string :=
  nth (Z.to_nat (if x <? 0 then len labels + x else x)) labels "".


(** ** Sample tables *)

Definition labelled_row (k : string) : row :=
  mk_row k (k ++ ".png")%string (PyStr "rail") true "map" 0 0 10 10 None [].

Definition unlabelled_row (k : string) (x y : Z) : row :=
  mk_row k (k ++ ".png")%string PyNone false "map" x y (x + 10) (y + 10) None [].

(** A table with a [url] column whose pictures can all be shown, and the
    same without the column. *)
Definition with_url : setting := mk_setting ["rail"; "road"] true (fun _ _ => Ok tt).


(** Three rows, two of them in the queue. *)
Definition demo_table : list row :=
  [unlabelled_row "p1" 0 0; unlabelled_row "p2" 10 0; labelled_row "p3"].

Definition demo (cur : Z) : annotator :=
  set_indices (set_queue (fresh demo_table [] [] true) ["p1"; "p2"]) 0 cur.

(** A row with a [score] column. *)
Definition scored_row (k : string) (l : label_value) (score : Q) : row :=
  mk_row k (k ++ ".png")%string l false "map" 0 0 10 10 None [("score", score)].

Definition scored_table : list row :=
  [scored_row "low" PyNone (4 # 10); scored_row "high" PyNone (6 # 10);
   scored_row "done" (PyStr "rail") (9 # 10)].

Definition demo_save : save_file :=
  mk_save_file ["p2"; "p3"] ["p2.png"; "p3.png"] (ObjectColumn [Some "road"; None]).

(** ** Statements about context tiles *)

(** A picture with every sample put through [lighten]. *)
Definition lightened (im : picture) : picture :=
  mk_picture (height im) (width im) (map lighten (samples im)).

(** What [get_context] puts in the cell for one expected origin. *)
Definition cell (open_image : string -> picture) (self : annotator)
    (ix : string) (hw : Z * Z) (found : list row) : tile :=
  match found with
  | [r] =>
      if String.eqb (image_path r) "" then EmptySquare (snd hw) (fst hw)
      else Picture (get_path open_image (_annotate_context self) (image_path r)
                      (negb (String.eqb (row_key r) ix)))
  | _ => EmptySquare (snd hw) (fst hw)
  end.

(** The transform as the specification words it, [256 - (256 - old) * 0.6],
    and the same formula with the factor the code uses. *)
Definition spec_lighten (old : Z) : Q := 256 - (256 - inject_Z old) * (6 # 10).

Definition code_lighten (old : Z) : Q := 256 - (256 - inject_Z old) * (4 # 10).

(** Image files of 10 by 10 pixels, told apart by one sample. *)
Definition disk (path : string) : picture :=
  mk_picture 10 10 [0; 100; 255; Z.of_nat (String.length path)].

Definition tile_row (k parent : string) (x y : Z) : row :=
  mk_row k (k ++ ".png")%string PyNone false parent x y (x + 10) (y + 10) None [].

(** The focal tile [c] at the origin, two rows [e1] and [e2] that both claim
    the place to its right, one tile [s] below it, and a tile of another
    parent to its left. *)
Definition context_table : list row :=
  [tile_row "c" "map" 0 0; tile_row "e1" "map" 10 0; tile_row "e2" "map" 10 0;
   tile_row "s" "map" 0 10; tile_row "w" "other" (-10) 0].

Definition context_demo (annotate_context : bool) : annotator :=
  mk_annotator context_table ["c"] 0 (-1) [] [] false annotate_context 1 false [].

(** ** Statements about literal evaluation *)

(** A cell that is not a string. *)
Definition native (v : value) : Prop :=
  match v with
  | VStr _ => False
  | _ => True
  end.

(** The exceptions [_eval_df] catches. *)
Definition caught (e : exn) : Prop :=
  e = ValueError \/ e = TypeError \/ e = SyntaxError.

(** A table as [pandas.read_csv] hands it over: bounds and quoted names as
    text, parsed numbers, and paths. *)
Definition csv_table : table :=
  [("pixel_bounds", [VStr "(0, 0, 10, 10)"; VStr "(10, 0, 20, 10)"]);
   ("image_path", [VStr "patches/p1.png"; VStr "patches/p2.png"]);
   ("mean_pixel", [VInt 117; VInt 64]);
   ("names", [VStr "['a', 'b']"; VStr "[]"])].

(** ** Statements about the session file *)

(** The file name pattern as the specification words it. *)
Definition spec_file_name (task user hash : string) : string :=
  (task ++ "_#" ++ user ++ "#-" ++ hash ++ ".csv")%string.

(** The text that is hashed. *)
Definition image_list (paths : list string) : string := json_dumps (sorted paths).

Definition unhex (c : ascii) : option nat :=
  let n := nat_of_ascii c in
  if (48 <=? n)%nat && (n <=? 57)%nat then Some (n - 48)%nat
  else if (97 <=? n)%nat && (n <=? 102)%nat then Some (n - 87)%nat
  else None.

(** Reads one escaped character back from the front of a JSON string body;
    the closing quote is no character. *)
Definition unescape (s : string) : option (ascii * string) :=
  match s with
  | EmptyString => None
  | String c rest =>
      if Ascii.eqb c quote then None
      else if Ascii.eqb c backslash then
        match rest with
        | String d rest' =>
            if Ascii.eqb d quote then Some (quote, rest')
            else if Ascii.eqb d backslash then Some (backslash, rest')
            else if Ascii.eqb d "n"%char then Some (ascii_of_nat 10, rest')
            else if Ascii.eqb d "r"%char then Some (ascii_of_nat 13, rest')
            else if Ascii.eqb d "t"%char then Some (ascii_of_nat 9, rest')
            else if Ascii.eqb d "b"%char then Some (ascii_of_nat 8, rest')
            else if Ascii.eqb d "f"%char then Some (ascii_of_nat 12, rest')
            else if Ascii.eqb d "u"%char then
              match rest' with
              | String _ (String _ (String h (String l rest''))) =>
                  match unhex h, unhex l with
                  | Some a, Some b => Some (ascii_of_nat (16 * a + b), rest'')
                  | _, _ => None
                  end
              | _ => None
              end
            else None
        | EmptyString => None
        end
      else Some (c, rest)
  end.

(** The number a digest state stands for, and paths of every length. *)
Definition state_number (st : MD5.state) : Z :=
  let '(a, b, c, d) := st in
  a + 4294967296 * (b + 4294967296 * (c + 4294967296 * d)).

Definition text_bytes (text : string) : list Z :=
  map (fun c => Z.of_nat (nat_of_ascii c)) (list_ascii_of_string text).

Fixpoint path_of_length (n : nat) : string :=
  match n with
  | O => EmptyString
  | S n' => String "a" (path_of_length n')
  end.

(** The four words of a digest state are 32-bit numbers. *)
Definition words32 (st : MD5.state) : Prop :=
  let '(a, b, c, d) := st in
  0 <= a < 4294967296 /\ 0 <= b < 4294967296
  /\ 0 <= c < 4294967296 /\ 0 <= d < 4294967296.

(** ** Statements about navigation and recording *)

(** One press of a navigation button, [next] or [previous]; the exception a
    press may raise leaves the annotator as the method left it. *)
Definition press (env : setting) (ctx : context_cells) (next : bool)
    (self : annotator) : annotator :=
  fst (if next then _next_example env ctx self else _prev_example env ctx self).

(** What the press returns or raises. *)
Definition press_result (env : setting) (ctx : context_cells) (next : bool)
    (self : annotator) : result (option (Z * Z * string)) :=
  snd (if next then _next_example env ctx self else _prev_example env ctx self).

Definition presses (env : setting) (ctx : context_cells) (buttons : list bool)
    (self : annotator) : annotator :=
  fold_left (fun s b => press env ctx b s) buttons self.

(** The frame [get_labelled_data] returns without sorting and without label
    indices. *)
Definition labelled_frame (self : annotator) (ctx : context_cells)
    (include_paths : bool) : list saved_row :=
  map (fun rx =>
         mk_saved_row (row_key (fst rx))
           (if include_paths then Some (image_path (fst rx)) else None)
           (LabelText (snd rx)))
      (labelled_rows self ctx).

(** Ascending sort values along a saved frame. *)
Definition by_sort_value (a b : saved_row) : Prop :=
  exists va vb,
    sort_value (saved_key a) = Ok va
    /\ sort_value (saved_key b) = Ok vb
    /\ String.leb va vb = true.

(** Bounds [mins', maxs'] at least as tight as [mins, maxs]: every minimum
    is matched by one that is not lower, every maximum by one that is not
    higher. *)
Definition tighter (mins maxs mins' maxs' : list (string * Q)) : Prop :=
  (forall col m, In (col, m) mins -> exists m', In (col, m') mins' /\ (m <= m')%Q)
  /\ (forall col m, In (col, m) maxs -> exists m', In (col, m') maxs' /\ (m' <= m)%Q).

(** ** More sample tables *)

(** Index labels in the form the patchifier gives them. *)
Definition patch_row (k : string) (l : label_value) : row :=
  mk_row k ("patches/" ++ k)%string l false "map.png" 0 0 10 10 None [].

Definition patch_table : list row :=
  [patch_row "patch-10-0-#map_b.png#.png" (PyStr "rail");
   patch_row "patch-0-0-#map_b.png#.png" PyNone;
   patch_row "patch-0-0-#map_a.png#.png" (PyStr "road")].

Definition patch_demo (cur : Z) (autosave : bool) : annotator :=
  set_indices
    (set_queue (fresh patch_table [] [] autosave) ["patch-0-0-#map_b.png#.png"])
    0 cur.

(** The label a saved cell stands for: the text itself, or the entry of the
    label list at the index. *)
Definition decoded (labels : list string) (s : saved_row) : string * string :=
  (saved_key s,
   match saved_cell s with
   | LabelText t => t
   | LabelIndex i => entry labels i
   end).

Definition cell_index (c : label_cell) : Z :=
  match c with
  | LabelIndex i => i
  | LabelText _ => 0
  end.

(** [x] is found earlier in [labels] than [y]: [labels.index(x)] is below
    [labels.index(y)]. *)
Definition first_before (labels : list string) (x y : string) : Prop :=
  exists i j, index_of x labels = Ok i /\ index_of y labels = Ok j /\ i < j.

(** The rows of a box of label buttons. *)
Definition box_rows (b : box) : list (list string) :=
  match b with
  | HBox buttons => [buttons]
  | VBox hboxes => hboxes
  end.

(** One click on a label button after the other; an exception a click
    raises leaves the annotator as [_add_annotation] left it. *)
Definition clicks (env : setting) (annotations : list string)
    (st : annotator * context_cells) : annotator * context_cells :=
  fold_left (fun st a => fst (_add_annotation env a st)) annotations st.

(** The closing message or a save. *)
Definition closing (e : event) : Prop := e = Complete \/ e = Saved.

(** Two rows to annotate and one that has a label, the cursor on the first
    key of the queue, saving after every annotation. *)
Definition pass_table : list row :=
  [patch_row "patch-0-0-#map_a.png#.png" PyNone;
   patch_row "patch-10-0-#map_a.png#.png" PyNone;
   patch_row "patch-0-0-#map_b.png#.png" (PyStr "rail")].

Definition pass_demo : annotator :=
  set_indices
    (set_queue (fresh pass_table [] [] true)
       ["patch-10-0-#map_a.png#.png"; "patch-0-0-#map_a.png#.png"])
    (-1) 0.
(** * Properties *)

(** ** Python lists *)

Lemma len_nonneg {A : Type} (l : list A) : 0 <= len l.
Proof. unfold len; lia. Qed.

Lemma getitem_in_range {A : Type} (l : list A) (i : Z) :
  0 <= i < len l ->
  exists a, nth_error l (Z.to_nat i) = Some a /\ getitem l i = Ok a.
Proof.
  intros Hi. unfold getitem.
  destruct (i <? 0) eqn:Hneg; [apply Z.ltb_lt in Hneg; lia|].
  rewrite Hneg. simpl.
  destruct (len l <=? i) eqn:Hhi; [apply Z.leb_le in Hhi; lia|].
  destruct (nth_error l (Z.to_nat i)) as [a|] eqn:Hnth.
  - exists a; split; reflexivity.
  - apply nth_error_None in Hnth. unfold len in Hi. lia.
Qed.

Lemma getitem_at_len {A : Type} (l : list A) :
  getitem l (len l) = Raise IndexError.
Proof.
  unfold getitem. pose proof (len_nonneg l) as Hl.
  destruct (len l <? 0) eqn:Hneg; [apply Z.ltb_lt in Hneg; lia|].
  rewrite Hneg. simpl. rewrite Z.leb_refl. reflexivity.
Qed.

Lemma getitem_out_of_range {A : Type} (l : list A) (i : Z) :
  i < - len l \/ len l <= i -> getitem l i = Raise IndexError.
Proof.
  intros Hi. unfold getitem. pose proof (len_nonneg l) as Hl.
  destruct (Z.ltb_spec i 0) as [Hneg|Hneg].
  - destruct (Z.ltb_spec (i + len l) 0) as [H1|H1]; [reflexivity|lia].
  - destruct (Z.ltb_spec i 0) as [H0|H0]; [lia|]. simpl.
    destruct (Z.leb_spec (len l) i) as [H1|H1]; [reflexivity|lia].
Qed.

Lemma getitem_negative {A : Type} (l : list A) (i : Z) :
  - len l <= i < 0 -> getitem l i = getitem l (i + len l).
Proof.
  intros Hi.
  assert (E1 : (i <? 0) = true) by (apply Z.ltb_lt; lia).
  assert (E2 : (i + len l <? 0) = false) by (apply Z.ltb_ge; lia).
  unfold getitem. rewrite E1. cbv zeta. rewrite E2. cbv iota. rewrite E2.
  reflexivity.
Qed.

Lemma nth_error_last {A : Type} (l : list A) (d : A) :
  l <> [] -> nth_error l (List.length l - 1) = Some (last l d).
Proof.
  induction l as [|a l IH]; intros Hne; [congruence|].
  destruct l as [|b l].
  - reflexivity.
  - simpl List.length. replace (S (S (List.length l)) - 1)%nat with (S (List.length l)) by lia.
    change (nth_error (a :: b :: l) (S (List.length l)))
      with (nth_error (b :: l) (List.length l)).
    change (last (a :: b :: l) d) with (last (b :: l) d).
    rewrite <- IH by congruence. simpl List.length.
    f_equal. lia.
Qed.


(** ** Lists without repeats *)

Lemma NoDup_map_eq {A B : Type} (f : A -> B) (l : list A) (x y : A) :
  NoDup (map f l) -> In x l -> In y l -> f x = f y -> x = y.
Proof.
  induction l as [|a l IH]; simpl; intros Hnd Hx Hy Hf; [destruct Hx|].
  inversion Hnd as [|? ? Hnotin Hnd']; subst.
  destruct Hx as [Ex|Hx], Hy as [Ey|Hy]; subst.
  - reflexivity.
  - exfalso. apply Hnotin. rewrite Hf. apply in_map. assumption.
  - exfalso. apply Hnotin. rewrite <- Hf. apply in_map. assumption.
  - apply IH; assumption.
Qed.

(** ** Comprehensions *)

Lemma mapM_cons {A B : Type} (f : A -> result B) (x : A) (l : list A) :
  mapM f (x :: l) = bind (f x) (fun y => bind (mapM f l) (fun ys => Ok (y :: ys))).
Proof. reflexivity. Qed.

Lemma mapM_ok {A B : Type} (f : A -> result B) (l : list A) (ys : list B) :
  mapM f l = Ok ys -> Forall2 (fun x y => f x = Ok y) l ys.
Proof.
  revert ys. induction l as [|x l IH]; simpl; intros ys H.
  - inversion H. constructor.
  - destruct (f x) as [y|e] eqn:Hx; simpl in H; [|discriminate].
    destruct (mapM f l) as [ys'|e] eqn:Hl; simpl in H; [|discriminate].
    inversion H; subst. constructor; [assumption|]. apply IH. reflexivity.
Qed.

Lemma mapM_total {A B : Type} (f : A -> result B) (l : list A) :
  (forall x, In x l -> exists y, f x = Ok y) -> exists ys, mapM f l = Ok ys.
Proof.
  induction l as [|x l IH]; intros H; simpl.
  - eexists; reflexivity.
  - destruct (H x (or_introl eq_refl)) as [y Hy]. rewrite Hy. simpl.
    destruct IH as [ys Hys]; [intros; apply H; right; assumption|].
    rewrite Hys. simpl. eexists; reflexivity.
Qed.

Lemma mapM_raises {A B : Type} (f : A -> result B) (l : list A) (e : exn) :
  (forall x, In x l -> f x = Raise e \/ exists y, f x = Ok y) ->
  (exists x, In x l /\ f x = Raise e) ->
  mapM f l = Raise e.
Proof.
  induction l as [|x l IH]; intros Hall [x0 [Hin Hx0]]; [destruct Hin|].
  simpl. destruct (Hall x (or_introl eq_refl)) as [Hx|[y Hy]].
  - rewrite Hx. reflexivity.
  - rewrite Hy. simpl. rewrite IH; [reflexivity| |].
    + intros; apply Hall; right; assumption.
    + destruct Hin as [E|Hin]; [subst; congruence|]. exists x0; split; assumption.
Qed.

Lemma mapM_raise_inv {A B : Type} (f : A -> result B) (l : list A) (e : exn) :
  mapM f l = Raise e -> exists x, In x l /\ f x = Raise e.
Proof.
  induction l as [|x l IH]; intros H; [discriminate|].
  rewrite mapM_cons in H. destruct (f x) as [y|e'] eqn:E; simpl in H.
  - destruct (mapM f l) as [ys|e'']; [discriminate|].
    simpl in H. inversion H; subst.
    destruct (IH eq_refl) as (x' & Hin & Hx'). exists x'. simpl. tauto.
  - inversion H; subst. exists x. simpl. tauto.
Qed.

Lemma mapM_pure {A B : Type} (g : A -> B) (l : list A) :
  mapM (fun x => Ok (g x)) l = Ok (map g l).
Proof.
  induction l as [|x l IH]; [reflexivity|].
  rewrite mapM_cons, IH. reflexivity.
Qed.

Lemma combine_map_r {A B : Type} (g : A -> B) (l : list A) :
  combine l (map g l) = map (fun x => (x, g x)) l.
Proof. induction l as [|x l IH]; [reflexivity|]. simpl. rewrite IH. reflexivity. Qed.

Lemma map_snd_combine {A B : Type} (l : list A) (l' : list B) :
  List.length l = List.length l' -> map snd (combine l l') = l'.
Proof.
  revert l'. induction l as [|x l IH]; intros [|y l'] H; simpl in *; try discriminate.
  - reflexivity.
  - rewrite IH by lia. reflexivity.
Qed.

Lemma Forall2_length_eq {A B : Type} (R : A -> B -> Prop) (l : list A) (l' : list B) :
  Forall2 R l l' -> List.length l = List.length l'.
Proof. induction 1; simpl; congruence. Qed.

Lemma Forall2_combine {A B : Type} (R : A -> B -> Prop) (l : list A) (l' : list B) :
  Forall2 R l l' -> Forall (fun p => R (fst p) (snd p)) (combine l l').
Proof. induction 1; simpl; constructor; assumption. Qed.

(** ** Order of strings *)

Lemma string_compare_refl (s : string) : (s ?= s)%string = Eq.
Proof.
  induction s as [|c s IH]; simpl; [reflexivity|].
  unfold Ascii.compare. rewrite N.compare_refl. exact IH.
Qed.

Lemma string_compare_lt_trans (a : string) :
  forall b c, (a ?= b)%string = Lt -> (b ?= c)%string = Lt -> (a ?= c)%string = Lt.
Proof.
  induction a as [|x a IH]; intros [|y b] [|z c]; simpl; try discriminate; try reflexivity.
  unfold Ascii.compare.
  destruct (N.compare_spec (N_of_ascii x) (N_of_ascii y)) as [Exy|Lxy|Gxy];
    try discriminate;
    destruct (N.compare_spec (N_of_ascii y) (N_of_ascii z)) as [Eyz|Lyz|Gyz];
    try discriminate; intros H1 H2.
  - rewrite Exy, Eyz, N.compare_refl. exact (IH b c H1 H2).
  - rewrite Exy. apply N.compare_lt_iff in Lyz. rewrite Lyz. reflexivity.
  - rewrite <- Eyz. apply N.compare_lt_iff in Lxy. rewrite Lxy. reflexivity.
  - assert (L : (N_of_ascii x < N_of_ascii z)%N) by (eapply N.lt_trans; eassumption).
    apply N.compare_lt_iff in L. rewrite L. reflexivity.
Qed.

Lemma string_leb_trans (a b c : string) :
  String.leb a b = true -> String.leb b c = true -> String.leb a c = true.
Proof.
  unfold String.leb.
  destruct (a ?= b)%string eqn:Hab; try discriminate;
    destruct (b ?= c)%string eqn:Hbc; try discriminate; intros _ _.
  - apply String.compare_eq_iff in Hab, Hbc. subst. rewrite string_compare_refl. reflexivity.
  - apply String.compare_eq_iff in Hab. subst. rewrite Hbc. reflexivity.
  - apply String.compare_eq_iff in Hbc. subst. rewrite Hab. reflexivity.
  - rewrite (string_compare_lt_trans a b c Hab Hbc). reflexivity.
Qed.

Lemma string_leb_total (a b : string) : String.leb a b = false -> String.leb b a = true.
Proof.
  unfold String.leb. rewrite (String.compare_antisym b a).
  destruct (String.compare a b); simpl; congruence.
Qed.


(** ** Subscripts into the label list *)

(** ** Legacy label indices *)

Lemma getitem_entry (labels : list string) (x : Z) :
  - len labels <= x < len labels -> getitem labels x = Ok (entry labels x).
Proof.
  intros Hx. unfold entry.
  destruct (Z.ltb_spec x 0) as [Hneg|Hpos].
  - rewrite getitem_negative by lia.
    destruct (getitem_in_range labels (x + len labels) ltac:(lia)) as (a & Hnth & Hget).
    rewrite Hget. f_equal. symmetry.
    replace (len labels + x) with (x + len labels) by lia.
    apply nth_error_nth. assumption.
  - destruct (getitem_in_range labels x ltac:(lia)) as (a & Hnth & Hget).
    rewrite Hget. f_equal. symmetry. apply nth_error_nth. assumption.
Qed.

Lemma resolve_in_range (labels : list string) (cells : list Z) :
  Forall (fun x => - len labels <= x < len labels) cells ->
  resolve_labels labels (IntColumn cells) =
    Ok (map (fun x => Some (entry labels x)) cells).
Proof.
  intros Hall. simpl. induction Hall as [|x cells Hx _ IH]; [reflexivity|].
  simpl. rewrite (getitem_entry labels x Hx). simpl. rewrite IH. reflexivity.
Qed.

Lemma resolve_out_of_range (labels : list string) (cells : list Z) :
  Exists (fun x => x < - len labels \/ len labels <= x) cells ->
  resolve_labels labels (IntColumn cells) = Raise IndexError.
Proof.
  intros Hex. simpl. apply mapM_raises.
  - intros x _.
    destruct (Z.lt_ge_cases x (- len labels)) as [H1|H1].
    + left. rewrite getitem_out_of_range by lia. reflexivity.
    + destruct (Z.lt_ge_cases x (len labels)) as [H2|H2].
      * right. rewrite (getitem_entry labels x) by lia. eexists; reflexivity.
      * left. rewrite getitem_out_of_range by lia. reflexivity.
  - apply Exists_exists in Hex. destruct Hex as [x [Hin Hx]].
    exists x. split; [assumption|]. rewrite getitem_out_of_range by assumption.
    reflexivity.
Qed.


(** ** Saved data *)

Lemma in_labelled_rows (self : annotator) (ctx : context_cells) (r : row) (x : string) :
  In (r, x) (labelled_rows self ctx) <->
  In r (rows self) /\ active_label self ctx r = Some x.
Proof.
  unfold labelled_rows. rewrite in_flat_map. split.
  - intros (r' & Hin & H).
    destruct (active_label self ctx r') eqn:E; simpl in H; [|contradiction].
    destruct H as [H|[]]. inversion H; subst. split; assumption.
  - intros [Hin E]. exists r. split; [assumption|]. rewrite E. left. reflexivity.
Qed.

(** *** The sort key *)

Lemma has_hash_cons (c : ascii) (rest : string) :
  has_hash (String c rest) <-> c = "#"%char \/ has_hash rest.
Proof. unfold has_hash. simpl. tauto. Qed.

Lemma has_hash_dec (x : string) : {has_hash x} + {~ has_hash x}.
Proof. apply in_dec, ascii_dec. Qed.

Lemma split_on_nonempty (sep : ascii) (x : string) : split_on sep x <> [].
Proof.
  destruct x as [|c rest]; simpl; [discriminate|].
  destruct (Ascii.eqb c sep); [discriminate|].
  destruct (split_on sep rest); discriminate.
Qed.

Lemma split_on_single (x : string) : ~ has_hash x -> split_on "#" x = [x].
Proof.
  induction x as [|c rest IH]; intros H; [reflexivity|].
  rewrite has_hash_cons in H. simpl.
  destruct (Ascii.eqb_spec c "#"); [tauto|].
  rewrite IH by tauto. reflexivity.
Qed.

Lemma split_on_two (x : string) :
  has_hash x -> exists a b rest, split_on "#" x = a :: b :: rest.
Proof.
  induction x as [|c x IH]; intros H; [destruct H|].
  rewrite has_hash_cons in H. simpl.
  destruct (Ascii.eqb_spec c "#") as [E|N].
  - destruct (split_on "#" x) as [|b rest] eqn:Es.
    + exfalso. exact (split_on_nonempty _ _ Es).
    + exists EmptyString, b, rest. reflexivity.
  - destruct H as [H|H]; [contradiction|].
    destruct (IH H) as (a & b & rest & Es). rewrite Es.
    exists (String c a), b, rest. reflexivity.
Qed.

Lemma sort_value_ok (x : string) : has_hash x -> exists v, sort_value x = Ok v.
Proof.
  intros H. destruct (split_on_two x H) as (a & b & rest & Es).
  unfold sort_value. rewrite Es.
  destruct (getitem_in_range (a :: b :: rest) 1) as (s1 & _ & G1).
  { unfold len. simpl List.length. lia. }
  destruct (getitem_in_range (a :: b :: rest) 0) as (s0 & _ & G0).
  { unfold len. simpl List.length. lia. }
  rewrite G1, G0. simpl. eexists. reflexivity.
Qed.

Lemma sort_value_raises (x : string) : ~ has_hash x -> sort_value x = Raise IndexError.
Proof.
  intros H. unfold sort_value. rewrite (split_on_single x H).
  rewrite getitem_out_of_range; [reflexivity|]. right. unfold len. simpl. lia.
Qed.

Lemma sort_value_cases (x : string) :
  (has_hash x /\ exists v, sort_value x = Ok v)
  \/ (~ has_hash x /\ sort_value x = Raise IndexError).
Proof.
  destruct (has_hash_dec x) as [H|H].
  - left. split; [assumption|apply sort_value_ok; assumption].
  - right. split; [assumption|apply sort_value_raises; assumption].
Qed.

(** *** Sorting by the key *)

Lemma insert_by_value_perm {A : Type} (x : string * A) (l : list (string * A)) :
  Permutation (insert_by_value x l) (x :: l).
Proof.
  induction l as [|y l IH]; simpl; [reflexivity|].
  destruct (String.leb (fst x) (fst y)); [reflexivity|].
  rewrite IH. apply perm_swap.
Qed.

Lemma sort_by_value_perm {A : Type} (l : list (string * A)) :
  Permutation (sort_by_value l) l.
Proof.
  induction l as [|x l IH]; simpl; [reflexivity|].
  rewrite insert_by_value_perm. constructor. exact IH.
Qed.

Lemma insert_by_value_sorted {A : Type} (x : string * A) (l : list (string * A)) :
  StronglySorted (fun a b => String.leb (fst a) (fst b) = true) l ->
  StronglySorted (fun a b => String.leb (fst a) (fst b) = true) (insert_by_value x l).
Proof.
  induction l as [|y l IH]; intros Hs; simpl.
  - constructor; constructor.
  - inversion Hs as [|? ? Hl Hy]; subst.
    destruct (String.leb (fst x) (fst y)) eqn:E.
    + constructor; [assumption|]. constructor; [assumption|].
      eapply Forall_impl; [|exact Hy]. intros z Hz.
      exact (string_leb_trans _ _ _ E Hz).
    + constructor; [exact (IH Hl)|].
      apply (Permutation_Forall (Permutation_sym (insert_by_value_perm x l))).
      constructor; [exact (string_leb_total _ _ E)|assumption].
Qed.

Lemma sort_by_value_sorted {A : Type} (l : list (string * A)) :
  StronglySorted (fun a b => String.leb (fst a) (fst b) = true) (sort_by_value l).
Proof.
  induction l as [|x l IH]; simpl; [constructor|].
  apply insert_by_value_sorted. exact IH.
Qed.

Lemma StronglySorted_map {A B : Type} (R : A -> A -> Prop) (R' : B -> B -> Prop)
    (P : A -> Prop) (f : A -> B) (l : list A) :
  (forall a b, P a -> P b -> R a b -> R' (f a) (f b)) ->
  Forall P l -> StronglySorted R l -> StronglySorted R' (map f l).
Proof.
  intros HR. induction l as [|a l IH]; intros HP Hs; simpl; [constructor|].
  inversion HP as [|? ? Pa Pl]; subst. inversion Hs as [|? ? Hl Ha]; subst.
  constructor; [exact (IH Pl Hl)|].
  rewrite Forall_map. rewrite Forall_forall in *. intros b Hb.
  apply HR; [assumption|exact (Pl b Hb)|exact (Ha b Hb)].
Qed.

(** *** The frame that is returned *)

Lemma get_labelled_data_unsorted (self : annotator) (ctx : context_cells)
    (labels : list string) (include_paths : bool) :
  get_labelled_data self ctx labels false false include_paths =
    Ok (labelled_frame self ctx include_paths).
Proof.
  unfold get_labelled_data, labelled_frame.
  rewrite (mapM_pure (fun rx : row * string => LabelText (snd rx))). cbn [bind negb].
  rewrite combine_map_r, map_map. reflexivity.
Qed.

Lemma get_labelled_data_sort (self : annotator) (ctx : context_cells)
    (labels : list string) (include_paths : bool) :
  get_labelled_data self ctx labels true false include_paths =
    bind (mapM (fun s => sort_value (saved_key s)) (labelled_frame self ctx include_paths))
      (fun values =>
         Ok (map snd (sort_by_value
                        (combine values (labelled_frame self ctx include_paths))))).
Proof.
  unfold get_labelled_data, labelled_frame.
  rewrite (mapM_pure (fun rx : row * string => LabelText (snd rx))). cbn [bind negb].
  rewrite combine_map_r, map_map. reflexivity.
Qed.

Lemma in_labelled_frame (self : annotator) (ctx : context_cells) (inc : bool)
    (s : saved_row) :
  In s (labelled_frame self ctx inc) ->
  exists r x, In r (rows self) /\ active_label self ctx r = Some x
              /\ saved_key s = row_key r.
Proof.
  unfold labelled_frame. rewrite in_map_iff. intros ([r x] & Es & Hin).
  apply in_labelled_rows in Hin. exists r, x. subst s. simpl. tauto.
Qed.

(** Saving succeeds when every row that has a label has a [#] in its index
    label. *)
Lemma get_labelled_data_total (self : annotator) (ctx : context_cells)
    (labels : list string) (inc : bool) :
  (forall r, In r (rows self) -> active_label self ctx r <> None -> has_hash (row_key r)) ->
  exists saved, get_labelled_data self ctx labels true false inc = Ok saved.
Proof.
  intros H. rewrite get_labelled_data_sort.
  destruct (mapM_total (fun s => sort_value (saved_key s)) (labelled_frame self ctx inc))
    as [values Hv].
  - intros s Hs. destruct (in_labelled_frame _ _ _ _ Hs) as (r & x & Hr & Hx & Hk).
    rewrite Hk. apply sort_value_ok. apply H; [assumption|congruence].
  - rewrite Hv. simpl. eexists. reflexivity.
Qed.

Lemma get_labelled_data_no_hash (self : annotator) (ctx : context_cells)
    (labels : list string) (inc : bool) (r : row) :
  In r (rows self) -> active_label self ctx r <> None -> ~ has_hash (row_key r) ->
  get_labelled_data self ctx labels true false inc = Raise IndexError.
Proof.
  intros Hr Hx Hh. rewrite get_labelled_data_sort.
  rewrite (mapM_raises (fun s => sort_value (saved_key s)) _ IndexError); [reflexivity| |].
  - intros s _. destruct (sort_value_cases (saved_key s)) as [[_ [v E]]|[_ E]];
      [right; exists v; exact E|left; exact E].
  - destruct (active_label self ctx r) as [x|] eqn:E; [|congruence].
    exists (mk_saved_row (row_key r) (if inc then Some (image_path r) else None) (LabelText x)).
    split.
    + unfold labelled_frame. apply in_map_iff. exists (r, x). split; [reflexivity|].
      apply in_labelled_rows. split; assumption.
    + simpl. apply sort_value_raises. exact Hh.
Qed.

(** X4.  With [sort=True], the default and what [_auto_save] asks for, the frame
    [get_labelled_data] returns holds exactly the rows that have a label,
    each once with its index label, path and label, in ascending order of
    the sort key. *)
Theorem saved_data_sorted (self : annotator) (ctx : context_cells)
    (labels : list string) (include_paths : bool) (saved : list saved_row) :
  get_labelled_data self ctx labels true false include_paths = Ok saved ->
  Permutation saved (labelled_frame self ctx include_paths)
  /\ StronglySorted by_sort_value saved.
Proof.
  rewrite get_labelled_data_sort. intros H.
  destruct (mapM (fun s => sort_value (saved_key s))
              (labelled_frame self ctx include_paths)) as [values|e] eqn:Ev;
    [|discriminate].
  simpl in H. inversion H; subst saved; clear H.
  apply mapM_ok in Ev.
  pose proof (Forall2_length_eq _ _ _ Ev) as Hlen.
  pose proof (sort_by_value_perm (combine values (labelled_frame self ctx include_paths)))
    as Hperm.
  split.
  - rewrite Hperm. rewrite map_snd_combine by (symmetry; exact Hlen). reflexivity.
  - apply (StronglySorted_map
             (fun a b : string * saved_row => String.leb (fst a) (fst b) = true)
             by_sort_value
             (fun p => sort_value (saved_key (snd p)) = Ok (fst p))).
    + intros a b Ha Hb Hab. exists (fst a), (fst b). repeat split; assumption.
    + apply (Permutation_Forall (Permutation_sym Hperm)).
      clear Hperm Hlen. induction Ev; simpl; constructor; assumption.
    + apply sort_by_value_sorted.
Qed.

Lemma saved_data_sorted_witness :
  Permutation
    [mk_saved_row "patch-0-0-#map_a.png#.png"
       (Some "patches/patch-0-0-#map_a.png#.png") (LabelText "road");
     mk_saved_row "patch-10-0-#map_b.png#.png"
       (Some "patches/patch-10-0-#map_b.png#.png") (LabelText "rail")]
    (labelled_frame (patch_demo 0 true) [] true)
  /\ StronglySorted by_sort_value
       [mk_saved_row "patch-0-0-#map_a.png#.png"
          (Some "patches/patch-0-0-#map_a.png#.png") (LabelText "road");
        mk_saved_row "patch-10-0-#map_b.png#.png"
          (Some "patches/patch-10-0-#map_b.png#.png") (LabelText "rail")].
Proof.
  apply (saved_data_sorted (patch_demo 0 true) [] ["rail"; "road"] true).
  reflexivity.
Defined.

(** X5.  [get_labelled_data(sort=True)] raises [IndexError] exactly when some row
    that has a label has no [#] in its index label; rows without a label do
    no harm whatever their index label is. *)
Theorem saved_data_needs_hash (self : annotator) (ctx : context_cells)
    (labels : list string) (include_paths : bool) :
  get_labelled_data self ctx labels true false include_paths = Raise IndexError
  <-> exists r, In r (rows self) /\ active_label self ctx r <> None
                /\ ~ has_hash (row_key r).
Proof.
  split.
  - intros H.
    assert (D : forall l : list row,
               (exists r, In r l /\ active_label self ctx r <> None
                          /\ ~ has_hash (row_key r))
               \/ (forall r, In r l -> active_label self ctx r <> None ->
                             has_hash (row_key r))).
    { induction l as [|r l IH]; [right; intros r []|].
      destruct IH as [(r' & Hin & Hr')|IH]; [left; exists r'; simpl; tauto|].
      destruct (active_label self ctx r) as [x|] eqn:E.
      - destruct (has_hash_dec (row_key r)) as [Hh|Hh].
        + right. intros r' [<-|Hin] Hx; [assumption|exact (IH r' Hin Hx)].
        + left. exists r. simpl. rewrite E. split; [tauto|]. split; [discriminate|assumption].
      - right. intros r' [<-|Hin] Hx; [congruence|exact (IH r' Hin Hx)]. }
    destruct (D (rows self)) as [Hex|Hall]; [exact Hex|].
    destruct (get_labelled_data_total self ctx labels include_paths Hall) as [saved Hs].
    congruence.
  - intros (r & Hr & Hx & Hh).
    exact (get_labelled_data_no_hash self ctx labels include_paths r Hr Hx Hh).
Qed.

(** *** Label indices *)

Lemma index_of_ok (x : string) (labels : list string) (i : Z) :
  index_of x labels = Ok i -> 0 <= i < len labels /\ entry labels i = x.
Proof.
  revert i. induction labels as [|y rest IH]; intros i H; simpl in H; [discriminate|].
  destruct (String.eqb_spec x y) as [E|N].
  - inversion H; subst. split; [unfold len; simpl List.length; lia|reflexivity].
  - destruct (index_of x rest) as [j|e]; [|discriminate].
    simpl in H. inversion H; subst i; clear H.
    destruct (IH j eq_refl) as [Hj Hx]. split.
    + unfold len in *. simpl List.length. lia.
    + unfold entry in *. destruct (Z.ltb_spec (j + 1) 0); [lia|].
      destruct (Z.ltb_spec j 0); [lia|].
      replace (Z.to_nat (j + 1)) with (S (Z.to_nat j)) by lia. exact Hx.
Qed.

Lemma index_of_cases (x : string) (labels : list string) :
  (In x labels /\ exists i, index_of x labels = Ok i)
  \/ (~ In x labels /\ index_of x labels = Raise ValueError).
Proof.
  induction labels as [|y rest IH]; simpl; [right; tauto|].
  destruct (String.eqb_spec x y) as [E|N].
  - left. split; [left; congruence|eexists; reflexivity].
  - destruct IH as [[Hin [i Hi]]|[Hin Hr]].
    + left. rewrite Hi. simpl. split; [tauto|eexists; reflexivity].
    + right. rewrite Hr. simpl. split; [|reflexivity]. intros [E|H]; [congruence|tauto].
Qed.

Lemma mapM_sort_value_error (frame : list saved_row) (e : exn) :
  mapM (fun s => sort_value (saved_key s)) frame = Raise e -> e = IndexError.
Proof.
  induction frame as [|s frame IH]; intros H; [discriminate|].
  rewrite mapM_cons in H.
  destruct (sort_value_cases (saved_key s)) as [[_ [v E]]|[_ E]]; rewrite E in H; simpl in H.
  - destruct (mapM (fun s => sort_value (saved_key s)) frame); [discriminate|].
    simpl in H. inversion H; subst. apply IH. reflexivity.
  - congruence.
Qed.

(** The frame holding label indices, before it is sorted. *)
Lemma get_labelled_data_indices (self : annotator) (ctx : context_cells)
    (labels : list string) (sort inc : bool) (saved : list saved_row) :
  get_labelled_data self ctx labels sort true inc = Ok saved ->
  exists frame,
    Permutation saved frame
    /\ map (decoded labels) frame =
       map (fun rx => (row_key (fst rx), snd rx)) (labelled_rows self ctx)
    /\ Forall (fun s => exists i, saved_cell s = LabelIndex i /\ 0 <= i < len labels) frame.
Proof.
  unfold get_labelled_data. intros H.
  destruct (mapM (fun rx : row * string => i <- index_of (snd rx) labels ;; Ok (LabelIndex i))
              (labelled_rows self ctx)) as [cells|e] eqn:Ec; [|discriminate].
  cbn [bind] in H. apply mapM_ok in Ec.
  set (frame := map (fun rc : row * string * label_cell =>
                       mk_saved_row (row_key (fst (fst rc)))
                         (if inc then Some (image_path (fst (fst rc))) else None) (snd rc))
                    (combine (labelled_rows self ctx) cells)) in *.
  exists frame. split; [|split].
  - destruct sort; cbn [negb] in H.
    + destruct (mapM (fun s => sort_value (saved_key s)) frame) as [values|e] eqn:Ev;
        [|discriminate].
      simpl in H. inversion H; subst saved.
      rewrite (sort_by_value_perm (combine values frame)).
      rewrite map_snd_combine; [reflexivity|].
      symmetry. exact (Forall2_length_eq _ _ _ (mapM_ok _ _ _ Ev)).
    + inversion H. reflexivity.
  - subst frame. clear H. induction Ec as [|rx c l cs Hc Hl IH]; [reflexivity|].
    simpl. rewrite IH. f_equal. unfold decoded. simpl.
    destruct (index_of (snd rx) labels) as [i|e] eqn:Ei; [|discriminate].
    simpl in Hc. inversion Hc; subst c.
    rewrite (proj2 (index_of_ok _ _ _ Ei)). reflexivity.
  - subst frame. clear H. induction Ec as [|rx c l cs Hc Hl IH]; simpl; constructor.
    + destruct (index_of (snd rx) labels) as [i|e] eqn:Ei; [|discriminate].
      simpl in Hc. inversion Hc; subst c. exists i. simpl.
      split; [reflexivity|exact (proj1 (index_of_ok _ _ _ Ei))].
    + exact IH.
Qed.

(** X6.  With [index_labels=True] every label is written as its position in the
    label list.  Read back the way the constructor reads an integer label
    column, [labels[x]], the positions give for every saved index label the
    label the row had. *)
Theorem index_labels_round_trip (self : annotator) (ctx : context_cells)
    (labels : list string) (sort include_paths : bool) (saved : list saved_row) :
  get_labelled_data self ctx labels sort true include_paths = Ok saved ->
  exists texts,
    resolve_labels labels (IntColumn (map (fun s => cell_index (saved_cell s)) saved)) =
      Ok (map Some texts)
    /\ Permutation (combine (map saved_key saved) texts)
         (map (fun rx => (row_key (fst rx), snd rx)) (labelled_rows self ctx)).
Proof.
  intros H.
  destruct (get_labelled_data_indices self ctx labels sort include_paths saved H)
    as (frame & Hperm & Hdec & Hall).
  apply (Permutation_Forall (Permutation_sym Hperm)) in Hall.
  exists (map (fun s => snd (decoded labels s)) saved). split.
  - rewrite resolve_in_range.
    + rewrite !map_map. f_equal. apply map_ext_in. intros s Hs.
      rewrite Forall_forall in Hall. destruct (Hall s Hs) as (i & Ei & _).
      unfold decoded. rewrite Ei. reflexivity.
    + rewrite Forall_map. eapply Forall_impl; [|exact Hall].
      intros s (i & Ei & Hi). rewrite Ei. simpl. lia.
  - assert (E : forall l : list saved_row,
               combine (map saved_key l) (map (fun s => snd (decoded labels s)) l) =
               map (decoded labels) l).
    { induction l as [|s l IH]; [reflexivity|]. cbn [map combine]. rewrite IH. reflexivity. }
    rewrite E, <- Hdec. apply Permutation_map. exact Hperm.
Qed.

Lemma index_labels_round_trip_witness :
  exists texts,
    resolve_labels ["rail"; "road"]
      (IntColumn
         (map (fun s => cell_index (saved_cell s))
            [mk_saved_row "patch-0-0-#map_a.png#.png" None (LabelIndex 1);
             mk_saved_row "patch-10-0-#map_b.png#.png" None (LabelIndex 0)])) =
      Ok (map Some texts)
    /\ Permutation
         (combine
            (map saved_key
               [mk_saved_row "patch-0-0-#map_a.png#.png" None (LabelIndex 1);
                mk_saved_row "patch-10-0-#map_b.png#.png" None (LabelIndex 0)])
            texts)
         (map (fun rx => (row_key (fst rx), snd rx))
            (labelled_rows (patch_demo 0 true) [])).
Proof.
  apply (index_labels_round_trip (patch_demo 0 true) [] ["rail"; "road"] true false).
  reflexivity.
Defined.

(** X7.  [get_labelled_data(index_labels=True)] raises [ValueError] exactly when
    some row holds a label that is not in the label list, as a label merged
    in from a session file can be. *)
Theorem index_labels_unknown_label (self : annotator) (ctx : context_cells)
    (labels : list string) (sort include_paths : bool) :
  get_labelled_data self ctx labels sort true include_paths = Raise ValueError
  <-> exists r x, In r (rows self) /\ active_label self ctx r = Some x
                  /\ ~ In x labels.
Proof.
  unfold get_labelled_data.
  set (f := fun rx : row * string => i <- index_of (snd rx) labels ;; Ok (LabelIndex i)).
  assert (Hf : forall rx, (In (snd rx) labels /\ exists c, f rx = Ok c)
                          \/ (~ In (snd rx) labels /\ f rx = Raise ValueError)).
  { intros rx. unfold f.
    destruct (index_of_cases (snd rx) labels) as [[Hin [i Hi]]|[Hin Hr]].
    - left. rewrite Hi. split; [assumption|eexists; reflexivity].
    - right. rewrite Hr. tauto. }
  split.
  - intros H.
    destruct (mapM f (labelled_rows self ctx)) as [cells|e] eqn:Ec.
    + exfalso. cbn [bind] in H. destruct sort; cbn [negb] in H; [|discriminate].
      match type of H with
      | bind ?m _ = _ => destruct m as [values|e] eqn:Ev; [discriminate|]
      end.
      apply mapM_sort_value_error in Ev. simpl in H. congruence.
    + cbn [bind] in H. inversion H; subst e; clear H.
      destruct (mapM_raise_inv f _ _ Ec) as ([r x] & Hin & Hr).
      apply in_labelled_rows in Hin. exists r, x.
      destruct (Hf (r, x)) as [[_ [c Hc]]|[Hn _]]; [congruence|].
      simpl in Hn. tauto.
  - intros (r & x & Hr & Hx & Hn).
    rewrite (mapM_raises f _ ValueError); [reflexivity| |].
    + intros rx _. destruct (Hf rx) as [[_ Hc]|[_ Hc]]; [right|left]; exact Hc.
    + exists (r, x). split; [apply in_labelled_rows; tauto|].
      destruct (Hf (r, x)) as [[Hin _]|[_ Hc]]; [contradiction|exact Hc].
Qed.

(** *** Whether a save goes through *)

Lemma saveable_or_not (self : annotator) (ctx : context_cells) :
  saveable self ctx \/ unsaveable self ctx.
Proof.
  unfold saveable, unsaveable.
  induction (rows self) as [|r l IH]; [left; intros r []|].
  destruct IH as [IH|(r' & Hin & Hr')]; [|right; exists r'; simpl; tauto].
  destruct (active_label self ctx r) as [x|] eqn:E.
  - destruct (has_hash_dec (row_key r)) as [Hh|Hh].
    + left. intros r' [<-|Hin] Hx; [assumption|exact (IH r' Hin Hx)].
    + right. exists r. simpl. rewrite E. split; [tauto|]. split; [discriminate|assumption].
  - left. intros r' [<-|Hin] Hx; [congruence|exact (IH r' Hin Hx)].
Qed.

Lemma saveable_not_unsaveable (self : annotator) (ctx : context_cells) :
  saveable self ctx -> unsaveable self ctx -> False.
Proof. intros H (r & Hr & Hx & Hh). exact (Hh (H r Hr Hx)). Qed.

Lemma saveable_same (self self' : annotator) (ctx : context_cells) :
  rows self' = rows self -> _annotate_context self' = _annotate_context self ->
  saveable self ctx -> saveable self' ctx.
Proof.
  intros Hr Hm H r Hin Hx. rewrite Hr in Hin. apply (H r Hin).
  unfold active_label in *. rewrite Hm in Hx. exact Hx.
Qed.

Lemma unsaveable_same (self self' : annotator) (ctx : context_cells) :
  rows self' = rows self -> _annotate_context self' = _annotate_context self ->
  unsaveable self ctx -> unsaveable self' ctx.
Proof.
  intros Hr Hm (r & Hin & Hx & Hh). exists r. rewrite Hr. split; [assumption|].
  split; [|assumption]. unfold active_label in *. rewrite Hm. exact Hx.
Qed.

(** ** Queue engine: saving, completion and display *)



(** With a unique index, [self.at[ix, patch_paths_col]] is the path of the
    row whose index label is [ix]. *)
Lemma find_row_unique (table : list row) (ix : string) (r : row) :
  unique_index table -> row_at table ix r -> find_row table ix = Some r.
Proof.
  unfold unique_index, row_at, find_row. intros Hnd [Hin Hkey].
  destruct (find (fun r0 => String.eqb (row_key r0) ix) table) as [r'|] eqn:E.
  - apply find_some in E. destruct E as [Hin' Hk']. apply String.eqb_eq in Hk'.
    f_equal. apply (NoDup_map_eq row_key table); try assumption. congruence.
  - exfalso. pose proof (find_none _ _ E r Hin) as Hn. simpl in Hn.
    rewrite Hkey, String.eqb_refl in Hn. discriminate.
Qed.

Lemma at_image_path_unique (table : list row) (ix : string) (r : row) :
  unique_index table -> row_at table ix r ->
  at_image_path table ix = Ok (image_path r).
Proof.
  intros Hnd Hr. unfold at_image_path. rewrite (find_row_unique table ix r Hnd Hr).
  reflexivity.
Qed.

Section EngineFacts.

Variable env : setting.
Variable ctx : context_cells.

Lemma auto_save_succeeds (self : annotator) :
  saveable self ctx -> _auto_save env ctx self = (emit Saved self, Ok tt).
Proof.
  intros H. unfold _auto_save.
  destruct (get_labelled_data_total self ctx (_labels env) true H) as [saved Hs].
  rewrite Hs. reflexivity.
Qed.

Lemma auto_save_fails (self : annotator) :
  unsaveable self ctx -> _auto_save env ctx self = (self, Raise IndexError).
Proof.
  intros (r & Hr & Hx & Hh). unfold _auto_save.
  rewrite (get_labelled_data_no_hash self ctx (_labels env) true r Hr Hx Hh).
  reflexivity.
Qed.

(** [render_complete] when nothing is to be saved or the save goes
    through, and when the save raises. *)
Lemma render_complete_succeeds (self : annotator) :
  (auto_save self = true -> saveable self ctx) ->
  render_complete env ctx self =
    (set_buttons_disabled
       (if auto_save self then emit Saved (emit Complete self) else emit Complete self)
       true,
     Ok tt).
Proof.
  intros H. unfold render_complete.
  change (auto_save (emit Complete self)) with (auto_save self).
  destruct (auto_save self); [|reflexivity].
  rewrite auto_save_succeeds; [reflexivity|].
  exact (saveable_same self (emit Complete self) ctx eq_refl eq_refl (H eq_refl)).
Qed.

Lemma render_complete_fails (self : annotator) :
  auto_save self = true -> unsaveable self ctx ->
  render_complete env ctx self = (emit Complete self, Raise IndexError).
Proof.
  intros Hs Hu. unfold render_complete.
  change (auto_save (emit Complete self)) with (auto_save self). rewrite Hs.
  rewrite auto_save_fails; [reflexivity|].
  exact (unsaveable_same self (emit Complete self) ctx eq_refl eq_refl Hu).
Qed.

Lemma render_complete_cases (self : annotator) :
  render_complete env ctx self =
    (set_buttons_disabled
       (if auto_save self then emit Saved (emit Complete self) else emit Complete self)
       true,
     Ok tt)
  \/ render_complete env ctx self = (emit Complete self, Raise IndexError).
Proof.
  destruct (auto_save self) eqn:Hs.
  - destruct (saveable_or_not self ctx) as [H|H].
    + left. rewrite render_complete_succeeds by (intros _; exact H).
      rewrite Hs. reflexivity.
    + right. apply render_complete_fails; assumption.
  - left. rewrite render_complete_succeeds by (rewrite Hs; discriminate).
    rewrite Hs. reflexivity.
Qed.

(** Whatever its outcome, [render_complete] touches nothing but the output
    and the buttons, and what it adds to the output is the closing message
    and perhaps a save. *)
Lemma render_complete_fields (self : annotator) :
  rows (fst (render_complete env ctx self)) = rows self
  /\ _queue (fst (render_complete env ctx self)) = _queue self
  /\ current_index (fst (render_complete env ctx self)) = current_index self
  /\ previous_index (fst (render_complete env ctx self)) = previous_index self
  /\ auto_save (fst (render_complete env ctx self)) = auto_save self
  /\ _annotate_context (fst (render_complete env ctx self)) = _annotate_context self
  /\ surrounding (fst (render_complete env ctx self)) = surrounding self
  /\ exists events,
       out (fst (render_complete env ctx self)) = events ++ out self
       /\ In Complete events /\ Forall closing events.
Proof.
  destruct (render_complete_cases self) as [E|E]; rewrite E; cbn [fst].
  - destruct (auto_save self) eqn:Hs;
      do 7 (split; [first [reflexivity|exact Hs]|]).
    + exists [Saved; Complete]. split; [reflexivity|]. split; [simpl; tauto|].
      repeat constructor; unfold closing; tauto.
    + exists [Complete]. split; [reflexivity|]. split; [simpl; tauto|].
      repeat constructor; unfold closing; tauto.
  - do 7 (split; [reflexivity|]).
    exists [Complete]. split; [reflexivity|]. split; [simpl; tauto|].
    repeat constructor; unfold closing; tauto.
Qed.

(** [render] below the last row number of the table, once the row of the
    key under the cursor is found and its picture shown: the whole block
    when the table has a [url] column, and [KeyError] after the picture
    when it has none. *)
Lemma render_shows (self : annotator) (ix path : string) :
  current_index self < len (rows self) - 1 ->
  getitem (_queue self) (current_index self) = Ok ix ->
  at_image_path (rows self) ix = Ok path ->
  show_picture env self ix = Ok tt ->
  render env ctx self =
    if url_column env then (emit (Rendered ix) self, Ok tt)
    else (emit (Pictured ix) self, Raise KeyError).
Proof.
  intros Hlt Hget Hat Hshow. unfold render.
  destruct (Z.leb_spec (len (rows self) - 1) (current_index self)); [lia|].
  rewrite Hget, Hat, Hshow. reflexivity.
Qed.


Lemma render_at_last_row (self : annotator) :
  len (rows self) - 1 <= current_index self ->
  render env ctx self = render_complete env ctx self.
Proof.
  intros H. unfold render.
  destruct (Z.leb_spec (len (rows self) - 1) (current_index self)); [reflexivity|lia].
Qed.

Lemma render_fields (self : annotator) :
  rows (fst (render env ctx self)) = rows self
  /\ _queue (fst (render env ctx self)) = _queue self
  /\ current_index (fst (render env ctx self)) = current_index self
  /\ previous_index (fst (render env ctx self)) = previous_index self
  /\ auto_save (fst (render env ctx self)) = auto_save self
  /\ _annotate_context (fst (render env ctx self)) = _annotate_context self
  /\ surrounding (fst (render env ctx self)) = surrounding self.
Proof.
  unfold render.
  destruct (len (rows self) - 1 <=? current_index self).
  - destruct (render_complete_fields self) as (H1 & H2 & H3 & H4 & H5 & H6 & H7 & _).
    repeat split; assumption.
  - destruct (getitem (_queue self) (current_index self)); [|repeat split].
    destruct (at_image_path (rows self) a); [|repeat split].
    destruct (show_picture env self a); [|repeat split].
    destruct (url_column env); repeat split.
Qed.

(** [render] goes through when the subscript has a value, the row is in
    the table, the picture is shown, the table has a [url] column and a save
    at the last row number, if any, goes through. *)
Lemma render_succeeds (self : annotator) (ix path : string) :
  getitem (_queue self) (current_index self) = Ok ix ->
  at_image_path (rows self) ix = Ok path ->
  url_column env = true ->
  show_picture env self ix = Ok tt ->
  (len (rows self) - 1 <= current_index self ->
   auto_save self = true -> saveable self ctx) ->
  exists self',
    render env ctx self = (self', Ok tt)
    /\ rows self' = rows self
    /\ _queue self' = _queue self
    /\ current_index self' = current_index self
    /\ previous_index self' = previous_index self
    /\ (current_index self < len (rows self) - 1 ->
        self' = emit (Rendered ix) self).
Proof.
  intros Hget Hat Hurl Hshow Hsave.
  destruct (Z.lt_ge_cases (current_index self) (len (rows self) - 1)) as [Hc|Hc].
  - rewrite (render_shows self ix path Hc Hget Hat Hshow), Hurl.
    eexists. split; [reflexivity|]. repeat split.
  - rewrite (render_at_last_row self ltac:(lia)),
      (render_complete_succeeds self (Hsave ltac:(lia))).
    eexists. split; [reflexivity|].
    destruct (auto_save self); repeat split; intros; lia.
Qed.

(** ** Queue engine: navigation *)

(** Neither navigation method touches the table, the queue or the mode,
    whatever its outcome. *)
Lemma next_example_fields (self : annotator) :
  rows (fst (_next_example env ctx self)) = rows self
  /\ _queue (fst (_next_example env ctx self)) = _queue self
  /\ auto_save (fst (_next_example env ctx self)) = auto_save self
  /\ _annotate_context (fst (_next_example env ctx self)) = _annotate_context self
  /\ surrounding (fst (_next_example env ctx self)) = surrounding self.
Proof.
  unfold _next_example.
  destruct (current_index self =? len (_queue self)).
  - destruct (render_complete_fields self) as (H1 & H2 & _ & _ & H5 & H6 & H7 & _).
    destruct (render_complete env ctx self) as [s [u|e]]; cbn [fst] in *;
      repeat split; assumption.
  - set (s1 := set_indices self (current_index self) (current_index self + 1)).
    destruct (getitem (_queue s1) (current_index s1)); [|repeat split].
    destruct (at_image_path (rows s1) a); [|repeat split].
    pose proof (render_fields s1) as (H1 & H2 & _ & _ & H5 & H6 & H7).
    destruct (render env ctx s1) as [s2 [u|e]]; cbn [fst] in *; repeat split; assumption.
Qed.

Lemma prev_example_fields (self : annotator) :
  rows (fst (_prev_example env ctx self)) = rows self
  /\ _queue (fst (_prev_example env ctx self)) = _queue self
  /\ auto_save (fst (_prev_example env ctx self)) = auto_save self
  /\ _annotate_context (fst (_prev_example env ctx self)) = _annotate_context self
  /\ surrounding (fst (_prev_example env ctx self)) = surrounding self.
Proof.
  unfold _prev_example.
  destruct (current_index self =? len (_queue self)).
  - destruct (render_complete_fields self) as (H1 & H2 & _ & _ & H5 & H6 & H7 & _).
    destruct (render_complete env ctx self) as [s [u|e]]; cbn [fst] in *;
      repeat split; assumption.
  - set (s1 := if 0 <? current_index self
               then set_indices self (current_index self) (current_index self - 1)
               else self).
    assert (E : rows s1 = rows self /\ _queue s1 = _queue self
                /\ auto_save s1 = auto_save self
                /\ _annotate_context s1 = _annotate_context self
                /\ surrounding s1 = surrounding self).
    { subst s1. destruct (0 <? current_index self); repeat split. }
    destruct E as (E1 & E2 & E3 & E4 & E5).
    destruct (getitem (_queue s1) (current_index s1)); [|repeat split; assumption].
    destruct (at_image_path (rows s1) a); [|repeat split; assumption].
    pose proof (render_fields s1) as (H1 & H2 & _ & _ & H5 & H6 & H7).
    destruct (render env ctx s1) as [s2 [u|e]]; cbn [fst] in *;
      repeat split; congruence.
Qed.

(** The cursor after a call, whatever the outcome. *)
Lemma next_example_cursor (self : annotator) :
  current_index self <> len (_queue self) ->
  current_index (fst (_next_example env ctx self)) = current_index self + 1
  /\ previous_index (fst (_next_example env ctx self)) = current_index self.
Proof.
  intros Hne. unfold _next_example.
  destruct (Z.eqb_spec (current_index self) (len (_queue self))); [contradiction|].
  set (s1 := set_indices self (current_index self) (current_index self + 1)).
  destruct (getitem (_queue s1) (current_index s1)); [|split; reflexivity].
  destruct (at_image_path (rows s1) a); [|split; reflexivity].
  pose proof (render_fields s1) as (_ & _ & H3 & H4 & _).
  destruct (render env ctx s1) as [s2 [u|e]]; cbn [fst] in *; split; assumption.
Qed.

Lemma next_example_cursor_end (self : annotator) :
  current_index self = len (_queue self) ->
  current_index (fst (_next_example env ctx self)) = current_index self
  /\ previous_index (fst (_next_example env ctx self)) = previous_index self.
Proof.
  intros E. unfold _next_example. rewrite E, Z.eqb_refl.
  destruct (render_complete_fields self) as (_ & _ & H3 & H4 & _).
  destruct (render_complete env ctx self) as [s [u|e]]; cbn [fst] in *;
    rewrite <- E; split; assumption.
Qed.

Lemma prev_example_cursor (self : annotator) :
  current_index (fst (_prev_example env ctx self)) =
    (if (current_index self =? len (_queue self)) || negb (0 <? current_index self)
     then current_index self
     else current_index self - 1)
  /\ previous_index (fst (_prev_example env ctx self)) =
     (if (current_index self =? len (_queue self)) || negb (0 <? current_index self)
      then previous_index self
      else current_index self).
Proof.
  unfold _prev_example.
  destruct (current_index self =? len (_queue self)).
  - destruct (render_complete_fields self) as (_ & _ & H3 & H4 & _).
    destruct (render_complete env ctx self) as [s [u|e]]; cbn [fst orb] in *;
      split; assumption.
  - cbn [orb].
    set (s1 := if 0 <? current_index self
               then set_indices self (current_index self) (current_index self - 1)
               else self).
    assert (E : current_index s1 =
                (if negb (0 <? current_index self) then current_index self
                 else current_index self - 1)
                /\ previous_index s1 =
                   (if negb (0 <? current_index self) then previous_index self
                    else current_index self)).
    { subst s1. destruct (0 <? current_index self); split; reflexivity. }
    destruct E as [E1 E2].
    destruct (getitem (_queue s1) (current_index s1)); [|split; assumption].
    destruct (at_image_path (rows s1) a); [|split; assumption].
    pose proof (render_fields s1) as (_ & _ & H3 & H4 & _).
    destruct (render env ctx s1) as [s2 [u|e]]; cbn [fst] in *; split; congruence.
Qed.

(** A step of [_next_example] that stays inside the queue and whose display
    goes through. *)
Lemma next_example_step (self : annotator) (ix path : string) :
  current_index self <> len (_queue self) ->
  getitem (_queue self) (current_index self + 1) = Ok ix ->
  at_image_path (rows self) ix = Ok path ->
  url_column env = true ->
  show_picture env (set_indices self (current_index self) (current_index self + 1)) ix =
    Ok tt ->
  (len (rows self) - 1 <= current_index self + 1 ->
   auto_save self = true -> saveable self ctx) ->
  exists self',
    _next_example env ctx self =
      (self', Ok (Some (current_index self, current_index self + 1, path)))
    /\ rows self' = rows self
    /\ _queue self' = _queue self
    /\ current_index self' = current_index self + 1
    /\ previous_index self' = current_index self
    /\ (current_index self + 1 < len (rows self) - 1 ->
        self' = emit (Rendered ix)
                  (set_indices self (current_index self) (current_index self + 1))).
Proof.
  intros Hne Hget Hat Hurl Hshow Hsave. unfold _next_example.
  destruct (Z.eqb_spec (current_index self) (len (_queue self))) as [E|_];
    [contradiction|].
  set (s1 := set_indices self (current_index self) (current_index self + 1)) in *.
  change (_queue s1) with (_queue self). change (rows s1) with (rows self).
  change (current_index s1) with (current_index self + 1).
  rewrite Hget, Hat.
  destruct (render_succeeds s1 ix path Hget Hat Hurl Hshow Hsave)
    as (s2 & Hr & H1 & H2 & H3 & H4 & H5).
  rewrite Hr. exists s2. rewrite H3, H4. repeat split; assumption.
Qed.

(** [_next_example] called with the cursor on the last element of the
    queue, or at -1 on an empty queue. *)
Lemma next_example_from_last (self : annotator) :
  current_index self = len (_queue self) - 1 ->
  _next_example env ctx self =
    (set_indices self (current_index self) (len (_queue self)), Raise IndexError).
Proof.
  intros Hci. unfold _next_example.
  destruct (Z.eqb_spec (current_index self) (len (_queue self))) as [E|_]; [lia|].
  replace (current_index self + 1) with (len (_queue self)) by lia.
  change (_queue (set_indices self (current_index self) (len (_queue self))))
    with (_queue self).
  change (current_index (set_indices self (current_index self) (len (_queue self))))
    with (len (_queue self)).
  rewrite getitem_at_len. reflexivity.
Qed.

(** Both navigation methods at the terminal position. *)
Lemma next_example_at_end (self : annotator) :
  current_index self = len (_queue self) ->
  _next_example env ctx self =
    match render_complete env ctx self with
    | (self', Raise e) => (self', Raise e)
    | (self', Ok _) => (self', Ok None)
    end.
Proof.
  intros Hci. unfold _next_example. rewrite Hci, Z.eqb_refl. reflexivity.
Qed.

Lemma prev_example_at_end (self : annotator) :
  current_index self = len (_queue self) ->
  _prev_example env ctx self =
    match render_complete env ctx self with
    | (self', Raise e) => (self', Raise e)
    | (self', Ok _) => (self', Ok None)
    end.
Proof.
  intros Hci. unfold _prev_example. rewrite Hci, Z.eqb_refl. reflexivity.
Qed.

(** C1 (defect in the code).  [_next_example] compares the cursor with the
    length of the queue before it increments it.  Called with the cursor on
    the last element of the queue, or with the cursor at -1 on an empty
    queue, it therefore moves the cursor to [len(_queue)] and raises
    [IndexError] on the subscript: nothing is displayed and completion is
    not signalled.  Only the call after that reaches [render_complete]: it
    shows the closing message and, when nothing is to be saved or the save
    goes through, disables the buttons and returns; when the save raises
    (a row that has a label has no [#] in its index label), that call raises
    [IndexError] as well and the buttons stay as they were. *)
Theorem next_example_index_overflow (self : annotator) :
  current_index self = len (_queue self) - 1 ->
  exists self',
    _next_example env ctx self = (self', Raise IndexError)
    /\ current_index self' = len (_queue self')
    /\ out self' = out self
    /\ buttons_disabled self' = buttons_disabled self
    /\ ((auto_save self = true -> saveable self ctx) ->
        _next_example env ctx self' =
          (set_buttons_disabled
             (if auto_save self then emit Saved (emit Complete self')
              else emit Complete self')
             true,
           Ok None))
    /\ (auto_save self = true -> unsaveable self ctx ->
        _next_example env ctx self' = (emit Complete self', Raise IndexError)).
Proof.
  intros Hci. rewrite (next_example_from_last self Hci).
  eexists. split; [reflexivity|]. repeat split.
  - intros Hsave. rewrite next_example_at_end by reflexivity.
    rewrite render_complete_succeeds by exact Hsave. reflexivity.
  - intros Hs Hu. rewrite next_example_at_end by reflexivity.
    rewrite render_complete_fails; [reflexivity|exact Hs|exact Hu].
Qed.

(** The common tail of [_next_example] and [_prev_example] once the cursor
    is settled: subscript, path lookup, [render], and the returned triple. *)
Lemma prev_example_tail (self : annotator) (ix path : string) :
  current_index self <> len (_queue self) ->
  current_index self <= 0 ->
  getitem (_queue self) (current_index self) = Ok ix ->
  at_image_path (rows self) ix = Ok path ->
  _prev_example env ctx self =
    match render env ctx self with
    | (self', Raise e) => (self', Raise e)
    | (self', Ok _) =>
        (self', Ok (Some (previous_index self', current_index self', path)))
    end.
Proof.
  intros Hne Hle Hget Hat. unfold _prev_example.
  destruct (Z.eqb_spec (current_index self) (len (_queue self))) as [E|_];
    [contradiction|].
  destruct (Z.ltb_spec 0 (current_index self)) as [Hpos|_]; [lia|].
  rewrite Hget, Hat. reflexivity.
Qed.

Lemma prev_example_back (self : annotator) (ix path : string) :
  0 < current_index self ->
  current_index self <> len (_queue self) ->
  getitem (_queue self) (current_index self - 1) = Ok ix ->
  at_image_path (rows self) ix = Ok path ->
  _prev_example env ctx self =
    match render env ctx (set_indices self (current_index self) (current_index self - 1)) with
    | (self', Raise e) => (self', Raise e)
    | (self', Ok _) =>
        (self', Ok (Some (previous_index self', current_index self', path)))
    end.
Proof.
  intros Hpos Hne Hget Hat. unfold _prev_example.
  destruct (Z.eqb_spec (current_index self) (len (_queue self))); [contradiction|].
  destruct (Z.ltb_spec 0 (current_index self)); [|lia].
  set (s1 := set_indices self (current_index self) (current_index self - 1)).
  change (_queue s1) with (_queue self). change (rows s1) with (rows self).
  change (current_index s1) with (current_index self - 1).
  rewrite Hget, Hat. reflexivity.
Qed.

Lemma getitem_nth {A : Type} (l : list A) (i : Z) (a : A) :
  0 <= i -> nth_error l (Z.to_nat i) = Some a -> getitem l i = Ok a.
Proof.
  intros Hi Hnth.
  destruct (getitem_in_range l i) as (a' & Hn & Hg).
  - split; [assumption|]. unfold len.
    assert (Z.to_nat i < List.length l)%nat by (apply nth_error_Some; congruence). lia.
  - congruence.
Qed.

(** C7, as the code has it.  [_prev_example] on a table with a unique index.
    At the terminal position it runs [render_complete], exactly as
    [_next_example] does there: the closing message is shown and, when
    nothing is to be saved or the save goes through, the buttons are
    disabled and nothing is returned; when the save raises, so does the
    call.  With the cursor strictly inside the queue and above 0 it stores
    the old cursor in [previous_index] and steps back by one; at position 0
    the cursor pair is left as it is.  In both cases, when the display of
    the focal row goes through (the table has a [url] column, the picture is
    shown, and a save at the last row number goes through), it returns the
    triple of previous index, current index and image path of the focal
    row: what is returned names the row by its image path, not by its
    key. *)
Theorem prev_example_spec (self : annotator) :
  unique_index (rows self) ->
  (current_index self = len (_queue self) ->
   ((auto_save self = true -> saveable self ctx) ->
    _prev_example env ctx self =
      (set_buttons_disabled
         (if auto_save self then emit Saved (emit Complete self)
          else emit Complete self)
         true,
       Ok None))
   /\ (auto_save self = true -> unsaveable self ctx ->
       _prev_example env ctx self = (emit Complete self, Raise IndexError)))
  /\ (0 < current_index self < len (_queue self) ->
      forall ix r,
        nth_error (_queue self) (Z.to_nat (current_index self - 1)) = Some ix ->
        row_at (rows self) ix r ->
        previous_index (fst (_prev_example env ctx self)) = current_index self
        /\ current_index (fst (_prev_example env ctx self)) = current_index self - 1
        /\ _queue (fst (_prev_example env ctx self)) = _queue self
        /\ rows (fst (_prev_example env ctx self)) = rows self
        /\ (url_column env = true ->
            show_picture env
              (set_indices self (current_index self) (current_index self - 1)) ix = Ok tt ->
            (len (rows self) - 1 <= current_index self - 1 ->
             auto_save self = true -> saveable self ctx) ->
            snd (_prev_example env ctx self) =
              Ok (Some (current_index self, current_index self - 1, image_path r))
            /\ (current_index self - 1 < len (rows self) - 1 ->
                out (fst (_prev_example env ctx self)) = Rendered ix :: out self)))
  /\ (current_index self = 0 -> 0 < len (_queue self) ->
      forall ix r,
        nth_error (_queue self) 0 = Some ix ->
        row_at (rows self) ix r ->
        previous_index (fst (_prev_example env ctx self)) = previous_index self
        /\ current_index (fst (_prev_example env ctx self)) = 0
        /\ _queue (fst (_prev_example env ctx self)) = _queue self
        /\ rows (fst (_prev_example env ctx self)) = rows self
        /\ (url_column env = true ->
            show_picture env self ix = Ok tt ->
            (len (rows self) - 1 <= 0 -> auto_save self = true -> saveable self ctx) ->
            snd (_prev_example env ctx self) =
              Ok (Some (previous_index self, 0, image_path r))
            /\ (0 < len (rows self) - 1 ->
                out (fst (_prev_example env ctx self)) = Rendered ix :: out self))).
Proof.
  intros Hu. split; [|split].
  - intros Hci. split.
    + intros Hsave. rewrite prev_example_at_end by exact Hci.
      rewrite render_complete_succeeds by exact Hsave. reflexivity.
    + intros Hs Hun. rewrite prev_example_at_end by exact Hci.
      rewrite render_complete_fails; [reflexivity|exact Hs|exact Hun].
  - intros Hci ix r Hnth Hr.
    pose proof (getitem_nth (_queue self) (current_index self - 1) ix ltac:(lia) Hnth)
      as Hget.
    pose proof (at_image_path_unique _ _ _ Hu Hr) as Hat.
    destruct (prev_example_cursor self) as [Hc Hp].
    destruct (prev_example_fields self) as (Hrows & Hq & _).
    destruct (Z.eqb_spec (current_index self) (len (_queue self))) as [E|_]; [lia|].
    destruct (Z.ltb_spec 0 (current_index self)) as [_|Hle]; [|lia].
    cbn [orb negb] in Hc, Hp.
    split; [exact Hp|]. split; [exact Hc|]. split; [exact Hq|]. split; [exact Hrows|].
    intros Hurl Hshow Hsave.
    rewrite (prev_example_back self ix (image_path r)) by (assumption || lia).
    set (s1 := set_indices self (current_index self) (current_index self - 1)) in *.
    destruct (render_succeeds s1 ix (image_path r) Hget Hat Hurl Hshow Hsave)
      as (s2 & Hrd & H1 & H2 & H3 & H4 & H5).
    rewrite Hrd. cbn [fst snd]. rewrite H3, H4. split; [reflexivity|].
    intros Hlt. rewrite (H5 Hlt). reflexivity.
  - intros Hci Hlen ix r Hnth Hr.
    assert (Hget : getitem (_queue self) (current_index self) = Ok ix).
    { rewrite Hci. apply getitem_nth; [lia|exact Hnth]. }
    pose proof (at_image_path_unique _ _ _ Hu Hr) as Hat.
    destruct (prev_example_cursor self) as [Hc Hp].
    destruct (prev_example_fields self) as (Hrows & Hq & _).
    destruct (Z.eqb_spec (current_index self) (len (_queue self))) as [E|_]; [lia|].
    destruct (Z.ltb_spec 0 (current_index self)) as [Hpos|_]; [lia|].
    cbn [orb negb] in Hc, Hp.
    split; [exact Hp|]. split; [rewrite Hc; exact Hci|].
    split; [exact Hq|]. split; [exact Hrows|].
    intros Hurl Hshow Hsave.
    rewrite (prev_example_tail self ix (image_path r)) by (assumption || lia).
    destruct (render_succeeds self ix (image_path r) Hget Hat Hurl Hshow
                ltac:(rewrite Hci; exact Hsave))
      as (s2 & Hrd & H1 & H2 & H3 & H4 & H5).
    rewrite Hrd. cbn [fst snd]. rewrite H3, H4, Hci. split; [reflexivity|].
    intros Hlt. rewrite H5 by (rewrite Hci; exact Hlt). reflexivity.
Qed.


(** *** Successive calls *)

Lemma advance_succ (k : nat) (self : annotator) :
  advance env ctx (S (S k)) self =
    match _next_example env ctx self with
    | (self', Raise e) => (self', Raise e)
    | (self', Ok _) => advance env ctx (S k) self'
    end.
Proof. reflexivity. Qed.

(** [k] calls that stay inside the queue and whose displays go through all
    succeed; the last one returns the cursor pair and the path of the row
    the cursor is on. *)
Lemma advance_inside (k : nat) :
  forall self,
    queue_in_table self ->
    url_column env = true ->
    pictures_shown env (_queue self) ->
    (auto_save self = true -> saveable self ctx) ->
    -1 <= current_index self ->
    current_index self + Z.of_nat (S k) < len (_queue self) ->
    exists self' ix path,
      advance env ctx (S k) self =
        (self', Ok (Some (current_index self + Z.of_nat k,
                          current_index self + Z.of_nat (S k), path)))
      /\ rows self' = rows self
      /\ _queue self' = _queue self
      /\ current_index self' = current_index self + Z.of_nat (S k)
      /\ getitem (_queue self) (current_index self') = Ok ix
      /\ at_image_path (rows self) ix = Ok path.
Proof.
  induction k as [|k IH]; intros self Hin Hurl Hshow Hsave Hlo Hhi.
  - destruct (getitem_in_range (_queue self) (current_index self + 1) ltac:(lia))
      as (ix & Hnth & Hget).
    destruct (Hin ix (nth_error_In _ _ Hnth)) as [path Hat].
    destruct (next_example_step self ix path ltac:(lia) Hget Hat Hurl
                (Hshow _ ix (nth_error_In _ _ Hnth)) (fun _ => Hsave))
      as (s1 & Hs & H1 & H2 & H3 & H4 & _).
    exists s1, ix, path. simpl advance.
    replace (current_index self + Z.of_nat 0) with (current_index self) by lia.
    replace (current_index self + Z.of_nat 1) with (current_index self + 1) by lia.
    rewrite H3. repeat split; assumption.
  - destruct (getitem_in_range (_queue self) (current_index self + 1) ltac:(lia))
      as (ix & Hnth & Hget).
    destruct (Hin ix (nth_error_In _ _ Hnth)) as [path Hat].
    destruct (next_example_step self ix path ltac:(lia) Hget Hat Hurl
                (Hshow _ ix (nth_error_In _ _ Hnth)) (fun _ => Hsave))
      as (s1 & Hs & H1 & H2 & H3 & H4 & _).
    rewrite advance_succ, Hs.
    destruct (next_example_fields self) as (_ & _ & F3 & F4 & _).
    rewrite Hs in F3, F4. cbn [fst] in F3, F4.
    assert (Hin1 : queue_in_table s1).
    { unfold queue_in_table. rewrite H1, H2. exact Hin. }
    assert (Hshow1 : pictures_shown env (_queue s1)) by (rewrite H2; exact Hshow).
    assert (Hsave1 : auto_save s1 = true -> saveable s1 ctx).
    { rewrite F3. intros Hs1. exact (saveable_same self s1 ctx H1 F4 (Hsave Hs1)). }
    destruct (IH s1 Hin1 Hurl Hshow1 Hsave1 ltac:(lia) ltac:(rewrite H2, H3; lia))
      as (s2 & ix2 & path2 & Ha & G1 & G2 & G3 & G4 & G5).
    exists s2, ix2, path2. rewrite Ha.
    rewrite H1, H2 in *. rewrite H3 in *.
    replace (current_index self + 1 + Z.of_nat k)
      with (current_index self + Z.of_nat (S k)) by lia.
    replace (current_index self + 1 + Z.of_nat (S k))
      with (current_index self + Z.of_nat (S (S k))) in * by lia.
    repeat split; try assumption; congruence.
Qed.

(** From a freshly built queue of [n >= 1] rows whose displays go through,
    [n] calls succeed and leave the cursor on the last element, [n - 1], not
    at the terminal position; the call after them raises [IndexError] and
    leaves the cursor at [n]. *)
Lemma advance_fresh_queue (n : nat) (self : annotator) :
  queue_in_table self ->
  url_column env = true ->
  pictures_shown env (_queue self) ->
  (auto_save self = true -> saveable self ctx) ->
  current_index self = -1 ->
  List.length (_queue self) = S n ->
  exists self',
    fst (advance env ctx (S n) self) = self'
    /\ (exists path,
          snd (advance env ctx (S n) self) = Ok (Some (Z.of_nat n - 1, Z.of_nat n, path)))
    /\ current_index self' = len (_queue self') - 1
    /\ _next_example env ctx self' =
         (set_indices self' (current_index self') (len (_queue self')), Raise IndexError).
Proof.
  intros Hin Hurl Hshow Hsave Hci Hlen.
  destruct (advance_inside n self Hin Hurl Hshow Hsave ltac:(lia) ltac:(unfold len; lia))
    as (s1 & ix & path & Ha & H1 & H2 & H3 & _).
  exists s1. rewrite Ha. cbn [fst snd].
  assert (Hc : current_index s1 = len (_queue s1) - 1).
  { rewrite H3, H2, Hci. unfold len. lia. }
  repeat split.
  - exists path. rewrite Hci.
    replace (-1 + Z.of_nat n) with (Z.of_nat n - 1) by lia.
    replace (-1 + Z.of_nat (S n)) with (Z.of_nat n) by lia.
    reflexivity.
  - exact Hc.
  - apply next_example_from_last. exact Hc.
Qed.

End EngineFacts.

(** *** Instances *)

(** The constructor's table with every row labelled: [annotate] fails on its
    first [_next_example]. *)
Example annotate_all_labelled :
  let self := fresh [labelled_row "p1"; labelled_row "p2"] [] [] true in
  exists self',
    _annotate with_url [] (fun l => l) None None self = (self', Raise IndexError)
    /\ _queue self' = [] /\ current_index self' = 0 /\ out self' = [].
Proof. eexists. vm_compute. repeat split. Qed.

(** One unlabelled row among two, nothing saved: the first call shows it,
    the second call raises, and only the third one signals completion. *)
Example advance_past_the_queue :
  let self :=
    set_queue (fresh [unlabelled_row "p1" 0 0; labelled_row "p2"] [] [] false) ["p1"] in
  let first := _next_example with_url [] self in
  let second := _next_example with_url [] (fst first) in
  let third := _next_example with_url [] (fst second) in
  snd first = Ok (Some (-1, 0, "p1.png"))
  /\ out (fst first) = [Rendered "p1"]
  /\ snd second = Raise IndexError
  /\ current_index (fst second) = 1
  /\ out (fst second) = [Rendered "p1"]
  /\ snd third = Ok None
  /\ out (fst third) = [Complete; Rendered "p1"].
Proof. vm_compute. repeat split. Qed.

(** The same with [auto_save] and index labels without [#]: the third call
    shows the closing message, raises in the save and leaves the buttons
    enabled. *)
Example completion_save_raises :
  let self :=
    set_queue (fresh [unlabelled_row "p1" 0 0; labelled_row "p2"] [] [] true) ["p1"] in
  let first := _next_example with_url [] self in
  let second := _next_example with_url [] (fst first) in
  let third := _next_example with_url [] (fst second) in
  snd second = Raise IndexError
  /\ snd third = Raise IndexError
  /\ out (fst third) = [Complete; Rendered "p1"]
  /\ buttons_disabled (fst third) = false.
Proof. vm_compute. repeat split. Qed.

Lemma next_example_index_overflow_witness :
  exists self',
    _next_example with_url [] (fresh [labelled_row "p1"] [] [] true) =
      (self', Raise IndexError)
    /\ current_index self' = len (_queue self')
    /\ out self' = out (fresh [labelled_row "p1"] [] [] true)
    /\ buttons_disabled self' = buttons_disabled (fresh [labelled_row "p1"] [] [] true)
    /\ _next_example with_url [] self' = (emit Complete self', Raise IndexError).
Proof.
  destruct (next_example_index_overflow with_url []
              (fresh [labelled_row "p1"] [] [] true) eq_refl)
    as (s & H1 & H2 & H3 & H4 & _ & H6).
  exists s. do 4 (split; [assumption|]).
  apply H6; [reflexivity|].
  exists (labelled_row "p1"). split; [simpl; tauto|]. split; [discriminate|].
  unfold has_hash. simpl. intros [H|[H|[]]]; discriminate.
Defined.

Lemma demo_queue_in_table (cur : Z) : queue_in_table (demo cur).
Proof.
  intros ix Hix. simpl in Hix.
  destruct Hix as [E|[E|[]]]; subst ix; eexists; reflexivity.
Qed.

Lemma demo_unique_index (cur : Z) : unique_index (rows (demo cur)).
Proof.
  unfold unique_index. simpl. repeat constructor; simpl; intuition discriminate.
Qed.

Lemma prev_example_spec_witness :
  unique_index (rows (demo 1))
  /\ previous_index (fst (_prev_example with_url [] (demo 1))) = current_index (demo 1)
  /\ current_index (fst (_prev_example with_url [] (demo 1))) = current_index (demo 1) - 1
  /\ snd (_prev_example with_url [] (demo 1)) =
       Ok (Some (current_index (demo 1), current_index (demo 1) - 1,
                 image_path (unlabelled_row "p1" 0 0))).
Proof.
  split; [exact (demo_unique_index 1)|].
  destruct (prev_example_spec with_url [] (demo 1) (demo_unique_index 1)) as (_ & H & _).
  assert (Hin : 0 < current_index (demo 1) < len (_queue (demo 1)))
    by (simpl; unfold len; simpl; lia).
  assert (Hr : row_at (rows (demo 1)) "p1" (unlabelled_row "p1" 0 0))
    by (split; [simpl; tauto|reflexivity]).
  destruct (H Hin "p1" (unlabelled_row "p1" 0 0) eq_refl Hr) as (H1 & H2 & _ & _ & H5).
  split; [exact H1|]. split; [exact H2|].
  apply (H5 eq_refl eq_refl). simpl. unfold len. simpl. lia.
Defined.

(** C7 as stated fails on the returned value: stepping back from position
    1 returns the path [p1.png] of the new focal row, whose key is [p1]. *)
Lemma prev_example_returns_path :
  snd (_prev_example with_url [] (demo 1)) = Ok (Some (1, 0, "p1.png"))
  /\ getitem (_queue (fst (_prev_example with_url [] (demo 1))))
       (current_index (fst (_prev_example with_url [] (demo 1)))) = Ok "p1"
  /\ "p1.png" <> "p1".
Proof. repeat split. discriminate. Qed.



Example prev_example_not_started_shows_last :
  snd (_prev_example with_url [] (demo (-1))) = Ok (Some (0, -1, "p2.png"))
  /\ out (fst (_prev_example with_url [] (demo (-1)))) = [Rendered "p2"].
Proof. vm_compute. split; reflexivity. Qed.

(** ** Queue engine: eligibility *)

(** The tests of one comprehension of [check_eligibility] all hold exactly
    when every constraint of the dictionary holds. *)
Lemma tests_all_true (r : row) (cmp : Q -> Q -> bool) (bounds : list (string * Q))
    (tests : list bool) :
  mapM (fun cm => v <- row_get r (fst cm) ;; Ok (cmp (snd cm) v)) bounds = Ok tests ->
  (forallb (fun b => b) tests = true <->
   forall col m, In (col, m) bounds ->
     exists v, row_get r col = Ok v /\ cmp m v = true).
Proof.
  revert tests. induction bounds as [|[c m0] bounds IH]; simpl; intros tests H.
  - inversion H; subst. simpl. split; [intros _ col m []|reflexivity].
  - destruct (row_get r c) as [v|e] eqn:Hv; simpl in H; [|discriminate].
    destruct (mapM _ bounds) as [ts|e] eqn:Hts; simpl in H; [|discriminate].
    inversion H; subst. simpl. rewrite andb_true_iff, (IH ts eq_refl).
    split.
    + intros [Hc Hrest] col m [E|Hin].
      * inversion E; subst. exists v. split; assumption.
      * apply Hrest. assumption.
    + intros Hall. split.
      * destruct (Hall c m0 (or_introl eq_refl)) as [v' [Hv' Hc]]. congruence.
      * intros col m Hin. apply Hall. right. assumption.
Qed.

Lemma check_eligibility_total (mins maxs : list (string * Q)) (r : row) :
  (label r = PyNone -> columns_present mins maxs r) ->
  exists b, check_eligibility mins maxs r = Ok b.
Proof.
  intros Hcols. unfold check_eligibility.
  destruct (label r) as [| |s]; [|eexists; reflexivity|eexists; reflexivity].
  specialize (Hcols eq_refl).
  destruct (mapM_total
              (fun cm => v <- row_get r (fst cm) ;; Ok (Qle_bool (snd cm) v)) mins)
    as [lo Hlo].
  { intros [c m] Hin. destruct (Hcols c m) as [v Hv]; [apply in_or_app; left; assumption|].
    simpl. rewrite Hv. eexists; reflexivity. }
  destruct (mapM_total
              (fun cm => v <- row_get r (fst cm) ;; Ok (Qle_bool v (snd cm))) maxs)
    as [hi Hhi].
  { intros [c m] Hin. destruct (Hcols c m) as [v Hv]; [apply in_or_app; right; assumption|].
    simpl. rewrite Hv. eexists; reflexivity. }
  rewrite Hlo, Hhi. simpl. eexists; reflexivity.
Qed.

(** [check_eligibility] answers [True] exactly for the rows whose label is
    [None] and whose constrained columns all lie within their bounds. *)
Lemma check_eligibility_true (mins maxs : list (string * Q)) (r : row) :
  check_eligibility mins maxs r = Ok true <->
  label r = PyNone /\ within_bounds mins maxs r.
Proof.
  unfold check_eligibility, within_bounds.
  destruct (label r) as [| |s];
    [|split; [discriminate|intros [H _]; discriminate]
     |split; [discriminate|intros [H _]; discriminate]].
  - destruct (mapM (fun cm => v <- row_get r (fst cm) ;; Ok (Qle_bool (snd cm) v)) mins)
      as [lo|e] eqn:Hlo; simpl.
    + destruct (mapM (fun cm => v <- row_get r (fst cm) ;; Ok (Qle_bool v (snd cm))) maxs)
        as [hi|e] eqn:Hhi; simpl.
      * pose proof (tests_all_true r (fun m v => Qle_bool m v) mins lo Hlo) as Tlo.
        pose proof (tests_all_true r (fun m v => Qle_bool v m) maxs hi Hhi) as Thi.
        assert (Hiff : Ok (forallb (fun b => b) (lo ++ hi)) = Ok true <->
                       forallb (fun b => b) lo = true /\ forallb (fun b => b) hi = true).
        { rewrite forallb_app. split.
          - intros H. inversion H as [H1]. rewrite H1.
            apply andb_true_iff in H1. exact H1.
          - intros [E1 E2]. rewrite E1, E2. reflexivity. }
        rewrite Hiff, Tlo, Thi. split.
        -- intros [H1 H2]. split; [reflexivity|]. split; intros col m Hin.
           ++ destruct (H1 col m Hin) as [v [Hv Hc]].
              exists v. split; [assumption|]. apply Qle_bool_iff. assumption.
           ++ destruct (H2 col m Hin) as [v [Hv Hc]].
              exists v. split; [assumption|]. apply Qle_bool_iff. assumption.
        -- intros [_ [H1 H2]]. split; intros col m Hin.
           ++ destruct (H1 col m Hin) as [v [Hv Hc]].
              exists v. split; [assumption|]. apply Qle_bool_iff. assumption.
           ++ destruct (H2 col m Hin) as [v [Hv Hc]].
              exists v. split; [assumption|]. apply Qle_bool_iff. assumption.
      * split; [discriminate|]. intros [_ [_ H2]]. exfalso.
        destruct (mapM_total
                    (fun cm => v <- row_get r (fst cm) ;; Ok (Qle_bool v (snd cm))) maxs)
          as [hi Hhi']; [|congruence].
        intros [c m] Hin. destruct (H2 c m Hin) as [v [Hv _]].
        simpl. rewrite Hv. eexists; reflexivity.
    + split; [discriminate|]. intros [_ [H1 _]]. exfalso.
      destruct (mapM_total
                  (fun cm => v <- row_get r (fst cm) ;; Ok (Qle_bool (snd cm) v)) mins)
        as [lo Hlo']; [|congruence].
      intros [c m] Hin. destruct (H1 c m Hin) as [v [Hv _]].
      simpl. rewrite Hv. eexists; reflexivity.
Qed.

(** The mask keeps the rows for which [check_eligibility] answered [True]. *)
Lemma eligible_rows_spec (mins maxs : list (string * Q)) (l : list row) :
  (forall r, In r l -> exists b, check_eligibility mins maxs r = Ok b) ->
  exists el,
    eligible_rows mins maxs l = Ok el
    /\ forall r, In r el <-> In r l /\ check_eligibility mins maxs r = Ok true.
Proof.
  induction l as [|r0 l IH]; intros Htot.
  - exists []. split; [reflexivity|]. intros r; simpl; tauto.
  - destruct IH as [el [Hel Hin]]; [intros; apply Htot; right; assumption|].
    destruct (Htot r0 (or_introl eq_refl)) as [b Hb].
    simpl. rewrite Hb, Hel. simpl.
    destruct b.
    + exists (r0 :: el). split; [reflexivity|]. intros r. simpl. rewrite Hin.
      split.
      * intros [E|[H1 H2]]; [subst; tauto|tauto].
      * intros [[E|H1] H2]; [left; assumption|right; tauto].
    + exists el. split; [reflexivity|]. intros r. rewrite Hin. simpl.
      split; [tauto|]. intros [[E|H1] H2]; [subst; congruence|tauto].
Qed.


Section Eligibility.

Variable sample : list row -> list row.
Hypothesis sample_permutes : forall l, Permutation (sample l) l.

(** C3, as the code has it.  When the index of the table is unique and the
    unlabelled rows have a number in every constrained column, [get_queue]
    returns a queue, and a row of the table is in it exactly when its label
    is [None] and every minimum and every maximum holds for it.  (A label
    that is the empty string counts as a label.) *)
Theorem get_queue_eligible (self : annotator) :
  NoDup (map row_key (rows self)) ->
  (forall r, In r (rows self) -> label r = PyNone ->
             columns_present (_min_values self) (_max_values self) r) ->
  exists q,
    get_queue sample self = Ok q
    /\ forall r, In r (rows self) ->
         (In (row_key r) q <->
          label r = PyNone /\ within_bounds (_min_values self) (_max_values self) r).
Proof.
  intros Hnd Hcols.
  destruct (eligible_rows_spec (_min_values self) (_max_values self) (rows self))
    as [el [Hel Hin]].
  { intros r Hr. apply check_eligibility_total. apply Hcols. assumption. }
  exists (map row_key (sample el)). split.
  - unfold get_queue. rewrite Hel. reflexivity.
  - intros r Hr. rewrite <- check_eligibility_true. split.
    + intros Hk. apply in_map_iff in Hk. destruct Hk as [r' [Hkey Hr']].
      apply (Permutation_in _ (sample_permutes el)) in Hr'.
      apply Hin in Hr'. destruct Hr' as [Hr'1 Hr'2].
      assert (r' = r) by (apply (NoDup_map_eq row_key (rows self)); assumption).
      subst. assumption.
    + intros Hc. apply in_map.
      apply (Permutation_in _ (Permutation_sym (sample_permutes el))).
      apply Hin. split; assumption.
Qed.


End Eligibility.

(** The scenario of the specification: with [min_values = {"score": 0.5}]
    the unlabelled row with score 0.4 is left out and the one with score 0.6
    is queued. *)
Example queue_min_score :
  get_queue (fun l => l) (fresh scored_table [("score", 5 # 10)] [] true) = Ok ["high"].
Proof. reflexivity. Qed.

Lemma scored_table_columns (mins maxs : list (string * Q)) :
  (forall col m, In (col, m) (mins ++ maxs) -> col = "score") ->
  forall r, In r scored_table -> label r = PyNone -> columns_present mins maxs r.
Proof.
  intros Hcol r Hr _ col m Hin. rewrite (Hcol col m Hin).
  simpl in Hr. destruct Hr as [E|[E|[E|[]]]]; subst r; eexists; reflexivity.
Qed.

Lemma get_queue_eligible_witness :
  exists q,
    get_queue (fun l => l) (fresh scored_table [("score", 5 # 10)] [] true) = Ok q
    /\ forall r, In r scored_table ->
         (In (row_key r) q <->
          label r = PyNone /\ within_bounds [("score", 5 # 10)] [] r).
Proof.
  apply (get_queue_eligible (fun l => l) (fun l => Permutation_refl l)
           (fresh scored_table [("score", 5 # 10)] [] true)).
  - simpl. repeat constructor; simpl; intuition discriminate.
  - apply scored_table_columns. simpl. intros col m [E|[]]. congruence.
Defined.

(** C3 as stated fails on a row whose label is the empty string: the label
    is empty and there is no constraint to break, yet [row.label is not None]
    holds and the row is not queued. *)
Lemma empty_label_not_queued :
  let r := scored_row "blank" (PyStr "") (6 # 10) in
  get_queue (fun l => l) (fresh [r] [] [] true) = Ok []
  /\ ~ (In (row_key r) [] <-> null_or_empty (label r) /\ within_bounds [] [] r).
Proof.
  split; [reflexivity|].
  intros [_ H]. apply H. split.
  - right. right. reflexivity.
  - split; intros col m [].
Qed.

Lemma eligible_rows_all_labelled (mins maxs : list (string * Q)) (l : list row) :
  Forall (fun r => label r <> PyNone) l -> eligible_rows mins maxs l = Ok [].
Proof.
  induction 1 as [|r l Hr _ IH]; simpl; [reflexivity|].
  unfold check_eligibility. destruct (label r); [congruence| |];
    simpl; rewrite IH; reflexivity.
Qed.

(** When every row of the table is labelled, the eligible set is empty and
    [_annotate] does not reach [render_complete]: its first [_next_example]
    raises [IndexError] and leaves the cursor at 0 with nothing displayed. *)
Lemma annotate_nothing_eligible (env : setting) (ctx : context_cells)
    (sample : list row -> list row)
    (min_values max_values : option (list (string * Q))) (self : annotator) :
  sample [] = [] ->
  Forall (fun r => label r <> PyNone) (rows self) ->
  exists self',
    _annotate env ctx sample min_values max_values self = (self', Raise IndexError)
    /\ _queue self' = []
    /\ current_index self' = 0
    /\ out self' = out self.
Proof.
  intros Hsample Hall. unfold _annotate, get_queue.
  cbn [rows set_buttons_disabled set_indices set_bounds _min_values _max_values].
  rewrite (eligible_rows_all_labelled _ _ _ Hall). simpl bind. rewrite Hsample.
  cbn [map]. rewrite next_example_from_last by reflexivity.
  eexists. split; [reflexivity|]. repeat split.
Qed.

(** ** Resume merger *)

Lemma filter_no_key (right : list (string * option string)) (k : string) :
  ~ In k (map fst right) ->
  filter (fun e => String.eqb (fst e) k) right = [].
Proof.
  induction right as [|[k' v] right IH]; simpl; intros Hnot; [reflexivity|].
  destruct (String.eqb_spec k' k) as [E|_].
  - exfalso. apply Hnot. left. assumption.
  - apply IH. intros Hin. apply Hnot. right. assumption.
Qed.

(** With a unique index on the right, a key selects at most one row. *)
Lemma filter_unique_key (right : list (string * option string)) (k : string) :
  NoDup (map fst right) ->
  filter (fun e => String.eqb (fst e) k) right =
    match assoc k right with
    | Some v => [(k, v)]
    | None => []
    end.
Proof.
  induction right as [|[k' v] right IH]; simpl; intros Hnd; [reflexivity|].
  inversion Hnd as [|? ? Hnotin Hnd']; subst.
  rewrite (String.eqb_sym k k').
  destruct (String.eqb_spec k' k) as [E|_].
  - subst k'. rewrite (filter_no_key right k Hnotin). reflexivity.
  - apply IH. assumption.
Qed.

Lemma NoDup_combine_keys {B : Type} (keys : list string) (vals : list B) :
  NoDup keys -> NoDup (map fst (combine keys vals)).
Proof.
  revert vals. induction keys as [|k keys IH]; intros vals Hnd; [constructor|].
  destruct vals as [|v vals]; [constructor|].
  inversion Hnd as [|? ? Hnotin Hnd']; subst. simpl. constructor.
  - intros Hin. apply Hnotin. apply in_map_iff in Hin.
    destruct Hin as [[k' v'] [E Hin]]. simpl in E. subst k'.
    exact (in_combine_l _ _ _ _ Hin).
  - apply IH. assumption.
Qed.

Lemma left_join_cons (r : row) (left : list row) (right : list (string * option string)) :
  left_join (r :: left) right =
    match filter (fun e => String.eqb (fst e) (row_key r)) right with
    | [] => [(r, None)]
    | matches => map (fun e => (r, snd e)) matches
    end ++ left_join left right.
Proof. reflexivity. Qed.

Lemma left_join_unique (left : list row) (right : list (string * option string)) :
  NoDup (map fst right) ->
  left_join left right = map (fun r => (r, saved_label right (row_key r))) left.
Proof.
  intros Hnd. induction left as [|r left IH]; [reflexivity|].
  rewrite left_join_cons, IH, (filter_unique_key right (row_key r) Hnd).
  unfold saved_label. cbn [map].
  destruct (assoc (row_key r) right); reflexivity.
Qed.


Lemma merge_existing_unique (labels : list string) (patch_df : list row)
    (existing : save_file) (label_y : list (option string)) :
  NoDup (save_index existing) ->
  resolve_labels labels (save_label existing) = Ok label_y ->
  merge_existing labels patch_df existing =
    Ok (map (fun r =>
               set_label r
                 (fillna (saved_label (combine (save_index existing) label_y) (row_key r))
                    (label r))
                 (truthy
                    (fillna (saved_label (combine (save_index existing) label_y) (row_key r))
                       (label r))))
          patch_df).
Proof.
  intros Hnd Hres. unfold merge_existing. rewrite Hres. cbn [bind].
  rewrite left_join_unique by (apply NoDup_combine_keys; assumption).
  rewrite map_map. reflexivity.
Qed.





Example merge_demo :
  merge_existing ["rail"; "road"] demo_table demo_save =
    Ok [unlabelled_row "p1" 0 0;
        set_label (unlabelled_row "p2" 10 0) (PyStr "road") true;
        labelled_row "p3"].
Proof. reflexivity. Qed.


(** A save file that lists a key twice makes the join repeat the row. *)
Example merge_duplicate_key :
  merge_existing [] [unlabelled_row "p1" 0 0]
    (mk_save_file ["p1"; "p1"] ["p1.png"; "p1.png"] (ObjectColumn [Some "a"; Some "b"])) =
    Ok [set_label (unlabelled_row "p1" 0 0) (PyStr "a") true;
        set_label (unlabelled_row "p1" 0 0) (PyStr "b") true].
Proof. reflexivity. Qed.


(** ** Legacy label indices *)

(** C8, as the code has it.  An integer label column is resolved through
    the Python subscript [labels[x]].  When every index lies in
    [-len(labels) .. len(labels) - 1] the merge proceeds as if the file had
    held the strings, an index [x >= 0] giving the entry at position [x] and
    a negative [x] the entry at position [len(labels) + x]; when some index
    is [>= len(labels)] or [< -len(labels)] the merge raises [IndexError]. *)
Theorem legacy_indices_resolved (labels : list string) (cells : list Z)
    (patch_df : list row) (index paths : list string) :
  (Forall (fun x => - len labels <= x < len labels) cells ->
   merge_existing labels patch_df (mk_save_file index paths (IntColumn cells)) =
   merge_existing labels patch_df
     (mk_save_file index paths
        (ObjectColumn (map (fun x => Some (entry labels x)) cells))))
  /\ (Exists (fun x => x < - len labels \/ len labels <= x) cells ->
      merge_existing labels patch_df (mk_save_file index paths (IntColumn cells)) =
      Raise IndexError).
Proof.
  split; intros H; unfold merge_existing; cbn [save_label save_index].
  - rewrite (resolve_in_range labels cells H). reflexivity.
  - rewrite (resolve_out_of_range labels cells H). reflexivity.
Qed.

(** The scenario of the specification: vocabulary ["a", "b"], saved index 1
    gives "b", saved index 5 raises. *)
Example legacy_index_one :
  merge_existing (uniq ["a"; "b"]) [unlabelled_row "p1" 0 0]
    (mk_save_file ["p1"] ["p1.png"] (IntColumn [1])) =
    Ok [set_label (unlabelled_row "p1" 0 0) (PyStr "b") true].
Proof. reflexivity. Qed.

Example legacy_index_five :
  merge_existing (uniq ["a"; "b"]) [unlabelled_row "p1" 0 0]
    (mk_save_file ["p1"] ["p1.png"] (IntColumn [5])) = Raise IndexError.
Proof. reflexivity. Qed.

Lemma legacy_indices_resolved_witness :
  merge_existing ["a"; "b"] demo_table
    (mk_save_file ["p1"; "p2"] ["p1.png"; "p2.png"] (IntColumn [1; -2])) =
  merge_existing ["a"; "b"] demo_table
    (mk_save_file ["p1"; "p2"] ["p1.png"; "p2.png"] (ObjectColumn [Some "b"; Some "a"]))
  /\ merge_existing ["a"; "b"] demo_table
       (mk_save_file ["p1"; "p2"] ["p1.png"; "p2.png"] (IntColumn [1; 5])) =
     Raise IndexError.
Proof.
  split.
  - apply (proj1 (legacy_indices_resolved ["a"; "b"] [1; -2] demo_table
                    ["p1"; "p2"] ["p1.png"; "p2.png"])).
    repeat constructor; unfold len; simpl; lia.
  - apply (proj2 (legacy_indices_resolved ["a"; "b"] [1; 5] demo_table
                    ["p1"; "p2"] ["p1.png"; "p2.png"])).
    apply Exists_cons_tl. apply Exists_cons_hd. right. unfold len. simpl. lia.
Defined.

(** C8 as stated fails on a negative index: -1 is no position of a list of
    two labels, yet the merge does not raise and takes the last label. *)
Lemma negative_index_not_raised :
  ~ (0 <= -1 < len ["a"; "b"])
  /\ merge_existing (uniq ["a"; "b"]) [unlabelled_row "p1" 0 0]
       (mk_save_file ["p1"] ["p1.png"] (IntColumn [-1])) =
     Ok [set_label (unlabelled_row "p1" 0 0) (PyStr "b") true].
Proof. split; [lia|reflexivity]. Qed.

(** ** Context compositor *)

Lemma in_byte_range (old : Z) :
  0 <= old <= 255 -> In old (map Z.of_nat (seq 0 256)).
Proof.
  intros H. apply in_map_iff. exists (Z.to_nat old). split; [lia|].
  apply in_seq. lia.
Qed.

(** On every [uint8] sample the floating-point computation of the code
    gives the integer part of [256 - (256 - old) * 0.4]. *)
Lemma lighten_formula (old : Z) :
  0 <= old <= 255 -> lighten old = Qfloor (code_lighten old).
Proof.
  intros H.
  assert (Hall : forallb (fun p => lighten p =? Qfloor (code_lighten p))
                   (map Z.of_nat (seq 0 256)) = true) by (vm_compute; reflexivity).
  rewrite forallb_forall in Hall.
  apply Z.eqb_eq. apply Hall. apply in_byte_range. assumption.
Qed.

Lemma lighten_closed_form (old : Z) :
  0 <= old <= 255 -> lighten old = (768 + 2 * old) / 5.
Proof.
  intros H.
  assert (Hall : forallb (fun p => lighten p =? (768 + 2 * p) / 5)
                   (map Z.of_nat (seq 0 256)) = true) by (vm_compute; reflexivity).
  rewrite forallb_forall in Hall.
  apply Z.eqb_eq. apply Hall. apply in_byte_range. assumption.
Qed.

Lemma range_length (lo hi : Z) : List.length (range lo hi) = Z.to_nat (hi - lo).
Proof. unfold range. rewrite length_map, length_seq. reflexivity. Qed.

Lemma list_sum_repeat (a n : nat) : list_sum (repeat a n) = (n * a)%nat.
Proof. induction n as [|n IH]; simpl; [reflexivity|]. rewrite IH. reflexivity. Qed.

Lemma split_sizes_concat {A : Type} (sizes : list nat) :
  forall l : list A,
    (List.length l <= list_sum sizes)%nat -> List.concat (split_sizes sizes l) = l.
Proof.
  induction sizes as [|k sizes IH]; intros l Hlen; simpl in *.
  - destruct l; [reflexivity|simpl in Hlen; lia].
  - rewrite IH; [apply firstn_skipn|]. rewrite length_skipn. lia.
Qed.

(** The sections of [array_split] put side by side give the list back. *)
Lemma array_split_concat {A : Type} (l : list A) (n : Z) (chunks : list (list A)) :
  array_split l n = Ok chunks -> List.concat chunks = l.
Proof.
  unfold array_split. destruct (Z.leb_spec n 0) as [Hn|Hn]; [discriminate|].
  intros H. inversion H as [E]. clear H E.
  apply split_sizes_concat.
  rewrite list_sum_app, !list_sum_repeat.
  assert (Hk : Z.to_nat n <> 0%nat) by lia.
  pose proof (Nat.div_mod_eq (List.length l) (Z.to_nat n)) as Hdm.
  pose proof (Nat.mod_upper_bound (List.length l) (Z.to_nat n) Hk) as Hub.
  nia.
Qed.

Lemma array_split_total {A : Type} (l : list A) (n : Z) :
  0 < n -> exists chunks, array_split l n = Ok chunks.
Proof.
  intros Hn. unfold array_split.
  destruct (Z.leb_spec n 0) as [H|_]; [lia|]. eexists; reflexivity.
Qed.

Section ContextFacts.

Variable open_image : string -> picture.

(** The grid of [get_context], read row after row, holds one cell for each
    expected origin, in the order of [y_and_x]; [get_context] raises nothing
    once the focal row is found and [surrounding] is not negative. *)
Lemma get_context_cells (self : annotator) (ix : string) (focal : row) :
  getitem (_queue self) (current_index self) = Ok ix ->
  find_row (rows self) ix = Some focal ->
  0 <= surrounding self ->
  exists images,
    get_context open_image self =
      Ok (images,
          ((2 * surrounding self + 1) * snd (tile_size open_image focal),
           (2 * surrounding self + 1) * fst (tile_size open_image focal)))
    /\ List.concat images =
         map (fun yx => cell open_image self ix (tile_size open_image focal)
                          (query (parent_frame self focal) yx))
             (y_and_x self focal (tile_size open_image focal)).
Proof.
  intros Hget Hfind Hs. unfold get_context. rewrite Hget. simpl bind. rewrite Hfind.
  set (hw := tile_size open_image focal).
  set (items := map (query (parent_frame self focal)) (y_and_x self focal hw)).
  set (image_list := combine _ _).
  destruct (array_split_total image_list (len (deltas self))) as [chunks Hsplit].
  { unfold len, deltas. rewrite range_length. lia. }
  rewrite Hsplit. simpl bind. eexists. split; [reflexivity|].
  rewrite <- concat_map, (array_split_concat _ _ _ Hsplit).
  subst image_list items. clear Hsplit chunks.
  induction (y_and_x self focal hw) as [|yx rest IH]; [reflexivity|].
  simpl. f_equal; [|exact IH].
  unfold cell. destruct (query (parent_frame self focal) yx) as [|r [|r' more]];
    reflexivity.
Qed.

(** C5, as the code has it.  In the grid of [get_context], a cell whose
    origin is matched by exactly one row of the parent shows that row's
    image: as it is on disk when the annotator is in context mode or when the
    row is the focal one, and otherwise with every sample put through
    [lighten], which is the integer part of [256 - (256 - old) * 0.4]. *)
Theorem context_dimming (self : annotator) (ix : string) (focal : row) :
  getitem (_queue self) (current_index self) = Ok ix ->
  find_row (rows self) ix = Some focal ->
  0 <= surrounding self ->
  exists images size,
    get_context open_image self = Ok (images, size)
    /\ Forall2
         (fun yx t =>
            forall r,
              query (parent_frame self focal) yx = [r] ->
              image_path r <> "" ->
              t = Picture
                    (if _annotate_context self then open_image (image_path r)
                     else if String.eqb (row_key r) ix then open_image (image_path r)
                     else lightened (open_image (image_path r))))
         (y_and_x self focal (tile_size open_image focal)) (List.concat images)
    /\ (forall old, 0 <= old <= 255 -> lighten old = Qfloor (code_lighten old)).
Proof.
  intros Hget Hfind Hs.
  destruct (get_context_cells self ix focal Hget Hfind Hs) as [images [Hctx Hcells]].
  exists images. eexists. split; [exact Hctx|]. split; [|exact lighten_formula].
  rewrite Hcells. clear Hcells Hctx.
  induction (y_and_x self focal (tile_size open_image focal)) as [|yx rest IH];
    simpl; constructor; [|exact IH].
  intros r Hq Hpath. rewrite Hq. unfold cell.
  destruct (String.eqb_spec (image_path r) "") as [E|_]; [contradiction|].
  unfold get_path, lightened.
  destruct (_annotate_context self); [reflexivity|].
  destruct (String.eqb (row_key r) ix); reflexivity.
Qed.

(** C6, as the code has it.  A cell whose origin is matched by two or more
    rows of the parent is left empty, like a cell without any match; the
    composition does not raise. *)
Theorem context_ambiguous_blank (self : annotator) (ix : string) (focal : row) :
  getitem (_queue self) (current_index self) = Ok ix ->
  find_row (rows self) ix = Some focal ->
  0 <= surrounding self ->
  exists images size,
    get_context open_image self = Ok (images, size)
    /\ Forall2
         (fun yx t =>
            (2 <= List.length (query (parent_frame self focal) yx))%nat ->
            t = EmptySquare (snd (tile_size open_image focal))
                  (fst (tile_size open_image focal)))
         (y_and_x self focal (tile_size open_image focal)) (List.concat images).
Proof.
  intros Hget Hfind Hs.
  destruct (get_context_cells self ix focal Hget Hfind Hs) as [images [Hctx Hcells]].
  exists images. eexists. split; [exact Hctx|].
  rewrite Hcells. clear Hcells Hctx.
  induction (y_and_x self focal (tile_size open_image focal)) as [|yx rest IH];
    simpl; constructor; [|exact IH].
  intros Hlen. unfold cell.
  destruct (query (parent_frame self focal) yx) as [|r [|r' more]];
    simpl in Hlen; [lia|lia|reflexivity].
Qed.

End ContextFacts.

(** The grid around tile [c] of [context_table], one tile of context on each
    side: the focal tile is shown as it is, the tile below it lightened, and
    the place to the right, which two rows claim, is empty. *)
Example context_demo_grid :
  get_context disk (context_demo false) =
    Ok ([[EmptySquare 10 10; EmptySquare 10 10; EmptySquare 10 10];
         [EmptySquare 10 10; Picture (disk "c.png"); EmptySquare 10 10];
         [EmptySquare 10 10; Picture (mk_picture 10 10 [153; 193; 255; 155]);
          EmptySquare 10 10]],
        (30, 30)).
Proof. vm_compute. reflexivity. Qed.

Example context_demo_grid_context_mode :
  get_context disk (context_demo true) =
    Ok ([[EmptySquare 10 10; EmptySquare 10 10; EmptySquare 10 10];
         [EmptySquare 10 10; Picture (disk "c.png"); EmptySquare 10 10];
         [EmptySquare 10 10; Picture (disk "s.png"); EmptySquare 10 10]],
        (30, 30)).
Proof. vm_compute. reflexivity. Qed.

Lemma context_demo_focal (b : bool) :
  getitem (_queue (context_demo b)) (current_index (context_demo b)) = Ok "c"
  /\ find_row (rows (context_demo b)) "c" = Some (tile_row "c" "map" 0 0)
  /\ 0 <= surrounding (context_demo b).
Proof. repeat split. simpl. lia. Qed.

Lemma context_dimming_witness :
  exists images size,
    get_context disk (context_demo false) = Ok (images, size)
    /\ Forall2
         (fun yx t =>
            forall r,
              query (parent_frame (context_demo false) (tile_row "c" "map" 0 0)) yx = [r] ->
              image_path r <> "" ->
              t = Picture
                    (if _annotate_context (context_demo false) then disk (image_path r)
                     else if String.eqb (row_key r) "c" then disk (image_path r)
                     else lightened (disk (image_path r))))
         (y_and_x (context_demo false) (tile_row "c" "map" 0 0)
            (tile_size disk (tile_row "c" "map" 0 0)))
         (List.concat images)
    /\ (forall old, 0 <= old <= 255 -> lighten old = Qfloor (code_lighten old)).
Proof.
  destruct (context_demo_focal false) as (H1 & H2 & H3).
  exact (context_dimming disk (context_demo false) "c" (tile_row "c" "map" 0 0) H1 H2 H3).
Defined.

(** C5 as stated fails on the sample 0 of a dimmed neighbour: the code
    turns it into 153, while [256 - (256 - 0) * 0.6] is 102.4. *)
Lemma dimmed_sample_not_as_stated :
  (exists images size,
     get_context disk (context_demo false) = Ok (images, size)
     /\ nth_error (List.concat images) 7 =
          Some (Picture (mk_picture 10 10 [153; 193; 255; 155]))
     /\ samples (disk "s.png") = [0; 100; 255; 5])
  /\ lighten 0 = 153
  /\ Qfloor (spec_lighten 0) = 102
  /\ Qceiling (spec_lighten 0) = 103.
Proof.
  split; [|vm_compute; repeat split].
  eexists. eexists. split; [exact context_demo_grid|]. split; reflexivity.
Qed.

Lemma context_ambiguous_blank_witness :
  exists images size,
    get_context disk (context_demo false) = Ok (images, size)
    /\ Forall2
         (fun yx t =>
            (2 <= List.length
                    (query (parent_frame (context_demo false) (tile_row "c" "map" 0 0)) yx))%nat ->
            t = EmptySquare (snd (tile_size disk (tile_row "c" "map" 0 0)))
                  (fst (tile_size disk (tile_row "c" "map" 0 0))))
         (y_and_x (context_demo false) (tile_row "c" "map" 0 0)
            (tile_size disk (tile_row "c" "map" 0 0)))
         (List.concat images).
Proof.
  destruct (context_demo_focal false) as (H1 & H2 & H3).
  exact (context_ambiguous_blank disk (context_demo false) "c"
           (tile_row "c" "map" 0 0) H1 H2 H3).
Defined.

(** C6 as stated fails on the place to the right of [c]: rows [e1] and
    [e2] both match its origin, and the cell is empty instead of showing the
    image of [e1], the first match. *)
Lemma ambiguous_slot_not_first_match :
  exists images size,
    get_context disk (context_demo false) = Ok (images, size)
    /\ nth_error (y_and_x (context_demo false) (tile_row "c" "map" 0 0) (10, 10)) 5 =
         Some (0, 10)
    /\ query (parent_frame (context_demo false) (tile_row "c" "map" 0 0)) (0, 10) =
         [tile_row "e1" "map" 10 0; tile_row "e2" "map" 10 0]
    /\ nth_error (List.concat images) 5 = Some (EmptySquare 10 10)
    /\ EmptySquare 10 10 <> Picture (disk "e1.png")
    /\ EmptySquare 10 10 <> Picture (lightened (disk "e1.png")).
Proof.
  eexists. eexists. split; [exact context_demo_grid|].
  repeat split; discriminate.
Qed.

(** ** Schema normalizer: literal evaluation of columns *)

Section EvalFacts.

Variable parse : string -> result value.
Hypothesis parse_errors : forall s e, parse s = Raise e -> caught e.

Lemma literal_eval_errors (v : value) (e : exn) :
  literal_eval parse v = Raise e -> caught e.
Proof.
  destruct v; simpl; intros H;
    try (inversion H; left; reflexivity).
  exact (parse_errors _ _ H).
Qed.

Lemma literal_eval_native (v : value) : native v -> literal_eval parse v = Raise ValueError.
Proof. destruct v; simpl; intros H; try reflexivity. destruct H. Qed.

Lemma mapM_errors (cells : list value) (e : exn) :
  mapM (literal_eval parse) cells = Raise e -> caught e.
Proof.
  induction cells as [|v cells IH]; simpl; [discriminate|].
  destruct (literal_eval parse v) as [y|e'] eqn:Hv; simpl.
  - destruct (mapM (literal_eval parse) cells) as [ys|e'']; simpl; [discriminate|].
    intros H. inversion H; subst. apply IH. reflexivity.
  - intros H. inversion H; subst. exact (literal_eval_errors v e Hv).
Qed.

(** As soon as one cell is not a string, [apply(literal_eval)] raises. *)
Lemma mapM_native_raises (cells : list value) :
  Exists native cells -> exists e, mapM (literal_eval parse) cells = Raise e.
Proof.
  induction 1 as [v cells Hv|v cells _ IH]; simpl.
  - rewrite (literal_eval_native v Hv). eexists; reflexivity.
  - destruct (literal_eval parse v) as [y|e]; simpl; [|eexists; reflexivity].
    destruct IH as [e He]. rewrite He. eexists; reflexivity.
Qed.

Lemma eval_column_caught (col : string * list value) (e : exn) :
  mapM (literal_eval parse) (snd col) = Raise e -> eval_column parse col = Ok col.
Proof.
  intros H. unfold eval_column. rewrite H.
  destruct (mapM_errors _ _ H) as [E|[E|E]]; subst; reflexivity.
Qed.

Lemma eval_column_cases (col : string * list value) :
  (exists cells, mapM (literal_eval parse) (snd col) = Ok cells
                 /\ eval_column parse col = Ok (fst col, cells))
  \/ (exists e, mapM (literal_eval parse) (snd col) = Raise e
                /\ eval_column parse col = Ok col).
Proof.
  destruct (mapM (literal_eval parse) (snd col)) as [cells|e] eqn:H.
  - left. exists cells. split; [reflexivity|]. unfold eval_column. rewrite H. reflexivity.
  - right. exists e. split; [reflexivity|]. exact (eval_column_caught col e H).
Qed.

(** A column that holds a value that is not a string is left as it is. *)
Lemma eval_column_native (col : string * list value) :
  Exists native (snd col) -> eval_column parse col = Ok col.
Proof.
  intros H. destruct (mapM_native_raises _ H) as [e He].
  exact (eval_column_caught col e He).
Qed.

(** A column that evaluated to values of which one is not a string, or to
    no value at all, is left as it is by a second evaluation. *)
Lemma eval_column_settled (name : string) (cells : list value) :
  cells = [] \/ Exists native cells ->
  eval_column parse (name, cells) = Ok (name, cells).
Proof.
  intros [E|H].
  - subst. reflexivity.
  - apply (eval_column_native (name, cells)). exact H.
Qed.

(** C9, as the code has it.  [_eval_df] returns a table with the same
    column names; a column that holds a value that is not a string is left
    exactly as it is; and evaluating the result once more changes nothing
    provided every column that was evaluated now holds a value that is not a
    string (or holds nothing). *)
Theorem eval_df_lossless_and_settled (df : table) :
  exists df1,
    _eval_df parse df = Ok df1
    /\ Forall2
         (fun col col1 =>
            fst col1 = fst col
            /\ (Exists native (snd col) -> col1 = col))
         df df1
    /\ ((forall col cells,
           In col df ->
           mapM (literal_eval parse) (snd col) = Ok cells ->
           cells = [] \/ Exists native cells) ->
        _eval_df parse df1 = Ok df1).
Proof.
  unfold _eval_df. induction df as [|col df IH].
  - exists []. repeat split; constructor.
  - destruct IH as [df1 [Hdf1 [Hall Hidem]]].
    rewrite mapM_cons.
    destruct (eval_column_cases col) as [[cells [Hm Hc]]|[e [Hm Hc]]].
    + exists ((fst col, cells) :: df1). rewrite Hc, Hdf1.
      split; [reflexivity|]. split.
      * constructor; [|exact Hall]. split; [reflexivity|].
        intros Hn. destruct (mapM_native_raises _ Hn) as [e He]. congruence.
      * intros Hsettled. rewrite mapM_cons.
        rewrite (eval_column_settled (fst col) cells
                   (Hsettled col cells (or_introl eq_refl) Hm)).
        rewrite Hidem; [reflexivity|].
        intros c cs Hin. apply Hsettled. right. exact Hin.
    + exists (col :: df1). rewrite Hc, Hdf1.
      split; [reflexivity|]. split.
      * constructor; [|exact Hall]. split; [reflexivity|]. intros _. reflexivity.
      * intros Hsettled. rewrite mapM_cons, Hc. rewrite Hidem; [reflexivity|].
        intros c cs Hin. apply Hsettled. right. exact Hin.
Qed.

End EvalFacts.

Lemma literal_parse_errors (s : string) :
  forall e, literal_parse s = Raise e -> caught e.
Proof.
  intros e. unfold literal_parse.
  destruct (parse_value _ _) as [[v rest]|]; [destruct (skip_blanks rest)|];
    intros H; inversion H; left; reflexivity.
Qed.

(** The text columns with bounds and lists become tuples and lists, the
    path column and the number column stay, and a second pass changes
    nothing. *)
Example eval_csv_table :
  _eval_df literal_parse csv_table =
    Ok [("pixel_bounds", [VTuple [VInt 0; VInt 0; VInt 10; VInt 10];
                          VTuple [VInt 10; VInt 0; VInt 20; VInt 10]]);
        ("image_path", [VStr "patches/p1.png"; VStr "patches/p2.png"]);
        ("mean_pixel", [VInt 117; VInt 64]);
        ("names", [VList [VStr "a"; VStr "b"]; VList []])].
Proof. vm_compute. reflexivity. Qed.

Lemma eval_df_lossless_and_settled_witness :
  exists df1,
    _eval_df literal_parse csv_table = Ok df1
    /\ Forall2
         (fun col col1 =>
            fst col1 = fst col
            /\ (Exists native (snd col) -> col1 = col))
         csv_table df1
    /\ _eval_df literal_parse df1 = Ok df1.
Proof.
  destruct (eval_df_lossless_and_settled literal_parse literal_parse_errors csv_table)
    as [df1 [H1 [H2 H3]]].
  exists df1. split; [exact H1|]. split; [exact H2|].
  apply H3. intros col cells Hin Hm. simpl in Hin.
  destruct Hin as [E|[E|[E|[E|[]]]]]; subst col; vm_compute in Hm;
    try discriminate; inversion Hm; subst; right;
    constructor; exact I.
Defined.

(** C9 as stated fails on a column of quoted text: the first evaluation
    takes the quotes away, the second turns the text into a number. *)
Lemma eval_df_not_idempotent :
  _eval_df literal_parse [("id", [VStr "'1'"])] = Ok [("id", [VStr "1"])]
  /\ _eval_df literal_parse [("id", [VStr "1"])] = Ok [("id", [VInt 1])]
  /\ [("id", [VInt 1])] <> [("id", [VStr "1"])].
Proof. repeat split; discriminate. Qed.

(** ** Session identity: sorting *)

Lemma insert_sorted_perm (x : string) (l : list string) :
  Permutation (insert_sorted x l) (x :: l).
Proof.
  induction l as [|y l IH]; simpl; [apply Permutation_refl|].
  destruct (String.leb x y); [apply Permutation_refl|].
  eapply Permutation_trans; [apply perm_skip; exact IH|apply perm_swap].
Qed.

Lemma sorted_perm (l : list string) : Permutation (sorted l) l.
Proof.
  induction l as [|x l IH]; simpl; [constructor|].
  eapply Permutation_trans; [apply insert_sorted_perm|].
  apply perm_skip. exact IH.
Qed.

(** Insertions commute, whatever the list. *)
Lemma insert_sorted_comm (x y : string) (l : list string) :
  insert_sorted x (insert_sorted y l) = insert_sorted y (insert_sorted x l).
Proof.
  induction l as [|z l IH]; simpl.
  - destruct (String.leb x y) eqn:Hxy, (String.leb y x) eqn:Hyx; try reflexivity.
    + rewrite (String.leb_antisym x y Hxy Hyx). reflexivity.
    + destruct (String.leb_total x y); congruence.
  - destruct (String.leb y z) eqn:Hyz, (String.leb x z) eqn:Hxz; simpl.
    + destruct (String.leb x y) eqn:Hxy, (String.leb y x) eqn:Hyx;
        rewrite ?Hyz, ?Hxz; try reflexivity.
      * rewrite (String.leb_antisym x y Hxy Hyx). reflexivity.
      * destruct (String.leb_total x y); congruence.
    + assert (Hxy : String.leb x y = false).
      { destruct (String.leb x y) eqn:E; [|reflexivity].
        rewrite (string_leb_trans x y z E Hyz) in Hxz. discriminate. }
      rewrite Hxy, Hyz. simpl. rewrite Hxz. reflexivity.
    + assert (Hyx : String.leb y x = false).
      { destruct (String.leb y x) eqn:E; [|reflexivity].
        rewrite (string_leb_trans y x z E Hxz) in Hyz. discriminate. }
      rewrite Hyx, Hxz. simpl. rewrite Hyz. reflexivity.
    + rewrite Hxz, Hyz. f_equal. exact IH.
Qed.

(** [sorted] depends on the multiset of its argument only, and determines
    it. *)
Lemma sorted_permutation (l1 l2 : list string) :
  Permutation l1 l2 <-> sorted l1 = sorted l2.
Proof.
  split.
  - induction 1 as [|x l l' _ IH|x y l|l l' l'' _ IH1 _ IH2]; simpl.
    + reflexivity.
    + rewrite IH. reflexivity.
    + apply insert_sorted_comm.
    + congruence.
  - intros E. eapply Permutation_trans; [apply Permutation_sym, sorted_perm|].
    rewrite E. apply sorted_perm.
Qed.

(** ** Session identity: the JSON text *)

Lemma append_assoc (a b c : string) : ((a ++ b) ++ c = a ++ (b ++ c))%string.
Proof. induction a as [|x a IH]; simpl; [reflexivity|]. rewrite IH. reflexivity. Qed.

Lemma append_empty_r (a : string) : (a ++ "")%string = a.
Proof. induction a as [|x a IH]; simpl; [reflexivity|]. rewrite IH. reflexivity. Qed.

Lemma append_cancel_l (a b c : string) : (a ++ b = a ++ c)%string -> b = c.
Proof. induction a as [|x a IH]; simpl; intros H; [exact H|]. inversion H. auto. Qed.

Lemma unescape_escape (c : ascii) (rest : string) :
  unescape (escape c ++ rest) = Some (c, rest).
Proof.
  destruct c as [b0 b1 b2 b3 b4 b5 b6 b7].
  destruct b0, b1, b2, b3, b4, b5, b6, b7; reflexivity.
Qed.

Lemma unescape_quote (rest : string) : unescape (String quote rest) = None.
Proof. reflexivity. Qed.

(** The body of a JSON string up to its closing quote can be read back. *)
Lemma escape_all_inj (s1 : string) :
  forall s2 r1 r2,
    (escape_all s1 ++ String quote r1 = escape_all s2 ++ String quote r2)%string ->
    s1 = s2 /\ r1 = r2.
Proof.
  induction s1 as [|c1 s1 IH]; intros [|c2 s2] r1 r2; simpl; intros H.
  - inversion H. split; reflexivity.
  - exfalso. rewrite append_assoc in H.
    assert (E : unescape (String quote r1) =
                unescape (escape c2 ++ (escape_all s2 ++ String quote r2))%string)
      by (rewrite H; reflexivity).
    rewrite unescape_escape, unescape_quote in E. discriminate.
  - exfalso. rewrite append_assoc in H.
    assert (E : unescape (escape c1 ++ (escape_all s1 ++ String quote r1))%string =
                unescape (String quote r2))
      by (rewrite H; reflexivity).
    rewrite unescape_escape, unescape_quote in E. discriminate.
  - rewrite !append_assoc in H.
    assert (E : unescape (escape c1 ++ (escape_all s1 ++ String quote r1))%string =
                unescape (escape c2 ++ (escape_all s2 ++ String quote r2))%string)
      by (rewrite H; reflexivity).
    rewrite !unescape_escape in E. inversion E as [[Ec Er]].
    destruct (IH s2 r1 r2 Er) as [Es Erest]. subst. split; reflexivity.
Qed.

Lemma encode_inj (s1 s2 r1 r2 : string) :
  (encode_basestring_ascii s1 ++ r1 = encode_basestring_ascii s2 ++ r2)%string ->
  s1 = s2 /\ r1 = r2.
Proof.
  unfold encode_basestring_ascii. simpl. rewrite !append_assoc. simpl.
  intros H. inversion H as [E]. exact (escape_all_inj s1 s2 r1 r2 E).
Qed.

Lemma concat_cons2 (sep x y : string) (l : list string) :
  String.concat sep (x :: y :: l) = (x ++ sep ++ String.concat sep (y :: l))%string.
Proof. reflexivity. Qed.

Lemma encoded_items_inj (l1 : list string) :
  forall l2,
    (String.concat ", " (map encode_basestring_ascii l1) ++ "]" =
     String.concat ", " (map encode_basestring_ascii l2) ++ "]")%string ->
    l1 = l2.
Proof.
  induction l1 as [|s1 l1 IH]; intros [|s2 l2] H.
  - reflexivity.
  - exfalso. destruct l2; simpl in H; discriminate.
  - exfalso. destruct l1; simpl in H; discriminate.
  - destruct l1 as [|t1 l1], l2 as [|t2 l2].
    + simpl in H. destruct (encode_inj s1 s2 "]" "]" H) as [E _]. subst. reflexivity.
    + exfalso. cbn [map] in H. rewrite concat_cons2 in H.
      cbn [String.concat] in H. rewrite append_assoc in H.
      destruct (encode_inj _ _ _ _ H) as [_ E]. discriminate.
    + exfalso. cbn [map] in H. rewrite concat_cons2 in H.
      cbn [String.concat] in H. rewrite append_assoc in H.
      destruct (encode_inj _ _ _ _ H) as [_ E]. discriminate.
    + cbn [map] in H. rewrite !concat_cons2, !append_assoc in H.
      destruct (encode_inj _ _ _ _ H) as [Es E]. subst s2.
      rewrite ?append_assoc in E. apply (append_cancel_l ", ") in E.
      f_equal. apply IH. exact E.
Qed.

(** [json.dumps] maps different lists of strings to different texts. *)
Lemma json_dumps_inj (l1 l2 : list string) :
  json_dumps l1 = json_dumps l2 -> l1 = l2.
Proof.
  unfold json_dumps. intros H. apply (append_cancel_l "[") in H.
  exact (encoded_items_inj l1 l2 H).
Qed.

(** ** Session identity: the digest *)

(** The test suite of RFC 1321. *)
Example md5_test_suite :
  MD5.hexdigest "" = "d41d8cd98f00b204e9800998ecf8427e"
  /\ MD5.hexdigest "a" = "0cc175b9c0f1b6a831c399e269772661"
  /\ MD5.hexdigest "abc" = "900150983cd24fb0d6963f7d28e17f72"
  /\ MD5.hexdigest "message digest" = "f96b697d7cb7938d525a2f31aaf161d0"
  /\ MD5.hexdigest "abcdefghijklmnopqrstuvwxyz" = "c3fcd3d76192e4007dfb496cca67e13b"
  /\ MD5.hexdigest "ABCDEFGHIJKLMNOPQRSTUVWXYZabcdefghijklmnopqrstuvwxyz0123456789"
     = "d174ab98d277d9f5a5611c2c9f419d9f"
  /\ MD5.hexdigest
       "12345678901234567890123456789012345678901234567890123456789012345678901234567890"
     = "57edf4a22be3c955ac49da2e2107b67a".
Proof. vm_compute. repeat split. Qed.

Lemma add32_range (x y : Z) : 0 <= MD5.add32 x y < 4294967296.
Proof. unfold MD5.add32. apply Z.mod_pos_bound. lia. Qed.

Lemma process_words32 (st : MD5.state) (block : list Z) :
  words32 (MD5.process st block).
Proof.
  unfold MD5.process. destruct st as [[[a0 b0] c0] d0].
  destruct (fold_left _ _ _) as [[[A B] C] D].
  unfold words32. repeat split; apply add32_range.
Qed.

Lemma fold_process_words32 (blocks : list (list Z)) :
  forall st, words32 st -> words32 (fold_left MD5.process blocks st).
Proof.
  induction blocks as [|b blocks IH]; intros st Hst; simpl; [exact Hst|].
  apply IH. apply process_words32.
Qed.

Lemma digest_state_words32 (msg : list Z) : words32 (MD5.digest_state msg).
Proof.
  unfold MD5.digest_state. apply fold_process_words32.
  unfold words32, MD5.initial. lia.
Qed.

(** A digest is one of [2^128] values. *)
Lemma state_number_range (st : MD5.state) :
  words32 st -> 0 <= state_number st < 340282366920938463463374607431768211456.
Proof.
  destruct st as [[[a b] c] d]. unfold words32, state_number. lia.
Qed.

Lemma state_number_inj (s1 s2 : MD5.state) :
  words32 s1 -> words32 s2 -> state_number s1 = state_number s2 -> s1 = s2.
Proof.
  destruct s1 as [[[a1 b1] c1] d1], s2 as [[[a2 b2] c2] d2].
  unfold words32, state_number. intros H1 H2 E.
  assert (a1 = a2) by lia. assert (b1 = b2) by lia.
  assert (c1 = c2) by lia. assert (d1 = d2) by lia.
  subst. reflexivity.
Qed.

Lemma bounded_search (f : nat -> nat) (v n : nat) :
  (exists i, (i < n)%nat /\ f i = v) \/ (forall i, (i < n)%nat -> f i <> v).
Proof.
  induction n as [|n [[i [Hi E]]|Hnone]].
  - right. intros i Hi. lia.
  - left. exists i. split; [lia|exact E].
  - destruct (Nat.eq_dec (f n) v) as [E|N].
    + left. exists n. split; [lia|exact E].
    + right. intros i Hi. destruct (Nat.eq_dec i n) as [->|Hne]; [exact N|].
      apply Hnone. lia.
Qed.

(** [M + 1] values below [M] cannot all differ. *)
Lemma pigeonhole (M : nat) :
  forall f : nat -> nat,
    (forall i, (i <= M)%nat -> (f i < M)%nat) ->
    exists i j, (i < j)%nat /\ (j <= M)%nat /\ f i = f j.
Proof.
  induction M as [|M IH]; intros f Hf.
  - specialize (Hf 0%nat). lia.
  - destruct (bounded_search f (f (S M)) (S M)) as [[i [Hi E]]|Hnone].
    + exists i, (S M). repeat split; [lia|lia|exact E].
    + pose (g := fun i => if (f i <? f (S M))%nat then f i else (f i - 1)%nat).
      destruct (IH g) as (i & j & Hij & Hj & E).
      * intros i Hi. unfold g.
        pose proof (Hf i ltac:(lia)) as H1. pose proof (Hf (S M) ltac:(lia)) as H2.
        pose proof (Hnone i ltac:(lia)) as H3.
        destruct (Nat.ltb_spec (f i) (f (S M))); lia.
      * exists i, j. repeat split; [lia|lia|].
        pose proof (Hnone i ltac:(lia)) as H3. pose proof (Hnone j ltac:(lia)) as H4.
        unfold g in E.
        destruct (Nat.ltb_spec (f i) (f (S M))), (Nat.ltb_spec (f j) (f (S M))); lia.
Qed.

Lemma pigeonhole_Z (bound : Z) (f : nat -> Z) :
  (forall i, 0 <= f i < bound) -> exists i j, (i < j)%nat /\ f i = f j.
Proof.
  intros Hf.
  destruct (pigeonhole (Z.to_nat bound) (fun i => Z.to_nat (f i))) as (i & j & Hij & _ & E).
  - intros i _. pose proof (Hf i). lia.
  - exists i, j. split; [exact Hij|]. pose proof (Hf i). pose proof (Hf j). lia.
Qed.

Lemma path_of_length_length (n : nat) : String.length (path_of_length n) = n.
Proof. induction n as [|n IH]; simpl; [reflexivity|]. rewrite IH. reflexivity. Qed.

(** Among the one-path tables whose path is [a], [aa], [aaa], ... two have
    the same digest. *)
Lemma digest_collision :
  exists i j,
    (i < j)%nat
    /\ MD5.hexdigest (image_list [path_of_length i]) =
       MD5.hexdigest (image_list [path_of_length j]).
Proof.
  destruct (pigeonhole_Z 340282366920938463463374607431768211456
              (fun i => state_number
                          (MD5.digest_state (text_bytes (image_list [path_of_length i])))))
    as (i & j & Hij & E).
  - intros i. apply state_number_range, digest_state_words32.
  - exists i, j. split; [exact Hij|].
    apply state_number_inj in E; try apply digest_state_words32.
    unfold MD5.hexdigest. fold (text_bytes (image_list [path_of_length i])).
    fold (text_bytes (image_list [path_of_length j])). rewrite E. reflexivity.
Qed.

(** ** Session identity: the file name *)

Lemma string_length_append (a b : string) :
  String.length (a ++ b) = (String.length a + String.length b)%nat.
Proof. induction a as [|x a IH]; simpl; [reflexivity|]. rewrite IH. reflexivity. Qed.

Lemma append_cancel_r (a : string) :
  forall b c, (a ++ c = b ++ c)%string -> a = b.
Proof.
  induction a as [|x a IH]; intros [|y b] c H; simpl in H.
  - reflexivity.
  - exfalso. assert (L : String.length c = String.length (String y (b ++ c)))
      by (rewrite <- H; reflexivity).
    simpl in L. rewrite string_length_append in L. lia.
  - exfalso. assert (L : String.length (String x (a ++ c)) = String.length c)
      by (rewrite H; reflexivity).
    simpl in L. rewrite string_length_append in L. lia.
  - inversion H as [[Ex E]]. f_equal. exact (IH b c E).
Qed.

Lemma os_path_join_inj (a : string) (c : ascii) (b1 b2 : string) :
  os_path_join a (String c b1) = os_path_join a (String c b2) -> b1 = b2.
Proof.
  unfold os_path_join. destruct (Ascii.eqb c "/"%char).
  - intros H. inversion H. reflexivity.
  - destruct (String.eqb a "" || ends_with_slash a); intros H.
    + apply append_cancel_l in H. inversion H. reflexivity.
    + apply append_cancel_l in H. simpl in H. inversion H. reflexivity.
Qed.

(** The file names of two tables under one directory, user and task are
    equal exactly when the digests are. *)
Lemma annotations_file_eq_iff (dir : string) (paths1 paths2 : list string)
    (username task_name : option string) (random_name : string) :
  annotations_file dir paths1 username task_name random_name =
  annotations_file dir paths2 username task_name random_name
  <-> MD5.hexdigest (image_list paths1) = MD5.hexdigest (image_list paths2).
Proof.
  unfold annotations_file. fold (image_list paths1). fold (image_list paths2).
  set (u := or_default username random_name).
  set (t := replace_spaces (or_default task_name "task")).
  split; [|intros E; rewrite E; reflexivity].
  intros H. destruct t as [|c t].
  - apply (os_path_join_inj dir "_"%char
             ("#" ++ u ++ "#-" ++ MD5.hexdigest (image_list paths1) ++ ".csv")%string
             ("#" ++ u ++ "#-" ++ MD5.hexdigest (image_list paths2) ++ ".csv")%string) in H.
    apply (append_cancel_l "#") in H. apply append_cancel_l in H.
    apply (append_cancel_l "#-") in H.
    exact (append_cancel_r _ _ _ H).
  - apply (os_path_join_inj dir c
             (t ++ "_#" ++ u ++ "#-" ++ MD5.hexdigest (image_list paths1) ++ ".csv")%string
             (t ++ "_#" ++ u ++ "#-" ++ MD5.hexdigest (image_list paths2) ++ ".csv")%string) in H.
    apply append_cancel_l in H. apply (append_cancel_l "_#") in H.
    apply append_cancel_l in H. apply (append_cancel_l "#-") in H.
    exact (append_cancel_r _ _ _ H).
Qed.

(** C4, as the code has it.  With a user name given, the session file is
    determined by the multiset of paths, the user name and the task name:
    tables with the same paths get the same file, whatever the order of the
    rows and whatever random name was drawn.  Tables whose paths differ
    (one added, removed or renamed) give different texts to hash, and their
    files differ exactly when the MD5 digests of these texts differ.  The
    file is [{task}_#{user}#-{hash}.csv] under the annotations directory,
    where [{task}] is the task name with every space replaced by an
    underscore, or [task] when no task name is given. *)
Theorem session_file_identity (dir user : string) (task_name : option string)
    (paths1 paths2 : list string) (random1 random2 : string) :
  user <> "" ->
  (Permutation paths1 paths2 ->
   annotations_file dir paths1 (Some user) task_name random1 =
   annotations_file dir paths2 (Some user) task_name random2)
  /\ (~ Permutation paths1 paths2 -> image_list paths1 <> image_list paths2)
  /\ (annotations_file dir paths1 (Some user) task_name random1 =
      annotations_file dir paths2 (Some user) task_name random2
      <-> MD5.hexdigest (image_list paths1) = MD5.hexdigest (image_list paths2))
  /\ annotations_file dir paths1 (Some user) task_name random1 =
     os_path_join dir
       (spec_file_name (replace_spaces (or_default task_name "task")) user
          (MD5.hexdigest (image_list paths1))).
Proof.
  intros Huser.
  assert (Hu : forall rnd, or_default (Some user) rnd = user).
  { intros rnd. unfold or_default.
    destruct (String.eqb_spec user "") as [E|_]; [contradiction|reflexivity]. }
  assert (Hrnd : forall paths,
             annotations_file dir paths (Some user) task_name random1 =
             annotations_file dir paths (Some user) task_name random2).
  { intros paths. unfold annotations_file. rewrite !Hu. reflexivity. }
  split; [|split; [|split]].
  - intros Hperm. rewrite <- Hrnd. unfold annotations_file.
    rewrite (proj1 (sorted_permutation paths1 paths2) Hperm). reflexivity.
  - intros Hnot E. apply Hnot. apply sorted_permutation.
    exact (json_dumps_inj _ _ E).
  - rewrite <- Hrnd. apply annotations_file_eq_iff.
  - unfold annotations_file, spec_file_name, image_list. rewrite Hu. reflexivity.
Qed.

Example session_file_demo :
  annotations_file "./annotations" ["patches/p2.png"; "patches/p1.png"]
    (Some "alice") (Some "my task") "" =
  "./annotations/my_task_#alice#-a06d0a48f8fbe67c6390a3c8c93adde3.csv".
Proof. vm_compute. reflexivity. Qed.

Lemma session_file_identity_witness :
  (Permutation ["patches/p2.png"; "patches/p1.png"] ["patches/p1.png"; "patches/p2.png"] ->
   annotations_file "./annotations" ["patches/p2.png"; "patches/p1.png"]
     (Some "alice") (Some "my task") "x" =
   annotations_file "./annotations" ["patches/p1.png"; "patches/p2.png"]
     (Some "alice") (Some "my task") "y")
  /\ (~ Permutation ["patches/p2.png"; "patches/p1.png"] ["patches/p1.png"; "patches/p2.png"] ->
      image_list ["patches/p2.png"; "patches/p1.png"] <>
      image_list ["patches/p1.png"; "patches/p2.png"])
  /\ (annotations_file "./annotations" ["patches/p2.png"; "patches/p1.png"]
        (Some "alice") (Some "my task") "x" =
      annotations_file "./annotations" ["patches/p1.png"; "patches/p2.png"]
        (Some "alice") (Some "my task") "y"
      <-> MD5.hexdigest (image_list ["patches/p2.png"; "patches/p1.png"]) =
          MD5.hexdigest (image_list ["patches/p1.png"; "patches/p2.png"]))
  /\ annotations_file "./annotations" ["patches/p2.png"; "patches/p1.png"]
       (Some "alice") (Some "my task") "x" =
     os_path_join "./annotations"
       (spec_file_name (replace_spaces (or_default (Some "my task") "task")) "alice"
          (MD5.hexdigest (image_list ["patches/p2.png"; "patches/p1.png"]))).
Proof.
  apply (session_file_identity "./annotations" "alice" (Some "my task")
           ["patches/p2.png"; "patches/p1.png"] ["patches/p1.png"; "patches/p2.png"]
           "x" "y").
  discriminate.
Defined.

(** C4 as stated fails in three places.  A task name with a space does not
    appear as it is in the file name.  Without a user name the file name
    depends on the random name that is drawn, not on table, user and task
    alone.  And the name carries 128 bits of digest only: there are two
    tables with different paths whose session files are the same for every
    directory, user and task. *)
Lemma session_file_not_as_stated :
  annotations_file "" ["p1.png"] (Some "alice") (Some "my task") "" <>
  spec_file_name "my task" "alice" (MD5.hexdigest (image_list ["p1.png"]))
  /\ annotations_file "" ["p1.png"] None (Some "roads") "k3J" <>
     annotations_file "" ["p1.png"] None (Some "roads") "Zq8"
  /\ exists paths1 paths2,
       ~ Permutation paths1 paths2
       /\ forall dir username task_name random_name,
            annotations_file dir paths1 username task_name random_name =
            annotations_file dir paths2 username task_name random_name.
Proof.
  split; [|split].
  - vm_compute. discriminate.
  - vm_compute. discriminate.
  - destruct digest_collision as (i & j & Hij & E).
    exists [path_of_length i], [path_of_length j]. split.
    + intros Hperm. apply Permutation_length_1 in Hperm.
      assert (L : String.length (path_of_length i) = String.length (path_of_length j))
        by (rewrite Hperm; reflexivity).
      rewrite !path_of_length_length in L. lia.
    + intros dir username task_name random_name.
      apply annotations_file_eq_iff. exact E.
Qed.

(** * Further properties of the code *)

(** ** Navigation *)

Section Navigation.

Variable env : setting.
Variable ctx : context_cells.

Lemma press_fields (b : bool) (self : annotator) :
  rows (press env ctx b self) = rows self
  /\ _queue (press env ctx b self) = _queue self.
Proof.
  unfold press. destruct b.
  - pose proof (next_example_fields env ctx self) as (H1 & H2 & _). split; assumption.
  - pose proof (prev_example_fields env ctx self) as (H1 & H2 & _). split; assumption.
Qed.

Lemma press_cursor_bounds (b : bool) (self : annotator) :
  -1 <= current_index self <= len (_queue self) ->
  -1 <= current_index (press env ctx b self) <= len (_queue (press env ctx b self)).
Proof.
  intros H. rewrite (proj2 (press_fields b self)). unfold press. destruct b.
  - destruct (Z.eq_dec (current_index self) (len (_queue self))) as [E|N].
    + rewrite (proj1 (next_example_cursor_end env ctx self E)). exact H.
    + rewrite (proj1 (next_example_cursor env ctx self N)). lia.
  - rewrite (proj1 (prev_example_cursor env ctx self)).
    destruct (Z.eqb_spec (current_index self) (len (_queue self)));
      destruct (Z.ltb_spec 0 (current_index self)); simpl; lia.
Qed.

(** X1.  However the two navigation buttons are pressed, and whether or not a
    press raises, the cursor stays between -1 and [len(_queue)], and the
    table and the queue are the ones the pass started with. *)
Theorem cursor_stays_in_bounds (buttons : list bool) (self : annotator) :
  -1 <= current_index self <= len (_queue self) ->
  -1 <= current_index (presses env ctx buttons self) <= len (_queue self)
  /\ rows (presses env ctx buttons self) = rows self
  /\ _queue (presses env ctx buttons self) = _queue self.
Proof.
  revert self. induction buttons as [|b buttons IH]; intros self H.
  - simpl. repeat split; lia.
  - simpl. destruct (press_fields b self) as [Hr Hq].
    destruct (IH (press env ctx b self) (press_cursor_bounds b self H)) as (H1 & H2 & H3).
    rewrite Hq in H1. rewrite H2, H3. repeat split; try assumption; lia.
Qed.

(** A step back of [_prev_example] from above 0 whose display goes
    through. *)
Lemma prev_example_step (self : annotator) (ix path : string) :
  0 < current_index self ->
  current_index self <> len (_queue self) ->
  getitem (_queue self) (current_index self - 1) = Ok ix ->
  at_image_path (rows self) ix = Ok path ->
  url_column env = true ->
  show_picture env (set_indices self (current_index self) (current_index self - 1)) ix =
    Ok tt ->
  (len (rows self) - 1 <= current_index self - 1 ->
   auto_save self = true -> saveable self ctx) ->
  snd (_prev_example env ctx self) =
    Ok (Some (current_index self, current_index self - 1, path)).
Proof.
  intros Hpos Hne Hget Hat Hurl Hshow Hsave.
  rewrite (prev_example_back env ctx self ix path Hpos Hne Hget Hat).
  set (s1 := set_indices self (current_index self) (current_index self - 1)) in *.
  destruct (render_succeeds env ctx s1 ix path Hget Hat Hurl Hshow Hsave)
    as (s2 & Hr & _ & _ & H3 & H4 & _).
  rewrite Hr. cbn [snd]. rewrite H3, H4. reflexivity.
Qed.

Lemma prev_example_stay (self : annotator) (ix path : string) :
  current_index self <= 0 ->
  current_index self <> len (_queue self) ->
  getitem (_queue self) (current_index self) = Ok ix ->
  at_image_path (rows self) ix = Ok path ->
  url_column env = true ->
  show_picture env self ix = Ok tt ->
  (len (rows self) - 1 <= current_index self ->
   auto_save self = true -> saveable self ctx) ->
  snd (_prev_example env ctx self) =
    Ok (Some (previous_index self, current_index self, path)).
Proof.
  intros Hle Hne Hget Hat Hurl Hshow Hsave.
  rewrite (prev_example_tail env ctx self ix path Hne Hle Hget Hat).
  destruct (render_succeeds env ctx self ix path Hget Hat Hurl Hshow Hsave)
    as (s2 & Hr & _ & _ & H3 & H4 & _).
  rewrite Hr. cbn [snd]. rewrite H3, H4. reflexivity.
Qed.

(** X2.  [_next_example] followed by [_prev_example], both inside the queue.
    Whatever the two calls return or raise, the cursor is back where it was,
    except that it does not go back to -1; [previous_index] holds the
    position just left; the table and the queue are untouched.  When the
    keys of the queue are rows of the table, the table has a [url] column,
    the pictures of the queued rows are shown and a save at the last row
    number of the table goes through, both calls return. *)
Theorem next_then_prev (self : annotator) :
  -1 <= current_index self ->
  current_index self + 1 < len (_queue self) ->
  (current_index (fst (_prev_example env ctx (fst (_next_example env ctx self)))) =
     Z.max (current_index self) 0
   /\ previous_index (fst (_prev_example env ctx (fst (_next_example env ctx self)))) =
      (if current_index self =? -1 then -1 else current_index self + 1)
   /\ rows (fst (_prev_example env ctx (fst (_next_example env ctx self)))) = rows self
   /\ _queue (fst (_prev_example env ctx (fst (_next_example env ctx self)))) =
      _queue self)
  /\ (queue_in_table self ->
      url_column env = true ->
      pictures_shown env (_queue self) ->
      (len (rows self) - 1 <= current_index self + 1 ->
       auto_save self = true -> saveable self ctx) ->
      exists r1 r2,
        snd (_next_example env ctx self) = Ok r1
        /\ snd (_prev_example env ctx (fst (_next_example env ctx self))) = Ok r2).
Proof.
  intros Hlo Hhi.
  destruct (next_example_cursor env ctx self ltac:(lia)) as [Hc Hp].
  destruct (next_example_fields env ctx self) as (Hrows & Hq & Hs & _).
  set (s1 := fst (_next_example env ctx self)) in *.
  destruct (prev_example_cursor env ctx s1) as [Gc Gp].
  destruct (prev_example_fields env ctx s1) as (Grows & Gq & _).
  rewrite ?Hc, ?Hp, ?Hq in Gc, Gp.
  destruct (Z.eqb_spec (current_index self + 1) (len (_queue self))) as [E|_]; [lia|].
  cbn [orb] in Gc, Gp.
  split.
  - rewrite Gc, Gp, Grows, Gq, Hrows, Hq.
    destruct (Z.eqb_spec (current_index self) (-1)) as [E|N];
      destruct (Z.ltb_spec 0 (current_index self + 1)); cbn [negb];
      repeat split; lia.
  - intros Hin Hurl Hshow Hsave.
    destruct (getitem_in_range (_queue self) (current_index self + 1) ltac:(lia))
      as (ix & Hnth & Hget).
    destruct (Hin ix (nth_error_In _ _ Hnth)) as [path Hat].
    destruct (next_example_step env ctx self ix path ltac:(lia) Hget Hat Hurl
                (Hshow _ ix (nth_error_In _ _ Hnth)) Hsave)
      as (s1' & Hs1 & H1 & H2 & H3 & H4 & _).
    assert (Es : s1 = s1') by (subst s1; rewrite Hs1; reflexivity).
    exists (Some (current_index self, current_index self + 1, path)).
    assert (Hsave1 : forall c, c <= current_index self + 1 ->
              len (rows s1) - 1 <= c -> auto_save s1 = true -> saveable s1 ctx).
    { intros c Hcle Hge Hauto. rewrite Hrows in Hge. rewrite Hs in Hauto.
      apply (saveable_same self s1 ctx); [exact Hrows| |apply Hsave; [lia|exact Hauto]].
      exact (proj1 (proj2 (proj2 (proj2 (next_example_fields env ctx self))))). }
    destruct (Z.eq_dec (current_index self) (-1)) as [E|N].
    + eexists. split; [rewrite Hs1; reflexivity|].
      apply (prev_example_stay s1 ix path).
      * rewrite Hc. lia.
      * rewrite Hc, Hq. lia.
      * rewrite Hq, Hc. exact Hget.
      * rewrite Hrows. exact Hat.
      * exact Hurl.
      * apply Hshow. exact (nth_error_In _ _ Hnth).
      * apply Hsave1. rewrite Hc. lia.
    + destruct (getitem_in_range (_queue self) (current_index self) ltac:(lia))
        as (ix0 & Hnth0 & Hget0).
      destruct (Hin ix0 (nth_error_In _ _ Hnth0)) as [path0 Hat0].
      eexists. split; [rewrite Hs1; reflexivity|].
      apply (prev_example_step s1 ix0 path0).
      * rewrite Hc. lia.
      * rewrite Hc, Hq. lia.
      * rewrite Hq, Hc. replace (current_index self + 1 - 1) with (current_index self) by lia.
        exact Hget0.
      * rewrite Hrows. exact Hat0.
      * exact Hurl.
      * apply Hshow. exact (nth_error_In _ _ Hnth0).
      * apply Hsave1. rewrite Hc. lia.
Qed.

(** X3.  When the queue holds as many keys as the table has rows, the step
    onto its last element does not show that row: [render] finds the cursor
    on the last row number of the table and prints the closing message.
    When nothing is to be saved or the save goes through, the label buttons
    are disabled and the call returns the image path of that row; when the
    save raises, the call raises [IndexError] after the closing message and
    the buttons stay as they were.  With a table of one row this is the
    first step of the pass. *)
Theorem last_row_not_rendered (self : annotator) (r : row) :
  unique_index (rows self) ->
  0 < len (_queue self) ->
  len (_queue self) = len (rows self) ->
  current_index self = len (_queue self) - 2 ->
  row_at (rows self) (last (_queue self) "") r ->
  ((auto_save self = true -> saveable self ctx) ->
   _next_example env ctx self =
     (set_buttons_disabled
        (if auto_save self
         then emit Saved
                (emit Complete
                   (set_indices self (current_index self) (current_index self + 1)))
         else emit Complete
                (set_indices self (current_index self) (current_index self + 1)))
        true,
      Ok (Some (current_index self, current_index self + 1, image_path r))))
  /\ (auto_save self = true -> unsaveable self ctx ->
      _next_example env ctx self =
        (emit Complete (set_indices self (current_index self) (current_index self + 1)),
         Raise IndexError)).
Proof.
  intros Hu Hpos Hlen Hci Hr.
  assert (Hne : _queue self <> []).
  { intros E. rewrite E in Hpos. unfold len in Hpos. simpl in Hpos. lia. }
  assert (Hget : getitem (_queue self) (current_index self + 1) = Ok (last (_queue self) "")).
  { destruct (getitem_in_range (_queue self) (current_index self + 1) ltac:(lia))
      as (ix & Hnth & Hget).
    rewrite Hget. f_equal.
    pose proof (nth_error_last (_queue self) "" Hne) as Hl.
    replace (Z.to_nat (current_index self + 1)) with (List.length (_queue self) - 1)%nat
      in Hnth by (unfold len in *; lia).
    congruence. }
  pose proof (at_image_path_unique _ _ _ Hu Hr) as Hat.
  set (s1 := set_indices self (current_index self) (current_index self + 1)).
  assert (Hnext : _next_example env ctx self =
            match render_complete env ctx s1 with
            | (self', Raise e) => (self', Raise e)
            | (self', Ok _) =>
                (self', Ok (Some (previous_index self', current_index self', image_path r)))
            end).
  { unfold _next_example.
    destruct (Z.eqb_spec (current_index self) (len (_queue self))) as [E|_]; [lia|].
    fold s1. change (_queue s1) with (_queue self). change (rows s1) with (rows self).
    change (current_index s1) with (current_index self + 1).
    rewrite Hget, Hat.
    rewrite (render_at_last_row env ctx s1)
      by (change (rows s1) with (rows self);
          change (current_index s1) with (current_index self + 1); lia).
    reflexivity. }
  split.
  - intros Hsave. rewrite Hnext.
    rewrite (render_complete_succeeds env ctx s1)
      by (intros Ha; exact (saveable_same self s1 ctx eq_refl eq_refl (Hsave Ha))).
    change (auto_save s1) with (auto_save self).
    destruct (auto_save self); reflexivity.
  - intros Hs Hun. rewrite Hnext.
    rewrite (render_complete_fails env ctx s1 Hs
               (unsaveable_same self s1 ctx eq_refl eq_refl Hun)).
    reflexivity.
Qed.

End Navigation.

Lemma cursor_stays_in_bounds_witness :
  -1 <= current_index
          (presses with_url [] [true; true; true; false; true; false; false] (demo (-1)))
     <= len (_queue (demo (-1)))
  /\ rows (presses with_url [] [true; true; true; false; true; false; false] (demo (-1))) =
     rows (demo (-1))
  /\ _queue (presses with_url [] [true; true; true; false; true; false; false] (demo (-1))) =
     _queue (demo (-1)).
Proof.
  apply (cursor_stays_in_bounds with_url []
           [true; true; true; false; true; false; false] (demo (-1))).
  simpl. unfold len. simpl. lia.
Defined.

Lemma with_url_pictures_shown (keys : list string) : pictures_shown with_url keys.
Proof. intros s ix _. reflexivity. Qed.

Lemma next_then_prev_witness :
  (current_index (fst (_prev_example with_url [] (fst (_next_example with_url [] (demo 0))))) =
     Z.max (current_index (demo 0)) 0
   /\ previous_index
        (fst (_prev_example with_url [] (fst (_next_example with_url [] (demo 0))))) =
      (if current_index (demo 0) =? -1 then -1 else current_index (demo 0) + 1)
   /\ rows (fst (_prev_example with_url [] (fst (_next_example with_url [] (demo 0))))) =
      rows (demo 0)
   /\ _queue (fst (_prev_example with_url [] (fst (_next_example with_url [] (demo 0))))) =
      _queue (demo 0))
  /\ exists r1 r2,
       snd (_next_example with_url [] (demo 0)) = Ok r1
       /\ snd (_prev_example with_url [] (fst (_next_example with_url [] (demo 0)))) = Ok r2.
Proof.
  assert (Hlo : -1 <= current_index (demo 0)) by (simpl; lia).
  assert (Hhi : current_index (demo 0) + 1 < len (_queue (demo 0)))
    by (simpl; unfold len; simpl; lia).
  destruct (next_then_prev with_url [] (demo 0) Hlo Hhi) as [H1 H2].
  split; [exact H1|].
  apply H2.
  - exact (demo_queue_in_table 0).
  - reflexivity.
  - apply with_url_pictures_shown.
  - simpl. unfold len. simpl. lia.
Defined.

(** Two rows, both queued, saving after every annotation. *)
Lemma last_row_not_rendered_witness :
  _next_example with_url []
    (set_indices
       (set_queue
          (fresh [patch_row "patch-0-0-#map_a.png#.png" PyNone;
                  patch_row "patch-10-0-#map_a.png#.png" PyNone] [] [] true)
          ["patch-0-0-#map_a.png#.png"; "patch-10-0-#map_a.png#.png"])
       (-1) 0) =
    (set_buttons_disabled
       (emit Saved
          (emit Complete
             (set_indices
                (set_queue
                   (fresh [patch_row "patch-0-0-#map_a.png#.png" PyNone;
                           patch_row "patch-10-0-#map_a.png#.png" PyNone] [] [] true)
                   ["patch-0-0-#map_a.png#.png"; "patch-10-0-#map_a.png#.png"])
                0 1)))
       true,
     Ok (Some (0, 1, image_path (patch_row "patch-10-0-#map_a.png#.png" PyNone)))).
Proof.
  pose (self :=
          set_indices
            (set_queue
               (fresh [patch_row "patch-0-0-#map_a.png#.png" PyNone;
                       patch_row "patch-10-0-#map_a.png#.png" PyNone] [] [] true)
               ["patch-0-0-#map_a.png#.png"; "patch-10-0-#map_a.png#.png"])
            (-1) 0).
  assert (Hu : unique_index (rows self)).
  { unfold unique_index. simpl. repeat constructor; simpl; intuition discriminate. }
  assert (Hr : row_at (rows self) (last (_queue self) "")
                 (patch_row "patch-10-0-#map_a.png#.png" PyNone))
    by (split; [simpl; tauto|reflexivity]).
  destruct (last_row_not_rendered with_url [] self
              (patch_row "patch-10-0-#map_a.png#.png" PyNone)
              Hu eq_refl eq_refl eq_refl Hr) as [H _].
  apply H. intros _ r Hin Hlab. simpl in Hin.
  destruct Hin as [E|[E|[]]]; subst r; elim Hlab; reflexivity.
Defined.

(** The same step on index labels without [#] and a row that has a label:
    the closing message, then [IndexError] from the save, and the buttons
    stay enabled. *)
Example last_row_save_raises :
  _next_example with_url [] (set_queue (demo 1) ["p1"; "p2"; "p3"]) =
    (emit Complete (set_indices (set_queue (demo 1) ["p1"; "p2"; "p3"]) 1 2),
     Raise IndexError)
  /\ buttons_disabled (fst (_next_example with_url [] (set_queue (demo 1) ["p1"; "p2"; "p3"]))) =
     false.
Proof. vm_compute. split; reflexivity. Qed.

(** ** Recording an annotation *)

Lemma set_label_at_keys (ix a : string) (table : list row) :
  map row_key (set_label_at ix a table) = map row_key table.
Proof.
  unfold set_label_at. rewrite map_map. apply map_ext. intros r.
  destruct (String.eqb (row_key r) ix); reflexivity.
Qed.

Lemma find_row_set_label_at_same (ix a : string) (table : list row) (r : row) :
  find_row table ix = Some r ->
  find_row (set_label_at ix a table) ix = Some (set_label r (PyStr a) true).
Proof.
  unfold find_row, set_label_at.
  induction table as [|r0 table IH]; intros H; simpl in *; [discriminate|].
  destruct (String.eqb (row_key r0) ix) eqn:E.
  - inversion H; subst. simpl. rewrite E. reflexivity.
  - rewrite E. exact (IH H).
Qed.

Lemma find_row_set_label_at_other (ix a k : string) (table : list row) :
  k <> ix -> find_row (set_label_at ix a table) k = find_row table k.
Proof.
  intros Hk. unfold find_row, set_label_at.
  induction table as [|r0 table IH]; simpl; [reflexivity|].
  destruct (String.eqb_spec (row_key r0) ix) as [E|N].
  - simpl. rewrite E.
    destruct (String.eqb_spec ix k); [congruence|]. exact IH.
  - rewrite IH. reflexivity.
Qed.

Lemma in_set_label_at (ix a : string) (table : list row) (r : row) :
  In r (set_label_at ix a table) ->
  exists r0, In r0 table /\ row_key r = row_key r0
             /\ (row_key r0 = ix -> label r = PyStr a)
             /\ (row_key r0 <> ix -> r = r0).
Proof.
  unfold set_label_at. rewrite in_map_iff. intros (r0 & E & Hin).
  exists r0. split; [assumption|].
  destruct (String.eqb_spec (row_key r0) ix); subst r; simpl; tauto.
Qed.

(** In patch mode the label is in the table once the subscript has a value,
    whatever saving and advancing do afterwards. *)
Lemma add_annotation_rows (env : setting) (a : string) (self : annotator)
    (ctx : context_cells) (ix : string) :
  _annotate_context self = false ->
  getitem (_queue self) (current_index self) = Ok ix ->
  rows (fst (fst (_add_annotation env a (self, ctx)))) =
    set_label_at ix a (rows self)
  /\ snd (fst (_add_annotation env a (self, ctx))) = ctx.
Proof.
  intros Hmode Hget. unfold _add_annotation. cbn [fst snd].
  rewrite Hget, Hmode. cbn [fst snd set_rows auto_save].
  destruct (auto_save self).
  - unfold _auto_save.
    destruct (get_labelled_data _ ctx (_labels env) true false true); cbn [fst snd];
      [|split; reflexivity].
    split; [|reflexivity].
    rewrite (proj1 (next_example_fields env ctx _)). reflexivity.
  - cbn [fst snd]. split; [|reflexivity].
    rewrite (proj1 (next_example_fields env ctx _)). reflexivity.
Qed.

(** X8.  In patch mode and with the cursor on a key of the table,
    [_add_annotation] writes the label and the changed flag into the row of
    that key whether or not saving or advancing raises afterwards; every
    other row, the order of the rows and the context cells stay as they
    were. *)
Theorem add_annotation_writes_label (env : setting) (a : string)
    (self : annotator) (ctx : context_cells) (ix : string) (r : row) :
  _annotate_context self = false ->
  getitem (_queue self) (current_index self) = Ok ix ->
  find_row (rows self) ix = Some r ->
  find_row (rows (fst (fst (_add_annotation env a (self, ctx))))) ix =
    Some (set_label r (PyStr a) true)
  /\ (forall k, k <> ix ->
        find_row (rows (fst (fst (_add_annotation env a (self, ctx))))) k =
        find_row (rows self) k)
  /\ map row_key (rows (fst (fst (_add_annotation env a (self, ctx))))) =
     map row_key (rows self)
  /\ snd (fst (_add_annotation env a (self, ctx))) = ctx.
Proof.
  intros Hmode Hget Hfind.
  destruct (add_annotation_rows env a self ctx ix Hmode Hget) as [Hr Hc].
  rewrite Hr, Hc. repeat split.
  - exact (find_row_set_label_at_same ix a _ r Hfind).
  - intros k Hk. exact (find_row_set_label_at_other ix a k _ Hk).
  - apply set_label_at_keys.
Qed.

Lemma add_annotation_writes_label_witness :
  find_row (rows (fst (fst (_add_annotation with_url "road"
                              (patch_demo 0 true, [])))))
    "patch-0-0-#map_b.png#.png" =
    Some (set_label (patch_row "patch-0-0-#map_b.png#.png" PyNone) (PyStr "road") true)
  /\ (forall k, k <> "patch-0-0-#map_b.png#.png" ->
        find_row (rows (fst (fst (_add_annotation with_url "road"
                                    (patch_demo 0 true, []))))) k =
        find_row (rows (patch_demo 0 true)) k)
  /\ map row_key (rows (fst (fst (_add_annotation with_url "road"
                                    (patch_demo 0 true, []))))) =
     map row_key (rows (patch_demo 0 true))
  /\ snd (fst (_add_annotation with_url "road" (patch_demo 0 true, []))) = [].
Proof.
  apply (add_annotation_writes_label with_url "road" (patch_demo 0 true) []
           "patch-0-0-#map_b.png#.png" (patch_row "patch-0-0-#map_b.png#.png" PyNone));
    reflexivity.
Defined.

(** X9.  The annotation of the last queue element, index labels in the form the
    patchifier gives them: the label is written and, with [auto_save], the
    file is saved, and then the call raises [IndexError] from
    [_next_example]; the closing message is not shown and the buttons stay
    enabled. *)
Theorem last_annotation_recorded_then_raises (env : setting) (a : string)
    (self : annotator) (ctx : context_cells) (ix : string) :
  _annotate_context self = false ->
  current_index self = len (_queue self) - 1 ->
  getitem (_queue self) (current_index self) = Ok ix ->
  (forall r, In r (rows self) -> has_hash (row_key r)) ->
  exists self',
    _add_annotation env a (self, ctx) = ((self', ctx), Raise IndexError)
    /\ rows self' = set_label_at ix a (rows self)
    /\ current_index self' = len (_queue self)
    /\ out self' = (if auto_save self then [Saved] else []) ++ out self
    /\ buttons_disabled self' = buttons_disabled self.
Proof.
  intros Hmode Hci Hget Hhash. unfold _add_annotation. cbn [fst snd].
  rewrite Hget, Hmode. cbn [fst snd set_rows auto_save].
  set (s1 := set_rows self (set_label_at ix a (rows self))).
  destruct (auto_save self).
  - rewrite (auto_save_succeeds env ctx s1).
    + rewrite (next_example_from_last env ctx (emit Saved s1)) by exact Hci.
      eexists. split; [reflexivity|]. repeat split.
    + intros r Hr _. destruct (in_set_label_at ix a _ r Hr) as (r0 & Hin & Hk & _).
      rewrite Hk. exact (Hhash r0 Hin).
  - rewrite (next_example_from_last env ctx s1) by exact Hci.
    eexists. split; [reflexivity|]. repeat split.
Qed.

Lemma last_annotation_recorded_then_raises_witness :
  exists self',
    _add_annotation with_url "road" (patch_demo 0 true, []) =
      ((self', []), Raise IndexError)
    /\ rows self' = set_label_at "patch-0-0-#map_b.png#.png" "road" (rows (patch_demo 0 true))
    /\ current_index self' = len (_queue (patch_demo 0 true))
    /\ out self' = (if auto_save (patch_demo 0 true) then [Saved] else [])
                   ++ out (patch_demo 0 true)
    /\ buttons_disabled self' = buttons_disabled (patch_demo 0 true).
Proof.
  apply (last_annotation_recorded_then_raises with_url "road"
           (patch_demo 0 true) [] "patch-0-0-#map_b.png#.png");
    try reflexivity.
  intros r Hr. simpl in Hr.
  destruct Hr as [E|[E|[E|[]]]]; subst r; unfold has_hash; simpl; tauto.
Defined.

(** X10.  With [auto_save] on and an index label without [#] under the cursor,
    [_add_annotation] writes the label into the table and then raises
    [IndexError] from the sort of [get_labelled_data]: nothing is saved and
    the cursor does not move. *)
Theorem annotation_kept_when_save_fails (env : setting) (a : string)
    (self : annotator) (ctx : context_cells) (ix : string) (r : row) :
  _annotate_context self = false ->
  auto_save self = true ->
  getitem (_queue self) (current_index self) = Ok ix ->
  In r (rows self) -> row_key r = ix ->
  ~ has_hash ix ->
  _add_annotation env a (self, ctx) =
    ((set_rows self (set_label_at ix a (rows self)), ctx), Raise IndexError).
Proof.
  intros Hmode Hsave Hget Hin Hkey Hhash. unfold _add_annotation. cbn [fst snd].
  rewrite Hget, Hmode. cbn [fst snd set_rows auto_save]. rewrite Hsave.
  unfold _auto_save.
  rewrite (get_labelled_data_no_hash _ ctx (_labels env) true (set_label r (PyStr a) true)).
  - reflexivity.
  - cbn [rows]. unfold set_label_at. apply in_map_iff. exists r.
    split; [|assumption]. rewrite Hkey, String.eqb_refl. reflexivity.
  - unfold active_label. simpl. rewrite Hmode. discriminate.
  - simpl. rewrite Hkey. exact Hhash.
Qed.

Lemma annotation_kept_when_save_fails_witness :
  _add_annotation with_url "road" (demo 0, []) =
    ((set_rows (demo 0) (set_label_at "p1" "road" (rows (demo 0))), []),
     Raise IndexError).
Proof.
  apply (annotation_kept_when_save_fails with_url "road" (demo 0) [] "p1"
           (unlabelled_row "p1" 0 0)); try reflexivity.
  - simpl. tauto.
  - unfold has_hash. simpl. intros [H|[H|[]]]; discriminate.
Defined.

(** X11.  In context mode [_add_annotation] writes the context cell of the key
    under the cursor and leaves the table, and with it the label column,
    untouched; the context label of every row with that key is the new
    annotation, that of every other row is what it was. *)
Theorem add_annotation_context_mode (env : setting) (a : string)
    (self : annotator) (ctx : context_cells) (ix : string) :
  _annotate_context self = true ->
  getitem (_queue self) (current_index self) = Ok ix ->
  rows (fst (fst (_add_annotation env a (self, ctx)))) = rows self
  /\ snd (fst (_add_annotation env a (self, ctx))) = (ix, a) :: ctx
  /\ forall r,
       active_label (fst (fst (_add_annotation env a (self, ctx))))
         (snd (fst (_add_annotation env a (self, ctx)))) r =
       if String.eqb (row_key r) ix then Some a else active_label self ctx r.
Proof.
  intros Hmode Hget.
  assert (H : rows (fst (fst (_add_annotation env a (self, ctx)))) = rows self
              /\ snd (fst (_add_annotation env a (self, ctx))) = (ix, a) :: ctx
              /\ _annotate_context (fst (fst (_add_annotation env a (self, ctx)))) = true).
  { unfold _add_annotation. cbn [fst snd]. rewrite Hget, Hmode. cbn [fst snd].
    destruct (auto_save self).
    - unfold _auto_save.
      destruct (get_labelled_data self ((ix, a) :: ctx) (_labels env) true false true);
        cbn [fst snd]; [|repeat split; assumption].
      destruct (next_example_fields env ((ix, a) :: ctx) (emit Saved self))
        as (H1 & _ & _ & H4 & _).
      rewrite H1, H4. repeat split. exact Hmode.
    - cbn [fst snd].
      destruct (next_example_fields env ((ix, a) :: ctx) self) as (H1 & _ & _ & H4 & _).
      rewrite H1, H4. repeat split. exact Hmode. }
  destruct H as (H1 & H2 & H3). split; [exact H1|]. split; [exact H2|].
  intros r. unfold active_label. rewrite H3, H2, Hmode. reflexivity.
Qed.

Lemma add_annotation_context_mode_witness :
  rows (fst (fst (_add_annotation with_url "rail" (context_demo true, [])))) =
    rows (context_demo true)
  /\ snd (fst (_add_annotation with_url "rail" (context_demo true, []))) = [("c", "rail")]
  /\ forall r,
       active_label (fst (fst (_add_annotation with_url "rail" (context_demo true, []))))
         (snd (fst (_add_annotation with_url "rail" (context_demo true, [])))) r =
       if String.eqb (row_key r) "c" then Some "rail"
       else active_label (context_demo true) [] r.
Proof.
  apply (add_annotation_context_mode with_url "rail" (context_demo true) [] "c");
    reflexivity.
Defined.

(** ** Resuming and queueing *)

Lemma fillna_twice (y : option string) (x : label_value) :
  fillna y (fillna y x) = fillna y x.
Proof. destruct y; reflexivity. Qed.

(** X12.  Merging the same session file a second time, as when the constructor is
    run again on the merged table, changes nothing.  The index of the file
    is unique. *)
Theorem merge_existing_idempotent (labels : list string) (patch_df : list row)
    (existing : save_file) (merged : list row) :
  NoDup (save_index existing) ->
  merge_existing labels patch_df existing = Ok merged ->
  merge_existing labels merged existing = Ok merged.
Proof.
  intros Hnd H.
  destruct (resolve_labels labels (save_label existing)) as [label_y|e] eqn:Hres.
  - rewrite (merge_existing_unique labels patch_df existing label_y Hnd Hres) in H.
    inversion H; subst merged; clear H.
    rewrite (merge_existing_unique labels _ existing label_y Hnd Hres).
    rewrite map_map. f_equal. apply map_ext. intros r.
    cbn [row_key label set_label]. rewrite fillna_twice. reflexivity.
  - unfold merge_existing in H. rewrite Hres in H. discriminate.
Qed.

Lemma merge_existing_idempotent_witness :
  merge_existing ["rail"; "road"]
    [unlabelled_row "p1" 0 0;
     set_label (unlabelled_row "p2" 10 0) (PyStr "road") true;
     labelled_row "p3"]
    demo_save =
  Ok [unlabelled_row "p1" 0 0;
      set_label (unlabelled_row "p2" 10 0) (PyStr "road") true;
      labelled_row "p3"].
Proof.
  apply (merge_existing_idempotent ["rail"; "road"] demo_table demo_save).
  - simpl. repeat constructor; simpl; intuition discriminate.
  - reflexivity.
Defined.

Lemma eligible_rows_iff (mins maxs : list (string * Q)) (l el : list row) :
  eligible_rows mins maxs l = Ok el ->
  forall r, In r el <-> In r l /\ check_eligibility mins maxs r = Ok true.
Proof.
  revert el. induction l as [|r0 l IH]; intros el H; simpl in H.
  - inversion H; subst. intros r. simpl. tauto.
  - destruct (check_eligibility mins maxs r0) as [b|e] eqn:Ec; simpl in H; [|discriminate].
    destruct (eligible_rows mins maxs l) as [tl|e]; simpl in H; [|discriminate].
    inversion H; subst el; clear H. intros r. specialize (IH tl eq_refl r).
    destruct b; simpl; rewrite ?IH; split.
    + intros [E|[H1 H2]]; [subst; tauto|tauto].
    + intros [[E|H1] H2]; [left; assumption|right; tauto].
    + intros [H1 H2]. tauto.
    + intros [[E|H1] H2]; [subst; congruence|tauto].
Qed.

Lemma eligible_rows_sublist (mins maxs : list (string * Q)) (l el : list row) :
  eligible_rows mins maxs l = Ok el ->
  (List.length el <= List.length l)%nat
  /\ (NoDup (map row_key l) -> NoDup (map row_key el)).
Proof.
  revert el. induction l as [|r0 l IH]; intros el H; simpl in H.
  - inversion H; subst. split; [simpl; lia|intros; constructor].
  - pose proof (eligible_rows_iff mins maxs l) as Hiff.
    destruct (check_eligibility mins maxs r0) as [b|e]; simpl in H; [|discriminate].
    destruct (eligible_rows mins maxs l) as [tl|e]; simpl in H; [|discriminate].
    inversion H; subst el; clear H. destruct (IH tl eq_refl) as [Hlen Hnd].
    split.
    + destruct b; simpl; lia.
    + intros Hd. simpl in Hd. inversion Hd as [|? ? Hnot Hrest]; subst.
      destruct b; [|exact (Hnd Hrest)].
      simpl. constructor; [|exact (Hnd Hrest)].
      intros Hin. apply Hnot. apply in_map_iff in Hin. destruct Hin as (r & Hk & Hr).
      apply in_map_iff. exists r. split; [assumption|].
      exact (proj1 (proj1 (Hiff tl eq_refl r) Hr)).
Qed.

Lemma row_get_error (r : row) (col : string) (e : exn) :
  row_get r col = Raise e -> e = KeyError.
Proof.
  unfold row_get. repeat (destruct (String.eqb col _); [discriminate|]).
  destruct (assoc col (features r)); [discriminate|]. congruence.
Qed.

Lemma bound_tests_raise (r : row) (cmp : Q -> Q -> bool) (bounds : list (string * Q))
    (e : exn) :
  mapM (fun cm => v <- row_get r (fst cm) ;; Ok (cmp (snd cm) v)) bounds = Raise e ->
  e = KeyError /\ exists col m, In (col, m) bounds /\ row_get r col = Raise KeyError.
Proof.
  intros H. apply mapM_raise_inv in H. destruct H as ([col m] & Hin & H). simpl in H.
  destruct (row_get r col) as [v|e'] eqn:E; simpl in H; [discriminate|].
  inversion H; subst e'. pose proof (row_get_error r col e E). subst e.
  split; [reflexivity|]. exists col, m. split; assumption.
Qed.

Lemma bound_tests_missing (r : row) (cmp : Q -> Q -> bool) (bounds : list (string * Q))
    (col : string) (m : Q) :
  In (col, m) bounds -> row_get r col = Raise KeyError ->
  mapM (fun cm => v <- row_get r (fst cm) ;; Ok (cmp (snd cm) v)) bounds = Raise KeyError.
Proof.
  intros Hin Hr. apply mapM_raises.
  - intros [c b] _. simpl. destruct (row_get r c) as [v|e] eqn:E; simpl.
    + right. eexists. reflexivity.
    + left. rewrite (row_get_error r c e E). reflexivity.
  - exists (col, m). split; [assumption|]. simpl. rewrite Hr. reflexivity.
Qed.

Lemma check_eligibility_raises (mins maxs : list (string * Q)) (r : row) (e : exn) :
  check_eligibility mins maxs r = Raise e ->
  e = KeyError /\ label r = PyNone
  /\ exists col m, In (col, m) (mins ++ maxs) /\ row_get r col = Raise KeyError.
Proof.
  unfold check_eligibility. destruct (label r); [|discriminate|discriminate]. intros H.
  destruct (mapM (fun cm => v <- row_get r (fst cm) ;; Ok (Qle_bool (snd cm) v)) mins)
    as [lo|e1] eqn:E1; simpl in H.
  - destruct (mapM (fun cm => v <- row_get r (fst cm) ;; Ok (Qle_bool v (snd cm))) maxs)
      as [hi|e2] eqn:E2; simpl in H; [discriminate|].
    inversion H; subst e2.
    destruct (bound_tests_raise r (fun m v => Qle_bool v m) maxs e E2)
      as (He & col & m & Hin & Hr).
    split; [assumption|]. split; [reflexivity|].
    exists col, m. split; [apply in_or_app; right; assumption|assumption].
  - inversion H; subst e1.
    destruct (bound_tests_raise r Qle_bool mins e E1) as (He & col & m & Hin & Hr).
    split; [assumption|]. split; [reflexivity|].
    exists col, m. split; [apply in_or_app; left; assumption|assumption].
Qed.

Lemma check_eligibility_missing (mins maxs : list (string * Q)) (r : row)
    (col : string) (m : Q) :
  label r = PyNone -> In (col, m) (mins ++ maxs) -> row_get r col = Raise KeyError ->
  check_eligibility mins maxs r = Raise KeyError.
Proof.
  intros Hl Hin Hr. unfold check_eligibility. rewrite Hl.
  destruct (mapM (fun cm => v <- row_get r (fst cm) ;; Ok (Qle_bool (snd cm) v)) mins)
    as [lo|e1] eqn:E1; simpl.
  - apply in_app_or in Hin. destruct Hin as [Hin|Hin].
    + rewrite (bound_tests_missing r Qle_bool mins col m Hin Hr) in E1. discriminate.
    + rewrite (bound_tests_missing r (fun m v => Qle_bool v m) maxs col m Hin Hr).
      reflexivity.
  - destruct (bound_tests_raise r Qle_bool mins e1 E1) as [He _]. congruence.
Qed.

(** X13.  [get_queue] raises nothing but [KeyError], and raises it exactly when a
    row without a label has no column of a name that [min_values] or
    [max_values] constrains; rows that have a label are not looked at. *)
Theorem get_queue_missing_column (sample : list row -> list row) (self : annotator) :
  (forall e, get_queue sample self = Raise e -> e = KeyError)
  /\ (get_queue sample self = Raise KeyError
      <-> exists r col m,
            In r (rows self) /\ label r = PyNone
            /\ In (col, m) (_min_values self ++ _max_values self)
            /\ row_get r col = Raise KeyError).
Proof.
  unfold get_queue.
  set (mins := _min_values self). set (maxs := _max_values self).
  assert (Hraise : forall l e, eligible_rows mins maxs l = Raise e ->
            e = KeyError
            /\ exists r col m, In r l /\ label r = PyNone /\ In (col, m) (mins ++ maxs)
                               /\ row_get r col = Raise KeyError).
  { induction l as [|r0 l IH]; intros e H; simpl in H; [discriminate|].
    destruct (check_eligibility mins maxs r0) as [b|e0] eqn:Ec; simpl in H.
    - destruct (eligible_rows mins maxs l) as [tl|e1]; simpl in H; [discriminate|].
      inversion H; subst e1.
      destruct (IH e eq_refl) as (He & r & col & m & Hin & Hrest).
      split; [assumption|]. exists r, col, m. simpl. tauto.
    - inversion H; subst e0.
      destruct (check_eligibility_raises mins maxs r0 e Ec) as (He & Hl & col & m & Hin & Hr).
      split; [assumption|]. exists r0, col, m. simpl. tauto. }
  assert (Hmiss : forall l r col m,
            In r l -> label r = PyNone -> In (col, m) (mins ++ maxs) ->
            row_get r col = Raise KeyError ->
            eligible_rows mins maxs l = Raise KeyError).
  { induction l as [|r0 l IH]; intros r col m Hin Hl Hc Hr; [destruct Hin|].
    simpl. destruct (check_eligibility mins maxs r0) as [b|e0] eqn:Ec; simpl.
    - destruct Hin as [E|Hin].
      + subst r0. rewrite (check_eligibility_missing mins maxs r col m Hl Hc Hr) in Ec.
        discriminate.
      + rewrite (IH r col m Hin Hl Hc Hr). reflexivity.
    - destruct (check_eligibility_raises mins maxs r0 e0 Ec) as [He _]. congruence. }
  split; [|split].
  - intros e H. destruct (eligible_rows mins maxs (rows self)) as [el|e0] eqn:E;
      simpl in H; [discriminate|].
    inversion H; subst e0. exact (proj1 (Hraise _ _ E)).
  - intros H. destruct (eligible_rows mins maxs (rows self)) as [el|e0] eqn:E;
      simpl in H; [discriminate|].
    destruct (Hraise _ _ E) as (_ & r & col & m & H1 & H2 & H3 & H4).
    exists r, col, m. tauto.
  - intros (r & col & m & H1 & H2 & H3 & H4).
    rewrite (Hmiss (rows self) r col m H1 H2 H3 H4). reflexivity.
Qed.

(** X14.  When the index of the table is unique, [get_queue] queues no key twice,
    and the queue is never longer than the table. *)
Theorem queue_has_no_repeats (sample : list row -> list row) (self : annotator)
    (q : list string) :
  (forall l, Permutation (sample l) l) ->
  NoDup (map row_key (rows self)) ->
  get_queue sample self = Ok q ->
  NoDup q /\ len q <= len (rows self).
Proof.
  intros Hperm Hnd H. unfold get_queue in H.
  destruct (eligible_rows (_min_values self) (_max_values self) (rows self))
    as [el|e] eqn:Hel; simpl in H; [|discriminate].
  inversion H; subst q; clear H.
  destruct (eligible_rows_sublist _ _ _ _ Hel) as [Hlen Hd].
  split.
  - apply (Permutation_NoDup (Permutation_sym (Permutation_map row_key (Hperm el)))).
    exact (Hd Hnd).
  - unfold len. rewrite length_map, (Permutation_length (Hperm el)). lia.
Qed.

Lemma queue_has_no_repeats_witness :
  NoDup ["high"; "low"] /\ len ["high"; "low"] <= len (rows (fresh scored_table [] [] true)).
Proof.
  apply (queue_has_no_repeats (@rev row) (fresh scored_table [] [] true)).
  - intros l. apply Permutation_sym, Permutation_rev.
  - simpl. repeat constructor; simpl; intuition discriminate.
  - reflexivity.
Defined.

Lemma within_bounds_tighter (mins maxs mins' maxs' : list (string * Q)) (r : row) :
  tighter mins maxs mins' maxs' ->
  within_bounds mins' maxs' r -> within_bounds mins maxs r.
Proof.
  intros [Tlo Thi] [Hlo Hhi]. split.
  - intros col m Hin. destruct (Tlo col m Hin) as (m' & Hin' & Hle).
    destruct (Hlo col m' Hin') as (v & Hv & Hle'). exists v. split; [assumption|].
    exact (Qle_trans _ _ _ Hle Hle').
  - intros col m Hin. destruct (Thi col m Hin) as (m' & Hin' & Hle).
    destruct (Hhi col m' Hin') as (v & Hv & Hle'). exists v. split; [assumption|].
    exact (Qle_trans _ _ _ Hle' Hle).
Qed.

(** X15.  Tightening the bounds can only take keys out of the queue: whatever
    order the two queues are drawn in, every key queued under the tighter
    bounds is queued under the looser ones. *)
Theorem tighter_bounds_shrink_queue (sample sample' : list row -> list row)
    (self : annotator) (mins maxs mins' maxs' : list (string * Q))
    (q q' : list string) :
  (forall l, Permutation (sample l) l) ->
  (forall l, Permutation (sample' l) l) ->
  tighter mins maxs mins' maxs' ->
  get_queue sample (set_bounds self mins maxs) = Ok q ->
  get_queue sample' (set_bounds self mins' maxs') = Ok q' ->
  incl q' q.
Proof.
  intros Hp Hp' Ht H H'. unfold get_queue in H, H'.
  cbn [_min_values _max_values rows set_bounds] in H, H'.
  destruct (eligible_rows mins maxs (rows self)) as [el|e] eqn:Hel; simpl in H;
    [|discriminate].
  destruct (eligible_rows mins' maxs' (rows self)) as [el'|e] eqn:Hel'; simpl in H';
    [|discriminate].
  inversion H; subst q. inversion H'; subst q'. clear H H'.
  intros k Hk. apply in_map_iff in Hk. destruct Hk as (r & Hkey & Hr).
  apply (Permutation_in _ (Hp' el')) in Hr.
  apply (eligible_rows_iff _ _ _ _ Hel') in Hr. destruct Hr as [Hin Hc].
  apply check_eligibility_true in Hc. destruct Hc as [Hl Hw].
  apply in_map_iff. exists r. split; [assumption|].
  apply (Permutation_in _ (Permutation_sym (Hp el))).
  apply (eligible_rows_iff _ _ _ _ Hel). split; [assumption|].
  apply check_eligibility_true. split; [assumption|].
  exact (within_bounds_tighter _ _ _ _ r Ht Hw).
Qed.

Lemma tighter_bounds_shrink_queue_witness : incl ["high"] ["high"; "low"].
Proof.
  apply (tighter_bounds_shrink_queue (@rev row) (fun l => l)
           (fresh scored_table [] [] true)
           [("score", 1 # 10)] [] [("score", 5 # 10)] [("score", 8 # 10)]).
  - intros l. apply Permutation_sym, Permutation_rev.
  - intros l. apply Permutation_refl.
  - split.
    + intros col m [E|[]]. inversion E; subst. exists (5 # 10). split; [left; reflexivity|].
      unfold Qle. simpl. lia.
    + intros col m [].
  - reflexivity.
  - reflexivity.
Defined.

(** X16.  A key whose row has a label in the session file, be it the empty
    string, is not queued again after the merge. *)
Theorem resumed_rows_not_requeued (sample : list row -> list row)
    (labels : list string) (patch_df : list row) (existing : save_file)
    (label_y : list (option string)) (merged : list row)
    (mins maxs : list (string * Q)) (autosave : bool) (q : list string)
    (k s : string) :
  (forall l, Permutation (sample l) l) ->
  NoDup (save_index existing) ->
  resolve_labels labels (save_label existing) = Ok label_y ->
  merge_existing labels patch_df existing = Ok merged ->
  get_queue sample (fresh merged mins maxs autosave) = Ok q ->
  saved_label (combine (save_index existing) label_y) k = Some s ->
  ~ In k q.
Proof.
  intros Hp Hnd Hres Hm Hq Hs Hk.
  rewrite (merge_existing_unique labels patch_df existing label_y Hnd Hres) in Hm.
  inversion Hm; subst merged; clear Hm.
  unfold get_queue in Hq. cbn [_min_values _max_values rows fresh] in Hq.
  match type of Hq with
  | bind (eligible_rows mins maxs ?t) _ = _ =>
      destruct (eligible_rows mins maxs t) as [el|e] eqn:Hel; simpl in Hq; [|discriminate]
  end.
  inversion Hq; subst q; clear Hq.
  apply in_map_iff in Hk. destruct Hk as (r & Hkey & Hr).
  apply (Permutation_in _ (Hp el)) in Hr.
  apply (eligible_rows_iff _ _ _ _ Hel) in Hr. destruct Hr as [Hin Hc].
  apply check_eligibility_true in Hc. destruct Hc as [Hl _].
  apply in_map_iff in Hin. destruct Hin as (r0 & E & _).
  subst r. cbn [row_key label set_label] in Hkey, Hl.
  rewrite Hkey, Hs in Hl. discriminate.
Qed.

Lemma resumed_rows_not_requeued_witness : ~ In "p2" ["p1"].
Proof.
  apply (resumed_rows_not_requeued (fun l => l) ["rail"; "road"] demo_table demo_save
           [Some "road"; None]
           [unlabelled_row "p1" 0 0;
            set_label (unlabelled_row "p2" 10 0) (PyStr "road") true;
            labelled_row "p3"]
           [] [] true ["p1"] "p2" "road").
  - intros l. apply Permutation_refl.
  - simpl. repeat constructor; simpl; intuition discriminate.
  - reflexivity.
  - reflexivity.
  - reflexivity.
  - reflexivity.
Defined.

(** ** Files written *)

Lemma substring_prefix (s t : string) :
  substring 0 (String.length s) (s ++ t) = s.
Proof.
  induction s as [|c s IH]; simpl.
  - destruct t; reflexivity.
  - rewrite IH. reflexivity.
Qed.

Lemma drop_last4_append (s t : string) :
  String.length t = 4%nat -> drop_last4 (s ++ t) = s.
Proof.
  intros H. unfold drop_last4. rewrite string_length_append, H.
  replace (String.length s + 4 - 4)%nat with (String.length s) by lia.
  apply substring_prefix.
Qed.

Lemma drop_last4_length (s : string) :
  String.length (drop_last4 s) = (String.length s - 4)%nat.
Proof.
  unfold drop_last4.
  assert (H : forall n t, (n <= String.length t)%nat ->
                String.length (substring 0 n t) = n).
  { induction n as [|n IH]; intros [|c t] Hn; simpl in *; try reflexivity; try lia.
    rewrite IH by lia. reflexivity. }
  apply H. lia.
Qed.

Lemma os_path_join_append (a : string) (c : ascii) (b ext : string) :
  os_path_join a (String c b ++ ext) = (os_path_join a (String c b) ++ ext)%string.
Proof.
  change (String c b ++ ext)%string with (String c (b ++ ext)).
  unfold os_path_join.
  destruct (Ascii.eqb c "/"%char); [reflexivity|].
  destruct (String.eqb a "" || ends_with_slash a).
  - rewrite append_assoc. reflexivity.
  - rewrite append_assoc. reflexivity.
Qed.

Lemma file_name_stem (t u id : string) :
  (t ++ "_#" ++ u ++ "#-" ++ id ++ ".csv")%string =
  ((t ++ "_#" ++ u ++ "#-" ++ id) ++ ".csv")%string.
Proof.
  induction t as [|c t IH]; simpl; [|f_equal; exact IH].
  do 2 f_equal. induction u as [|c u IH]; simpl; [reflexivity|f_equal; exact IH].
Qed.

(** X17.  The file [_auto_save] writes in context mode lies beside the session
    file: the session file ends in [.csv], and the context file has the same
    name with [_context.csv] in its place.  The two names differ whatever
    the session file is called, so a context pass does not overwrite the
    labels of a patch pass. *)
Theorem context_file_beside_session_file (dir : string) (paths : list string)
    (username task_name : option string) (random_name : string) :
  (exists stem,
     annotations_file dir paths username task_name random_name = (stem ++ ".csv")%string
     /\ save_name (annotations_file dir paths username task_name random_name) true =
        (stem ++ "_context.csv")%string)
  /\ forall file, save_name file true <> save_name file false.
Proof.
  split.
  - unfold annotations_file.
    set (u := or_default username random_name).
    set (t := replace_spaces (or_default task_name "task")).
    set (id := MD5.hexdigest (json_dumps (sorted paths))).
    assert (E : exists c b, (t ++ "_#" ++ u ++ "#-" ++ id ++ ".csv")%string =
                            (String c b ++ ".csv")%string).
    { rewrite file_name_stem. destruct t as [|c t].
      - exists "_"%char, ("#" ++ u ++ "#-" ++ id)%string. reflexivity.
      - exists c, (t ++ "_#" ++ u ++ "#-" ++ id)%string. reflexivity. }
    destruct E as (c & b & E). rewrite E, os_path_join_append.
    eexists. split; [reflexivity|].
    unfold save_name. rewrite drop_last4_append by reflexivity. reflexivity.
  - intros file H. unfold save_name in H.
    assert (L : String.length (drop_last4 file ++ "_context.csv") = String.length file)
      by (rewrite H; reflexivity).
    rewrite string_length_append, drop_last4_length in L. simpl in L. lia.
Qed.

(** X18.  Where the session file goes.  A task name that begins with a slash makes
    [os.path.join] drop [annotations_dir], so the file is the absolute path
    the task name starts; in every other case the file is its name put
    after the directory, with a slash between the two unless the directory
    is empty or ends in one. *)
Theorem session_file_location (dir : string) (paths : list string)
    (username task_name : option string) (random_name : string) :
  annotations_file dir paths username task_name random_name =
    if String.prefix "/" (or_default task_name "task")
    then annotations_file "" paths username task_name random_name
    else if String.eqb dir "" || ends_with_slash dir
         then (dir ++ annotations_file "" paths username task_name random_name)%string
         else (dir ++ "/" ++ annotations_file "" paths username task_name random_name)%string.
Proof.
  unfold annotations_file.
  set (u := or_default username random_name).
  set (id := MD5.hexdigest (json_dumps (sorted paths))).
  destruct (or_default task_name "task") as [|c t].
  - reflexivity.
  - cbn [replace_spaces String.prefix append os_path_join].
    destruct (Ascii.eqb_spec c " "%char) as [E|N].
    + subst c. reflexivity.
    + destruct (ascii_dec "/" c) as [E|N'].
      * subst c. destruct t; reflexivity.
      * destruct (Ascii.eqb_spec c "/"%char) as [E|_]; [congruence|].
        cbn [String.eqb orb append]. reflexivity.
Qed.

(** ** Shape of the context grid *)

Lemma split_sizes_lengths {A : Type} (sizes : list nat) :
  forall l : list A,
    (list_sum sizes <= List.length l)%nat ->
    map (@List.length A) (split_sizes sizes l) = sizes.
Proof.
  induction sizes as [|k sizes IH]; intros l H; simpl in *; [reflexivity|].
  rewrite length_firstn, IH by (rewrite length_skipn; lia).
  f_equal. lia.
Qed.

(** [array_split] of [k * k] elements into [k] sections gives sections of
    [k] elements each. *)
Lemma array_split_square {A : Type} (l : list A) (k : nat) (chunks : list (list A)) :
  List.length l = (k * k)%nat ->
  array_split l (Z.of_nat k) = Ok chunks ->
  map (@List.length A) chunks = repeat k k.
Proof.
  intros Hlen. unfold array_split.
  destruct (Z.leb_spec (Z.of_nat k) 0) as [_|Hk]; [discriminate|].
  rewrite Nat2Z.id, Hlen.
  rewrite Nat.div_mul by lia. rewrite Nat.Div0.mod_mul.
  intros H. inversion H; subst chunks; clear H.
  simpl repeat. rewrite Nat.sub_0_r. simpl app.
  apply split_sizes_lengths. rewrite list_sum_repeat, Hlen. lia.
Qed.

Lemma product_length {A B : Type} (ys : list A) (xs : list B) :
  List.length (product ys xs) = (List.length ys * List.length xs)%nat.
Proof.
  unfold product. induction ys as [|y ys IH]; simpl; [reflexivity|].
  rewrite length_app, length_map, IH. reflexivity.
Qed.

Lemma nth_error_product {A B : Type} (ys : list A) (xs : list B) (i j : nat)
    (y : A) (x : B) :
  nth_error ys i = Some y -> nth_error xs j = Some x ->
  nth_error (product ys xs) (i * List.length xs + j) = Some (y, x).
Proof.
  unfold product. revert i. induction ys as [|y0 ys IH]; intros i Hy Hx.
  - destruct i; discriminate.
  - destruct i as [|i]; simpl in Hy |- *.
    + inversion Hy; subst. rewrite nth_error_app1.
      * rewrite nth_error_map, Hx. reflexivity.
      * rewrite length_map. apply nth_error_Some. congruence.
    + rewrite nth_error_app2 by (rewrite length_map; lia).
      rewrite length_map.
      replace (List.length xs + i * List.length xs + j - List.length xs)%nat
        with (i * List.length xs + j)%nat by lia.
      exact (IH i Hy Hx).
Qed.

Lemma nth_error_concat_uniform {A : Type} (k : nat) (chunks : list (list A)) (i j : nat)
    (c : list A) (x : A) :
  Forall (fun c => List.length c = k) chunks ->
  nth_error chunks i = Some c -> nth_error c j = Some x ->
  nth_error (List.concat chunks) (i * k + j) = Some x.
Proof.
  intros Hall. revert i. induction Hall as [|c0 chunks Hc0 Hall IH]; intros i Hc Hx.
  - destruct i; discriminate.
  - destruct i as [|i]; simpl in Hc |- *.
    + inversion Hc; subst. rewrite nth_error_app1; [exact Hx|].
      apply nth_error_Some. congruence.
    + rewrite nth_error_app2 by lia.
      replace (k + i * k + j - List.length c0)%nat with (i * k + j)%nat by lia.
      exact (IH i Hc Hx).
Qed.

Lemma nth_error_range (lo hi : Z) (i : nat) :
  Z.of_nat i < hi - lo -> nth_error (range lo hi) i = Some (lo + Z.of_nat i).
Proof.
  intros H. unfold range. rewrite nth_error_map.
  rewrite nth_error_seq.
  destruct (Nat.ltb_spec i (Z.to_nat (hi - lo))); [reflexivity|lia].
Qed.

Section ContextShape.

Variable open_image : string -> picture.

Lemma deltas_length (self : annotator) :
  List.length (deltas self) = Z.to_nat (2 * surrounding self + 1).
Proof. unfold deltas. rewrite range_length. f_equal. lia. Qed.

Lemma y_and_x_length (self : annotator) (focal : row) (hw : Z * Z) :
  List.length (y_and_x self focal hw) =
    (List.length (deltas self) * List.length (deltas self))%nat.
Proof. unfold y_and_x. rewrite product_length, !length_map. reflexivity. Qed.

Lemma get_context_shape (self : annotator) (ix : string) (focal : row)
    (images : list (list tile)) (size : Z * Z) :
  getitem (_queue self) (current_index self) = Ok ix ->
  find_row (rows self) ix = Some focal ->
  get_context open_image self = Ok (images, size) ->
  map (@List.length tile) images =
    repeat (Z.to_nat (2 * surrounding self + 1)) (Z.to_nat (2 * surrounding self + 1)).
Proof.
  intros Hget Hfind. unfold get_context. rewrite Hget. simpl bind. rewrite Hfind.
  set (hw := tile_size open_image focal).
  set (items := map (query (parent_frame self focal)) (y_and_x self focal hw)).
  set (image_list := combine _ _).
  destruct (array_split image_list (len (deltas self))) as [chunks|e] eqn:Hsplit;
    simpl bind; [|discriminate].
  intros H. inversion H; subst images; clear H.
  rewrite map_map.
  rewrite (map_ext _ (@List.length (option string * bool)))
    by (intros c; apply length_map).
  rewrite <- deltas_length.
  apply (array_split_square image_list); [|exact Hsplit].
  subst image_list items. rewrite length_combine, !length_map, Nat.min_id.
  apply y_and_x_length.
Qed.

(** X19.  With [surrounding] not negative, the grid of [get_context] has
    [2 * surrounding + 1] rows of [2 * surrounding + 1] cells each, and the
    canvas is that many tile widths wide and tile heights high. *)
Theorem context_grid_shape (self : annotator) (ix : string) (focal : row) :
  getitem (_queue self) (current_index self) = Ok ix ->
  find_row (rows self) ix = Some focal ->
  0 <= surrounding self ->
  exists images,
    get_context open_image self =
      Ok (images,
          ((2 * surrounding self + 1) * snd (tile_size open_image focal),
           (2 * surrounding self + 1) * fst (tile_size open_image focal)))
    /\ len images = 2 * surrounding self + 1
    /\ Forall (fun cells => len cells = 2 * surrounding self + 1) images.
Proof.
  intros Hget Hfind Hs.
  destruct (get_context_cells open_image self ix focal Hget Hfind Hs) as [images [Hctx _]].
  exists images. split; [exact Hctx|].
  pose proof (get_context_shape self ix focal images _ Hget Hfind Hctx) as Hshape.
  split.
  - unfold len. rewrite <- (length_map (@List.length tile)), Hshape, repeat_length. lia.
  - apply Forall_forall. intros cells Hin.
    apply (in_map (@List.length tile)) in Hin. rewrite Hshape in Hin.
    apply repeat_spec in Hin. unfold len. rewrite Hin. lia.
Qed.

(** X20.  A negative [surrounding] leaves no row to split the cells into, and
    [array_split] raises [ValueError]. *)
Theorem context_negative_surrounding (self : annotator) (ix : string) (focal : row) :
  getitem (_queue self) (current_index self) = Ok ix ->
  find_row (rows self) ix = Some focal ->
  surrounding self < 0 ->
  get_context open_image self = Raise ValueError.
Proof.
  intros Hget Hfind Hs. unfold get_context. rewrite Hget. simpl bind. rewrite Hfind.
  unfold len at 1. rewrite deltas_length.
  replace (Z.to_nat (2 * surrounding self + 1)) with 0%nat by lia.
  reflexivity.
Qed.

(** X21.  The cell in the middle of the grid is the focal tile, as it is on disk,
    when no other row of its parent has its origin and its path is not
    empty. *)
Theorem context_focal_at_centre (self : annotator) (ix : string) (focal : row) :
  getitem (_queue self) (current_index self) = Ok ix ->
  find_row (rows self) ix = Some focal ->
  0 <= surrounding self ->
  query (parent_frame self focal) (min_y focal, min_x focal) = [focal] ->
  image_path focal <> "" ->
  exists images size cells,
    get_context open_image self = Ok (images, size)
    /\ getitem images (surrounding self) = Ok cells
    /\ getitem cells (surrounding self) = Ok (Picture (open_image (image_path focal))).
Proof.
  intros Hget Hfind Hs Hq Hpath.
  destruct (get_context_cells open_image self ix focal Hget Hfind Hs)
    as [images [Hctx Hcells]].
  pose proof (get_context_shape self ix focal images _ Hget Hfind Hctx) as Hshape.
  set (k := Z.to_nat (2 * surrounding self + 1)) in *.
  set (s := Z.to_nat (surrounding self)).
  assert (Hlen : len images = 2 * surrounding self + 1).
  { unfold len. rewrite <- (length_map (@List.length tile)), Hshape, repeat_length.
    subst k. lia. }
  assert (Hall : Forall (fun c => List.length c = k) images).
  { apply Forall_forall. intros c Hin.
    apply (in_map (@List.length tile)) in Hin. rewrite Hshape in Hin.
    exact (repeat_spec _ _ _ Hin). }
  destruct (getitem_in_range images (surrounding self) ltac:(lia)) as (cells & Hn1 & Hg1).
  assert (Hck : List.length cells = k).
  { rewrite Forall_forall in Hall. exact (Hall cells (nth_error_In _ _ Hn1)). }
  destruct (getitem_in_range cells (surrounding self)) as (c & Hn2 & Hg2).
  { unfold len. rewrite Hck. subst k. lia. }
  exists images. eexists. exists cells. split; [exact Hctx|]. split; [exact Hg1|].
  rewrite Hg2. f_equal.
  pose proof (nth_error_concat_uniform k images s s cells c Hall Hn1 Hn2) as Hc.
  rewrite Hcells, nth_error_map in Hc.
  assert (Hd : nth_error (deltas self) s = Some 0).
  { unfold deltas. rewrite nth_error_range by (subst s; lia). f_equal. subst s. lia. }
  assert (Hyx : nth_error (y_and_x self focal (tile_size open_image focal)) (s * k + s) =
                Some (min_y focal, min_x focal)).
  { unfold y_and_x.
    replace k with (List.length
                      (map (fun x_delta => min_x focal
                                           + x_delta * snd (tile_size open_image focal))
                         (deltas self)))
      by (rewrite length_map; apply deltas_length).
    rewrite (nth_error_product _ _ s s (min_y focal) (min_x focal)); [reflexivity| |].
    - rewrite nth_error_map, Hd. simpl. f_equal. lia.
    - rewrite nth_error_map, Hd. simpl. f_equal. lia. }
  rewrite Hyx in Hc. simpl in Hc. inversion Hc as [Ec]. clear Hc.
  rewrite Hq. unfold cell.
  destruct (String.eqb_spec (image_path focal) "") as [E|_]; [contradiction|].
  unfold find_row in Hfind. apply find_some in Hfind. destruct Hfind as [_ Hkey].
  unfold get_path. rewrite Hkey. simpl negb.
  destruct (_annotate_context self); reflexivity.
Qed.

End ContextShape.

Lemma context_grid_shape_witness :
  exists images,
    get_context disk (context_demo false) =
      Ok (images,
          ((2 * surrounding (context_demo false) + 1)
           * snd (tile_size disk (tile_row "c" "map" 0 0)),
           (2 * surrounding (context_demo false) + 1)
           * fst (tile_size disk (tile_row "c" "map" 0 0))))
    /\ len images = 2 * surrounding (context_demo false) + 1
    /\ Forall (fun cells => len cells = 2 * surrounding (context_demo false) + 1) images.
Proof.
  destruct (context_demo_focal false) as (H1 & H2 & H3).
  exact (context_grid_shape disk (context_demo false) "c" (tile_row "c" "map" 0 0)
           H1 H2 H3).
Defined.

Lemma context_negative_surrounding_witness :
  get_context disk (set_mode (context_demo false) false (-1)) = Raise ValueError.
Proof.
  apply (context_negative_surrounding disk (set_mode (context_demo false) false (-1))
           "c" (tile_row "c" "map" 0 0)).
  - reflexivity.
  - reflexivity.
  - simpl. lia.
Defined.

Lemma context_focal_at_centre_witness :
  exists images size cells,
    get_context disk (context_demo false) = Ok (images, size)
    /\ getitem images (surrounding (context_demo false)) = Ok cells
    /\ getitem cells (surrounding (context_demo false)) =
       Ok (Picture (disk (image_path (tile_row "c" "map" 0 0)))).
Proof.
  destruct (context_demo_focal false) as (H1 & H2 & H3).
  apply (context_focal_at_centre disk (context_demo false) "c" (tile_row "c" "map" 0 0)
           H1 H2 H3).
  - reflexivity.
  - discriminate.
Defined.

(** ** Dimming *)

(** X22.  On every [uint8] sample the dimming makes the sample lighter, never
    darker and never below 153; white is the only sample it leaves alone,
    and it keeps the order of samples. *)
Theorem lighten_never_darkens (a b : Z) :
  0 <= a <= b -> b <= 255 ->
  a <= lighten a <= 255
  /\ 153 <= lighten a
  /\ (lighten a = a <-> a = 255)
  /\ lighten a <= lighten b.
Proof.
  intros Ha Hb.
  rewrite (lighten_closed_form a) by lia. rewrite (lighten_closed_form b) by lia.
  pose proof (Z.div_mod (768 + 2 * a) 5 ltac:(lia)) as Da.
  pose proof (Z.mod_pos_bound (768 + 2 * a) 5 ltac:(lia)) as Ma.
  pose proof (Z.div_mod (768 + 2 * b) 5 ltac:(lia)) as Db.
  pose proof (Z.mod_pos_bound (768 + 2 * b) 5 ltac:(lia)) as Mb.
  repeat split; lia.
Qed.

Lemma lighten_never_darkens_witness :
  100 <= lighten 100 <= 255
  /\ 153 <= lighten 100
  /\ (lighten 100 = 100 <-> 100 = 255)
  /\ lighten 100 <= lighten 200.
Proof. apply (lighten_never_darkens 100 200); lia. Defined.

(** ** Label list and buttons *)

Lemma existsb_eqb_in (x : string) (seen : list string) :
  existsb (String.eqb x) seen = true <-> In x seen.
Proof.
  rewrite existsb_exists. split.
  - intros (y & Hin & E). apply String.eqb_eq in E. subst. exact Hin.
  - intros H. exists x. split; [exact H|apply String.eqb_refl].
Qed.

Lemma uniq_from_in (labels : list string) :
  forall seen x, In x (uniq_from seen labels) <-> In x labels /\ ~ In x seen.
Proof.
  induction labels as [|y rest IH]; intros seen x; simpl; [tauto|].
  destruct (existsb (String.eqb y) seen) eqn:E.
  - apply existsb_eqb_in in E. rewrite IH. split.
    + tauto.
    + intros [[Hy|Hin] Hs]; [subst; contradiction|tauto].
  - assert (Hy : ~ In y seen) by (rewrite <- existsb_eqb_in; congruence).
    simpl. rewrite IH. simpl. split.
    + intros [Hx|[Hin Hs]]; [subst; tauto|tauto].
    + intros [[Hx|Hin] Hs]; [tauto|].
      destruct (string_dec y x); [tauto|]. right. tauto.
Qed.

Lemma uniq_from_nodup (labels : list string) :
  forall seen, NoDup (uniq_from seen labels).
Proof.
  induction labels as [|y rest IH]; intros seen; simpl; [constructor|].
  destruct (existsb (String.eqb y) seen); [apply IH|].
  constructor; [|apply IH]. rewrite uniq_from_in. simpl. tauto.
Qed.

Lemma uniq_from_fixed (labels : list string) :
  forall seen,
    NoDup labels -> (forall x, In x labels -> ~ In x seen) ->
    uniq_from seen labels = labels.
Proof.
  induction labels as [|y rest IH]; intros seen Hnd Hs; simpl; [reflexivity|].
  inversion Hnd as [|? ? Hy Hrest]; subst.
  destruct (existsb (String.eqb y) seen) eqn:E.
  - apply existsb_eqb_in in E. exfalso. exact (Hs y (or_introl eq_refl) E).
  - f_equal. apply IH; [assumption|].
    intros x Hx [Hx'|Hx']; [subst; contradiction|].
    exact (Hs x (or_intror Hx) Hx').
Qed.

Lemma index_of_app (x : string) (pre l : list string) :
  ~ In x pre ->
  index_of x (pre ++ l) = bind (index_of x l) (fun i => Ok (i + len pre)).
Proof.
  induction pre as [|y pre IH]; intros H; simpl.
  - destruct (index_of x l); simpl; [f_equal; unfold len; simpl; lia|reflexivity].
  - destruct (String.eqb_spec x y) as [E|N]; [subst; simpl in H; tauto|].
    rewrite IH by (simpl in H; tauto).
    destruct (index_of x l); simpl; [|reflexivity].
    f_equal. unfold len. simpl List.length. lia.
Qed.

Lemma index_of_in (x : string) (l : list string) :
  In x l -> exists i, index_of x l = Ok i /\ 0 <= i.
Proof.
  intros H. destruct (index_of_cases x l) as [[_ [i Hi]]|[Hn _]]; [|contradiction].
  exists i. split; [exact Hi|]. exact (proj1 (proj1 (index_of_ok x l i Hi))).
Qed.

Lemma uniq_from_sorted (l : list string) :
  forall pre seen,
    (forall x, In x seen <-> In x pre) ->
    StronglySorted (first_before (pre ++ l)) (uniq_from seen l).
Proof.
  induction l as [|y rest IH]; intros pre seen Hseen; simpl; [constructor|].
  assert (Happ : pre ++ y :: rest = (pre ++ [y]) ++ rest)
    by (rewrite <- app_assoc; reflexivity).
  destruct (existsb (String.eqb y) seen) eqn:E.
  - apply existsb_eqb_in in E. rewrite Happ. apply IH.
    intros x. rewrite in_app_iff, Hseen. simpl. split; [tauto|].
    intros [H|[H|[]]]; [assumption|]. subst. apply Hseen. assumption.
  - assert (Hy : ~ In y pre).
    { rewrite <- Hseen, <- existsb_eqb_in. congruence. }
    constructor.
    + rewrite Happ. apply IH. intros x. rewrite in_app_iff. simpl. rewrite Hseen. tauto.
    + apply Forall_forall. intros x Hx. apply uniq_from_in in Hx.
      destruct Hx as [Hin Hns]. simpl in Hns.
      assert (Hxy : x <> y) by (intros ->; tauto).
      assert (Hxp : ~ In x pre) by (rewrite <- Hseen; tauto).
      destruct (index_of_in x rest Hin) as (i & Hi & Hi0).
      exists (len pre), (i + 1 + len pre). repeat split.
      * rewrite (index_of_app y pre _ Hy). simpl. rewrite String.eqb_refl. reflexivity.
      * rewrite (index_of_app x pre _ Hxp). simpl.
        destruct (String.eqb_spec x y); [contradiction|]. rewrite Hi. reflexivity.
      * lia.
Qed.

(** X23.  The label list the constructor keeps, [sorted(set(labels),
    key=labels.index)]: it has no duplicates and the same members as the
    list given, they stand in the order of their first occurrence, and a
    list without duplicates is kept as it is. *)
Theorem uniq_spec (labels : list string) :
  NoDup (uniq labels)
  /\ (forall x, In x (uniq labels) <-> In x labels)
  /\ StronglySorted (first_before labels) (uniq labels)
  /\ (NoDup labels -> uniq labels = labels)
  /\ uniq (uniq labels) = uniq labels.
Proof.
  unfold uniq. split; [apply uniq_from_nodup|]. split; [|split; [|split]].
  - intros x. rewrite uniq_from_in. simpl. tauto.
  - apply (uniq_from_sorted labels [] []). tauto.
  - intros H. apply uniq_from_fixed; [assumption|]. intros x _ [].
  - apply uniq_from_fixed; [apply uniq_from_nodup|]. intros x _ [].
Qed.

Lemma slices_concat {A : Type} (p : nat) :
  forall (m : nat) (l : list A),
    (List.length l <= m * p)%nat ->
    List.concat (map (fun k => firstn p (skipn (k * p) l)) (seq 0 m)) = l.
Proof.
  induction m as [|m IH]; intros l H.
  - destruct l; [reflexivity|simpl in H; lia].
  - simpl seq. rewrite <- seq_shift. cbn [map]. rewrite map_map. cbn [List.concat].
    change (0 * p)%nat with 0%nat. cbn [skipn].
    rewrite (map_ext _ (fun k => firstn p (skipn (k * p) (skipn p l)))).
    + rewrite IH by (rewrite length_skipn; lia). apply firstn_skipn.
    + intros k. rewrite skipn_skipn. f_equal. f_equal. lia.
Qed.

Lemma buttons_per_row_range (n : Z) : 2 <= buttons_per_row n <= 5.
Proof.
  unfold buttons_per_row.
  destruct (n mod 2 =? 0); [destruct (4 <? n)|destruct (n =? 3)]; lia.
Qed.

Lemma setup_box_rows (buttons : list string) (per_row : Z) :
  0 < per_row ->
  box_rows (_setup_box buttons per_row) =
    if per_row <? len buttons
    then map (fun k => firstn (Z.to_nat per_row) (skipn (k * Z.to_nat per_row) buttons))
           (seq 0 (Z.to_nat ((len buttons + per_row - 1) / per_row)))
    else [buttons].
Proof.
  intros Hp. unfold _setup_box. destruct (per_row <? len buttons); [|reflexivity].
  unfold box_rows, range_step. rewrite map_map. apply map_ext. intros k.
  unfold slice. f_equal; [f_equal; lia|]. f_equal. nia.
Qed.

(** X24.  The box of label buttons, for a positive number of buttons per row: the
    rows put side by side give the buttons in the order of the labels, no
    row is longer than [buttons_per_row], and when there are more buttons
    than fit one row no row is empty and there are
    [ceil(len(buttons) / buttons_per_row)] rows.  The number the
    constructor picks is between 2 and 5. *)
Theorem setup_box_layout (buttons : list string) (per_row : Z) :
  0 < per_row ->
  List.concat (box_rows (_setup_box buttons per_row)) = buttons
  /\ Forall (fun cells => len cells <= per_row) (box_rows (_setup_box buttons per_row))
  /\ (per_row < len buttons ->
      Forall (fun cells => 0 < len cells) (box_rows (_setup_box buttons per_row))
      /\ len (box_rows (_setup_box buttons per_row)) =
         (len buttons + per_row - 1) / per_row)
  /\ 2 <= buttons_per_row (len buttons) <= 5.
Proof.
  intros Hp. rewrite (setup_box_rows buttons per_row Hp).
  pose proof (Z.div_mod (len buttons + per_row - 1) per_row ltac:(lia)) as Hd.
  pose proof (Z.mod_pos_bound (len buttons + per_row - 1) per_row Hp) as Hm.
  set (q := (len buttons + per_row - 1) / per_row) in *.
  assert (Hn : 0 <= len buttons) by (unfold len; lia).
  split; [|split; [|split]].
  - destruct (Z.ltb_spec per_row (len buttons)) as [Hlt|Hge].
    + apply slices_concat. unfold len in *. nia.
    + simpl. apply app_nil_r.
  - destruct (Z.ltb_spec per_row (len buttons)) as [Hlt|Hge].
    + apply Forall_forall. intros cells Hin. apply in_map_iff in Hin.
      destruct Hin as (k & E & _). subst cells. unfold len.
      rewrite length_firstn. lia.
    + constructor; [exact Hge|constructor].
  - intros Hlt. destruct (Z.ltb_spec per_row (len buttons)) as [_|Hge]; [|lia].
    split.
    + apply Forall_forall. intros cells Hin. apply in_map_iff in Hin.
      destruct Hin as (k & E & Hk). subst cells. apply in_seq in Hk. unfold len in *.
      rewrite length_firstn, length_skipn. nia.
    + unfold len at 1. rewrite length_map, length_seq. nia.
  - apply buttons_per_row_range.
Qed.

Lemma setup_box_layout_witness :
  List.concat (box_rows (_setup_box ["a"; "b"; "c"; "d"; "e"; "f"; "g"] 5)) =
    ["a"; "b"; "c"; "d"; "e"; "f"; "g"]
  /\ Forall (fun cells => len cells <= 5)
       (box_rows (_setup_box ["a"; "b"; "c"; "d"; "e"; "f"; "g"] 5))
  /\ (5 < len ["a"; "b"; "c"; "d"; "e"; "f"; "g"] ->
      Forall (fun cells => 0 < len cells)
        (box_rows (_setup_box ["a"; "b"; "c"; "d"; "e"; "f"; "g"] 5))
      /\ len (box_rows (_setup_box ["a"; "b"; "c"; "d"; "e"; "f"; "g"] 5)) =
         (len ["a"; "b"; "c"; "d"; "e"; "f"; "g"] + 5 - 1) / 5)
  /\ 2 <= buttons_per_row (len ["a"; "b"; "c"; "d"; "e"; "f"; "g"]) <= 5.
Proof. apply (setup_box_layout ["a"; "b"; "c"; "d"; "e"; "f"; "g"] 5). lia. Defined.

(** ** Starting a pass *)

Lemma next_example_renders (env : setting) (ctx : context_cells) (self : annotator)
    (ix path : string) :
  current_index self <> len (_queue self) ->
  getitem (_queue self) (current_index self + 1) = Ok ix ->
  at_image_path (rows self) ix = Ok path ->
  current_index self + 1 < len (rows self) - 1 ->
  url_column env = true ->
  show_picture env (set_indices self (current_index self) (current_index self + 1)) ix =
    Ok tt ->
  _next_example env ctx self =
    (emit (Rendered ix) (set_indices self (current_index self) (current_index self + 1)),
     Ok (Some (current_index self, current_index self + 1, path))).
Proof.
  intros Hne Hget Hat Hlt Hurl Hshow. unfold _next_example.
  destruct (Z.eqb_spec (current_index self) (len (_queue self))); [contradiction|].
  set (s1 := set_indices self (current_index self) (current_index self + 1)) in *.
  change (_queue s1) with (_queue self). change (rows s1) with (rows self).
  change (current_index s1) with (current_index self + 1).
  rewrite Hget, Hat.
  rewrite (render_shows env ctx s1 ix path Hlt Hget Hat Hshow), Hurl. reflexivity.
Qed.


Lemma annotate_fields (env : setting) (ctx : context_cells)
    (sample : list row -> list row)
    (min_values max_values : option (list (string * Q))) (self : annotator) :
  rows (fst (_annotate env ctx sample min_values max_values self)) = rows self
  /\ _annotate_context (fst (_annotate env ctx sample min_values max_values self)) =
     _annotate_context self
  /\ surrounding (fst (_annotate env ctx sample min_values max_values self)) =
     surrounding self.
Proof.
  unfold _annotate.
  match goal with
  | |- context [get_queue sample ?s] => destruct (get_queue sample s) as [q|e]
  end.
  - match goal with
    | |- context [_next_example env ctx ?s] =>
        destruct (next_example_fields env ctx s) as (H1 & _ & _ & H4 & H5)
    end.
    rewrite H1, H4, H5. repeat split.
  - repeat split.
Qed.



(** X26.  [annotate_context] sets [surrounding] to 1 and the annotator to context
    mode whatever they were, and whether or not the pass starts; a later
    [annotate] that names no [surrounding] goes back to patch mode but keeps
    the 1. *)
Theorem annotate_context_fixes_surrounding (env env' : setting)
    (ctx ctx' : context_cells) (sample sample' : list row -> list row)
    (min_values max_values min_values' max_values' : option (list (string * Q)))
    (self : annotator) :
  surrounding (fst (annotate_context env ctx sample min_values max_values self)) = 1
  /\ _annotate_context
       (fst (annotate_context env ctx sample min_values max_values self)) = true
  /\ surrounding
       (fst (annotate env' ctx' sample' min_values' max_values' None
               (fst (annotate_context env ctx sample min_values max_values self)))) = 1
  /\ _annotate_context
       (fst (annotate env' ctx' sample' min_values' max_values' None
               (fst (annotate_context env ctx sample min_values max_values self)))) = false.
Proof.
  assert (H : surrounding
                (fst (annotate_context env ctx sample min_values max_values self)) = 1
              /\ _annotate_context
                   (fst (annotate_context env ctx sample min_values max_values self)) = true).
  { unfold annotate_context.
    destruct (annotate_fields env ctx sample min_values max_values (set_mode self true 1))
      as (_ & H2 & H3).
    rewrite H2, H3. split; reflexivity. }
  destruct H as [H1 H2]. split; [exact H1|]. split; [exact H2|].
  unfold annotate.
  match goal with
  | |- context [_annotate env' ctx' sample' min_values' max_values' ?s] =>
      destruct (annotate_fields env' ctx' sample' min_values' max_values' s)
        as (_ & G2 & G3)
  end.
  rewrite G2, G3. cbn [surrounding _annotate_context set_mode]. split; [exact H1|reflexivity].
Qed.

(** ** Literal evaluation, column by column *)

Section EvalShape.

Variable parse : string -> result value.

Lemma mapM_literal_eval_cells (cells cells1 : list value) :
  mapM (literal_eval parse) cells = Ok cells1 ->
  Forall2 (fun c c1 => exists s, c = VStr s /\ parse s = Ok c1) cells cells1.
Proof.
  intros H. apply mapM_ok in H.
  induction H as [|c c1 l l1 Hc Hl IH]; constructor; [|exact IH].
  destruct c; simpl in Hc; try discriminate. exists s. split; [reflexivity|exact Hc].
Qed.

(** X27.  [_eval_df] never leaves a column half evaluated: in the table it
    returns every column is either exactly the column it was, or has the
    same name and, cell for cell, the value [literal_eval] gave for the text
    that was there.  The number of columns and of cells does not change. *)
Theorem eval_df_column_all_or_nothing (df df1 : table) :
  _eval_df parse df = Ok df1 ->
  Forall2
    (fun col col1 =>
       col1 = col
       \/ (fst col1 = fst col
           /\ Forall2 (fun c c1 => exists s, c = VStr s /\ parse s = Ok c1)
                (snd col) (snd col1)))
    df df1.
Proof.
  unfold _eval_df. intros H. apply mapM_ok in H.
  induction H as [|col col1 l l1 Hc Hl IH]; constructor; [|exact IH].
  unfold eval_column in Hc.
  destruct (mapM (literal_eval parse) (snd col)) as [cells|e] eqn:E.
  - inversion Hc; subst col1. right. split; [reflexivity|].
    exact (mapM_literal_eval_cells _ _ E).
  - left. destruct e; inversion Hc; reflexivity.
Qed.

End EvalShape.

Lemma eval_df_column_all_or_nothing_witness :
  Forall2
    (fun col col1 =>
       col1 = col
       \/ (fst col1 = fst col
           /\ Forall2 (fun c c1 => exists s, c = VStr s /\ literal_parse s = Ok c1)
                (snd col) (snd col1)))
    csv_table
    [("pixel_bounds", [VTuple [VInt 0; VInt 0; VInt 10; VInt 10];
                       VTuple [VInt 10; VInt 0; VInt 20; VInt 10]]);
     ("image_path", [VStr "patches/p1.png"; VStr "patches/p2.png"]);
     ("mean_pixel", [VInt 117; VInt 64]);
     ("names", [VList [VStr "a"; VStr "b"]; VList []])].
Proof.
  apply (eval_df_column_all_or_nothing literal_parse csv_table).
  vm_compute. reflexivity.
Defined.

(** ** A whole pass *)

Lemma skipn_nth_error {A : Type} (l : list A) (n : nat) (x : A) :
  nth_error l n = Some x -> skipn n l = x :: skipn (S n) l.
Proof.
  revert n. induction l as [|y l IH]; intros [|n] H; simpl in *; try discriminate.
  - inversion H. reflexivity.
  - exact (IH n H).
Qed.

Section WholePass.

Variable env : setting.
Variable ctx : context_cells.

Lemma advance_out (k : nat) :
  forall self,
    queue_in_table self ->
    url_column env = true ->
    pictures_shown env (_queue self) ->
    -1 <= current_index self ->
    current_index self + Z.of_nat (S k) < len (_queue self) ->
    len (_queue self) < len (rows self) ->
    out (fst (advance env ctx (S k) self)) =
      map Rendered
        (rev (firstn (S k) (skipn (Z.to_nat (current_index self + 1)) (_queue self))))
      ++ out self
    /\ current_index (fst (advance env ctx (S k) self)) =
       current_index self + Z.of_nat (S k).
Proof.
  induction k as [|k IH]; intros self Hin Hurl Hshow Hlo Hhi Hrows.
  - destruct (getitem_in_range (_queue self) (current_index self + 1) ltac:(lia))
      as (ix & Hnth & Hget).
    destruct (Hin ix (nth_error_In _ _ Hnth)) as [path Hat].
    cbn [advance].
    rewrite (next_example_renders env ctx self ix path ltac:(lia) Hget Hat ltac:(lia) Hurl
               (Hshow _ ix (nth_error_In _ _ Hnth))).
    cbn [fst out emit set_indices current_index].
    rewrite (skipn_nth_error _ _ _ Hnth). cbn [firstn rev app map].
    split; [reflexivity|lia].
  - destruct (getitem_in_range (_queue self) (current_index self + 1) ltac:(lia))
      as (ix & Hnth & Hget).
    destruct (Hin ix (nth_error_In _ _ Hnth)) as [path Hat].
    rewrite advance_succ.
    rewrite (next_example_renders env ctx self ix path ltac:(lia) Hget Hat ltac:(lia) Hurl
               (Hshow _ ix (nth_error_In _ _ Hnth))).
    set (s1 := emit (Rendered ix)
                 (set_indices self (current_index self) (current_index self + 1))).
    destruct (IH s1) as [Ho Hc].
    + exact Hin.
    + exact Hurl.
    + exact Hshow.
    + cbn. lia.
    + change (current_index s1) with (current_index self + 1).
      change (_queue s1) with (_queue self). lia.
    + exact Hrows.
    + rewrite Ho, Hc.
      change (current_index s1) with (current_index self + 1).
      change (_queue s1) with (_queue self).
      change (out s1) with (Rendered ix :: out self).
      split; [|lia].
      rewrite (skipn_nth_error _ _ _ Hnth).
      replace (Z.to_nat (current_index self + 1 + 1))
        with (S (Z.to_nat (current_index self + 1))) by lia.
      set (tail := skipn (S (Z.to_nat (current_index self + 1))) (_queue self)).
      change (firstn (S (S k)) (ix :: tail)) with (ix :: firstn (S k) tail).
      cbn [rev]. rewrite map_app, <- app_assoc. reflexivity.
Qed.

(** X29.  A pass over a queue that is shorter than the table, when the
    display of every queued row goes through (the table has a [url] column
    and the pictures are shown): as many calls of [_next_example] as the
    queue has keys show every queued row once, in the order of the queue,
    and nothing else, and leave the cursor on the last key. *)
Theorem pass_shows_queue_in_order (self : annotator) :
  queue_in_table self ->
  current_index self = -1 ->
  _queue self <> [] ->
  len (_queue self) < len (rows self) ->
  url_column env = true ->
  pictures_shown env (_queue self) ->
  out (fst (advance env ctx (List.length (_queue self)) self)) =
    map Rendered (rev (_queue self)) ++ out self
  /\ current_index (fst (advance env ctx (List.length (_queue self)) self)) =
     len (_queue self) - 1.
Proof.
  intros Hin Hci Hne Hrows Hurl Hshow.
  destruct (List.length (_queue self)) as [|k] eqn:Hlen.
  - destruct (_queue self); [contradiction|discriminate].
  - destruct (advance_out k self Hin Hurl Hshow ltac:(lia) ltac:(unfold len; lia) Hrows)
      as [Ho Hc].
    rewrite Ho, Hc, Hci. change (Z.to_nat (-1 + 1)) with 0%nat. cbn [skipn].
    rewrite <- Hlen, firstn_all. split; [reflexivity|]. unfold len. lia.
Qed.

(** *** After the queue *)

Lemma press_at_end (b : bool) (self : annotator) :
  current_index self = len (_queue self) ->
  press env ctx b self = fst (render_complete env ctx self)
  /\ press_result env ctx b self =
     match snd (render_complete env ctx self) with
     | Raise e => Raise e
     | Ok _ => Ok None
     end.
Proof.
  intros E. unfold press, press_result, _next_example, _prev_example.
  rewrite E, Z.eqb_refl.
  destruct b; destruct (render_complete env ctx self) as [s [u|e]]; split; reflexivity.
Qed.

Lemma presses_app (pre post : list bool) (self : annotator) :
  presses env ctx (pre ++ post) self = presses env ctx post (presses env ctx pre self).
Proof. unfold presses. apply fold_left_app. Qed.

Lemma press_mode (b : bool) (self : annotator) :
  auto_save (press env ctx b self) = auto_save self
  /\ _annotate_context (press env ctx b self) = _annotate_context self.
Proof.
  unfold press. destruct b.
  - destruct (next_example_fields env ctx self) as (_ & _ & H3 & H4 & _).
    split; assumption.
  - destruct (prev_example_fields env ctx self) as (_ & _ & H3 & H4 & _).
    split; assumption.
Qed.

Lemma presses_mode (buttons : list bool) (self : annotator) :
  auto_save (presses env ctx buttons self) = auto_save self
  /\ _annotate_context (presses env ctx buttons self) = _annotate_context self.
Proof.
  revert self. induction buttons as [|b buttons IH]; intros self; [split; reflexivity|].
  cbn [presses fold_left]. fold (presses env ctx buttons (press env ctx b self)).
  destruct (IH (press env ctx b self)) as [H1 H2].
  destruct (press_mode b self) as [G1 G2].
  split; congruence.
Qed.

(** The cursor, the queue and the table at the terminal position, and what
    the presses add to the output. *)
Lemma presses_at_end (buttons : list bool) (self : annotator) :
  current_index self = len (_queue self) ->
  current_index (presses env ctx buttons self) = len (_queue self)
  /\ _queue (presses env ctx buttons self) = _queue self
  /\ rows (presses env ctx buttons self) = rows self
  /\ exists events,
       out (presses env ctx buttons self) = events ++ out self /\ Forall closing events.
Proof.
  revert self. induction buttons as [|b buttons IH]; intros self E.
  - simpl. repeat split; try assumption. exists []. split; [reflexivity|constructor].
  - cbn [presses fold_left]. fold (presses env ctx buttons (press env ctx b self)).
    rewrite (proj1 (press_at_end b self E)).
    destruct (render_complete_fields env ctx self)
      as (H1 & H2 & H3 & _ & _ & _ & _ & ev & Ho & _ & Hev).
    destruct (IH (fst (render_complete env ctx self)))
      as (G1 & G2 & G3 & events & G5 & G6).
    { rewrite H3, H2. exact E. }
    rewrite G1, G2, G3, H1, H2. repeat split.
    exists (events ++ ev). rewrite G5, Ho, app_assoc. split; [reflexivity|].
    apply Forall_app. split; assumption.
Qed.

(** X30.  Once the cursor is at [len(_queue)], no navigation button brings
    the annotator back: whatever the presses return or raise, the cursor
    stays where it is, the table and the queue are untouched, and nothing
    is shown but the closing message and saves.  When nothing is to be saved
    or the save goes through, every press returns nothing and after the
    first press the label buttons are disabled.  When the save raises (a
    row that has a label has no [#] in its index label), every press raises
    [IndexError] and the label buttons stay as they were. *)
Theorem completion_is_absorbing (buttons : list bool) (self : annotator) :
  current_index self = len (_queue self) ->
  current_index (presses env ctx buttons self) = len (_queue self)
  /\ _queue (presses env ctx buttons self) = _queue self
  /\ rows (presses env ctx buttons self) = rows self
  /\ (exists events,
        out (presses env ctx buttons self) = events ++ out self /\ Forall closing events)
  /\ ((auto_save self = true -> saveable self ctx) ->
      (buttons <> [] -> buttons_disabled (presses env ctx buttons self) = true)
      /\ forall before b after,
           buttons = before ++ b :: after ->
           press_result env ctx b (presses env ctx before self) = Ok None)
  /\ (auto_save self = true -> unsaveable self ctx ->
      buttons_disabled (presses env ctx buttons self) = buttons_disabled self
      /\ forall before b after,
           buttons = before ++ b :: after ->
           press_result env ctx b (presses env ctx before self) = Raise IndexError).
Proof.
  intros E.
  destruct (presses_at_end buttons self E) as (H1 & H2 & H3 & H4).
  do 4 (split; [assumption|]).
  assert (Hgood : (auto_save self = true -> saveable self ctx) ->
            forall before b,
              press env ctx b (presses env ctx before self) =
                set_buttons_disabled
                  (if auto_save self
                   then emit Saved (emit Complete (presses env ctx before self))
                   else emit Complete (presses env ctx before self))
                  true
              /\ press_result env ctx b (presses env ctx before self) = Ok None).
  { intros Hsave before b.
    destruct (presses_at_end before self E) as (G1 & G2 & G3 & _).
    destruct (presses_mode before self) as [G4 G5].
    destruct (press_at_end b (presses env ctx before self)) as [P1 P2];
      [rewrite G1, G2; reflexivity|].
    rewrite P1, P2, render_complete_succeeds.
    - rewrite G4. split; reflexivity.
    - rewrite G4. intros Ha.
      exact (saveable_same self _ ctx G3 G5 (Hsave Ha)). }
  assert (Hbad : auto_save self = true -> unsaveable self ctx ->
            forall before b,
              press env ctx b (presses env ctx before self) =
                emit Complete (presses env ctx before self)
              /\ press_result env ctx b (presses env ctx before self) = Raise IndexError).
  { intros Hs Hun before b.
    destruct (presses_at_end before self E) as (G1 & G2 & G3 & _).
    destruct (presses_mode before self) as [G4 G5].
    destruct (press_at_end b (presses env ctx before self)) as [P1 P2];
      [rewrite G1, G2; reflexivity|].
    rewrite P1, P2, render_complete_fails.
    - split; reflexivity.
    - rewrite G4. exact Hs.
    - exact (unsaveable_same self _ ctx G3 G5 Hun). }
  split.
  - intros Hsave. split.
    + intros Hne. destruct (exists_last Hne) as (before & b & Hb). rewrite Hb.
      rewrite presses_app. cbn [presses fold_left].
      rewrite (proj1 (Hgood Hsave before b)). reflexivity.
    + intros before b after _. exact (proj2 (Hgood Hsave before b)).
  - intros Hs Hun. split.
    + clear H1 H2 H3 H4. induction buttons as [|b before IH] using rev_ind; [reflexivity|].
      rewrite presses_app. cbn [presses fold_left].
      rewrite (proj1 (Hbad Hs Hun before b)). exact IH.
    + intros before b after _. exact (proj2 (Hbad Hs Hun before b)).
Qed.

End WholePass.

Lemma pass_shows_queue_in_order_witness :
  out (fst (advance with_url [] (List.length (_queue (demo (-1)))) (demo (-1)))) =
    map Rendered (rev (_queue (demo (-1)))) ++ out (demo (-1))
  /\ current_index (fst (advance with_url [] (List.length (_queue (demo (-1)))) (demo (-1)))) =
     len (_queue (demo (-1))) - 1.
Proof.
  apply (pass_shows_queue_in_order with_url [] (demo (-1)) (demo_queue_in_table (-1))).
  - reflexivity.
  - discriminate.
  - reflexivity.
  - reflexivity.
  - apply with_url_pictures_shown.
Defined.

Lemma pass_demo_saveable (cur : Z) :
  saveable (set_indices pass_demo 1 cur) [].
Proof.
  intros r Hin _. simpl in Hin.
  destruct Hin as [E|[E|[E|[]]]]; subst r; unfold has_hash; simpl; tauto.
Qed.

Lemma completion_is_absorbing_witness :
  current_index (presses with_url [] [false; true; false] (set_indices pass_demo 1 2)) =
    len (_queue (set_indices pass_demo 1 2))
  /\ _queue (presses with_url [] [false; true; false] (set_indices pass_demo 1 2)) =
     _queue (set_indices pass_demo 1 2)
  /\ rows (presses with_url [] [false; true; false] (set_indices pass_demo 1 2)) =
     rows (set_indices pass_demo 1 2)
  /\ (exists events,
        out (presses with_url [] [false; true; false] (set_indices pass_demo 1 2)) =
          events ++ out (set_indices pass_demo 1 2)
        /\ Forall closing events)
  /\ buttons_disabled
       (presses with_url [] [false; true; false] (set_indices pass_demo 1 2)) = true
  /\ press_result with_url [] true
       (presses with_url [] [false] (set_indices pass_demo 1 2)) = Ok None.
Proof.
  destruct (completion_is_absorbing with_url [] [false; true; false]
              (set_indices pass_demo 1 2) eq_refl)
    as (H1 & H2 & H3 & H4 & H5 & _).
  do 4 (split; [assumption|]).
  destruct (H5 (fun _ => pass_demo_saveable 2)) as [H6 H7].
  split.
  - apply H6. discriminate.
  - exact (H7 [false] true [false] eq_refl).
Defined.

(** The same presses when the save raises: on index labels without [#]
    every press shows the closing message and raises, and the buttons stay
    enabled. *)
Example completion_save_keeps_raising :
  out (presses with_url [] [false; true; false] (demo 2)) = [Complete; Complete; Complete]
  /\ buttons_disabled (presses with_url [] [false; true; false] (demo 2)) = false
  /\ press_result with_url [] false (demo 2) = Raise IndexError
  /\ press_result with_url [] true (presses with_url [] [false] (demo 2)) = Raise IndexError.
Proof. vm_compute. repeat split. Qed.

(** *** Recording along the queue *)

Lemma add_annotation_step (env : setting) (a : string) (self : annotator)
    (ctx : context_cells) (ix : string) :
  _annotate_context self = false ->
  0 <= current_index self ->
  getitem (_queue self) (current_index self) = Ok ix ->
  (auto_save self = true -> forall r, In r (rows self) -> has_hash (row_key r)) ->
  rows (fst (fst (_add_annotation env a (self, ctx)))) = set_label_at ix a (rows self)
  /\ _queue (fst (fst (_add_annotation env a (self, ctx)))) = _queue self
  /\ current_index (fst (fst (_add_annotation env a (self, ctx)))) =
     current_index self + 1
  /\ _annotate_context (fst (fst (_add_annotation env a (self, ctx)))) = false
  /\ auto_save (fst (fst (_add_annotation env a (self, ctx)))) = auto_save self
  /\ snd (fst (_add_annotation env a (self, ctx))) = ctx.
Proof.
  intros Hmode Hlo Hget Hhash.
  assert (Hlt : current_index self <> len (_queue self)).
  { intros E. rewrite E, getitem_at_len in Hget. discriminate. }
  unfold _add_annotation. cbn [fst snd].
  rewrite Hget, Hmode. cbn [fst snd set_rows auto_save].
  set (s1 := set_rows self (set_label_at ix a (rows self))).
  assert (Hnext : forall s,
            rows s = rows s1 -> _queue s = _queue self ->
            current_index s = current_index self ->
            _annotate_context s = false -> auto_save s = auto_save self ->
            rows (fst (_next_example env ctx s)) = set_label_at ix a (rows self)
            /\ _queue (fst (_next_example env ctx s)) = _queue self
            /\ current_index (fst (_next_example env ctx s)) = current_index self + 1
            /\ _annotate_context (fst (_next_example env ctx s)) = false
            /\ auto_save (fst (_next_example env ctx s)) = auto_save self).
  { intros s E1 E2 E3 E4 E5.
    destruct (next_example_fields env ctx s) as (H1 & H2 & H3 & H4 & _).
    rewrite H1, H2, H3, H4, E1, E2, E4, E5.
    rewrite (proj1 (next_example_cursor env ctx s ltac:(rewrite E2, E3; exact Hlt))).
    rewrite E3. repeat split. }
  destruct (auto_save self) eqn:Hsave.
  - rewrite (auto_save_succeeds env ctx s1).
    2:{ intros r Hr _. destruct (in_set_label_at ix a _ r Hr) as (r0 & Hin & Hk & _).
        rewrite Hk. exact (Hhash eq_refl r0 Hin). }
    destruct (Hnext (emit Saved s1)) as (H1 & H2 & H3 & H4 & H5);
      try reflexivity; try assumption.
    repeat split; assumption.
  - cbn [fst snd].
    destruct (Hnext s1) as (H1 & H2 & H3 & H4 & H5);
      try reflexivity; try assumption.
    repeat split; assumption.
Qed.

Lemma clicks_table (env : setting) (annotations : list string) :
  forall (self : annotator) (ctx : context_cells) (n : nat),
    _annotate_context self = false ->
    current_index self = Z.of_nat n ->
    (n + List.length annotations <= List.length (_queue self))%nat ->
    (auto_save self = true -> forall r, In r (rows self) -> has_hash (row_key r)) ->
    rows (fst (clicks env annotations (self, ctx))) =
      fold_left (fun t ka => set_label_at (fst ka) (snd ka) t)
        (combine (skipn n (_queue self)) annotations) (rows self)
    /\ current_index (fst (clicks env annotations (self, ctx))) =
       Z.of_nat (n + List.length annotations)
    /\ _queue (fst (clicks env annotations (self, ctx))) = _queue self.
Proof.
  induction annotations as [|a rest IH]; intros self ctx n Hmode Hci Hlen Hhash.
  - cbn [clicks fold_left fst]. rewrite combine_nil. cbn [fold_left].
    repeat split. rewrite Hci. f_equal. simpl. lia.
  - cbn [clicks fold_left]. simpl List.length in Hlen.
    destruct (getitem_in_range (_queue self) (current_index self)) as (ix & Hnth & Hget).
    { rewrite Hci. unfold len. lia. }
    rewrite Hci, Nat2Z.id in Hnth.
    destruct (add_annotation_step env a self ctx ix Hmode ltac:(lia) Hget Hhash)
      as (H1 & H2 & H3 & H4 & H5 & H6).
    destruct (_add_annotation env a (self, ctx)) as [[s1 ctx1] res].
    cbn [fst snd] in *. subst ctx1.
    fold (clicks env rest (s1, ctx)).
    destruct (IH s1 ctx (S n)) as (G1 & G2 & G3).
    + exact H4.
    + rewrite H3, Hci. lia.
    + rewrite H2. lia.
    + rewrite H5, H1. intros Hs r Hr.
      destruct (in_set_label_at ix a _ r Hr) as (r0 & Hin & Hk & _).
      rewrite Hk. exact (Hhash Hs r0 Hin).
    + rewrite G1, G2, G3, H1, H2. rewrite (skipn_nth_error _ _ _ Hnth).
      cbn [combine fold_left fst snd]. repeat split.
      f_equal. simpl List.length. lia.
Qed.

Lemma fold_set_label_at_other (kas : list (string * string)) :
  forall (table : list row) (k : string),
    ~ In k (map fst kas) ->
    find_row (fold_left (fun t ka => set_label_at (fst ka) (snd ka) t) kas table) k =
      find_row table k.
Proof.
  induction kas as [|[k0 a0] kas IH]; intros table k Hk; [reflexivity|].
  cbn [fold_left fst snd]. simpl in Hk.
  rewrite IH by tauto. apply find_row_set_label_at_other. intros E. subst. tauto.
Qed.

Lemma fold_set_label_at_same (kas : list (string * string)) :
  forall (table : list row) (k a : string) (r : row),
    NoDup (map fst kas) -> In (k, a) kas -> find_row table k = Some r ->
    find_row (fold_left (fun t ka => set_label_at (fst ka) (snd ka) t) kas table) k =
      Some (set_label r (PyStr a) true).
Proof.
  induction kas as [|[k0 a0] kas IH]; intros table k a r Hnd Hin Hr; [destruct Hin|].
  cbn [fold_left fst snd]. simpl in Hnd. inversion Hnd as [|? ? Hk0 Hrest]; subst.
  destruct Hin as [E|Hin].
  - inversion E; subst k0 a0.
    rewrite fold_set_label_at_other by assumption.
    exact (find_row_set_label_at_same k a table r Hr).
  - assert (Hne : k <> k0).
    { intros E. subst. apply Hk0. apply in_map_iff. exists (k0, a). tauto. }
    apply (IH _ k a r Hrest Hin).
    rewrite find_row_set_label_at_other by assumption. exact Hr.
Qed.

Lemma in_combine_nth {A B : Type} (l : list A) (l' : list B) (i : nat) (x : A) (y : B) :
  nth_error l i = Some x -> nth_error l' i = Some y -> In (x, y) (combine l l').
Proof.
  revert l' i. induction l as [|x0 l IH]; intros [|y0 l'] [|i] Hx Hy;
    simpl in *; try discriminate.
  - inversion Hx; inversion Hy; subst. left. reflexivity.
  - right. exact (IH l' i Hx Hy).
Qed.

Lemma map_fst_combine_firstn {A B : Type} (l : list A) (l' : list B) :
  map fst (combine l l') = firstn (List.length l') l.
Proof.
  revert l'. induction l as [|x l IH]; intros [|y l']; simpl; try reflexivity.
  rewrite IH. reflexivity.
Qed.

(** X28.  Clicks on label buttons in patch mode, starting on the first key
    of a queue without repeats and no more of them than the queue has keys
    (with [auto_save], index labels hold [#]): the click number [i] labels
    the row of the key number [i] of the queue, also the last click, which
    raises; rows of keys that were not reached keep what they had; the
    cursor has moved by the number of clicks. *)
Theorem annotations_follow_queue (env : setting) (annotations : list string)
    (self : annotator) (ctx : context_cells) :
  _annotate_context self = false ->
  current_index self = 0 ->
  NoDup (_queue self) ->
  (List.length annotations <= List.length (_queue self))%nat ->
  (auto_save self = true -> forall r, In r (rows self) -> has_hash (row_key r)) ->
  current_index (fst (clicks env annotations (self, ctx))) = len annotations
  /\ (forall i k a r,
        nth_error (_queue self) i = Some k -> nth_error annotations i = Some a ->
        find_row (rows self) k = Some r ->
        find_row (rows (fst (clicks env annotations (self, ctx)))) k =
          Some (set_label r (PyStr a) true))
  /\ (forall k,
        ~ In k (firstn (List.length annotations) (_queue self)) ->
        find_row (rows (fst (clicks env annotations (self, ctx)))) k =
          find_row (rows self) k).
Proof.
  intros Hmode Hci Hnd Hlen Hhash.
  destruct (clicks_table env annotations self ctx 0 Hmode Hci ltac:(simpl; lia) Hhash)
    as (H1 & H2 & _).
  cbn [skipn] in H1. rewrite H1, H2. split; [reflexivity|]. split.
  - intros i k a r Hk Ha Hr.
    apply (fold_set_label_at_same _ _ k a r); [|exact (in_combine_nth _ _ i k a Hk Ha)|exact Hr].
    rewrite map_fst_combine_firstn.
    rewrite <- (firstn_skipn (List.length annotations) (_queue self)) in Hnd.
    exact (NoDup_app_remove_r _ _ Hnd).
  - intros k Hk. apply fold_set_label_at_other.
    rewrite map_fst_combine_firstn. exact Hk.
Qed.

Lemma annotations_follow_queue_witness :
  current_index (fst (clicks with_url ["road"; "rail"] (pass_demo, []))) =
    len ["road"; "rail"]
  /\ (forall i k a r,
        nth_error (_queue pass_demo) i = Some k ->
        nth_error ["road"; "rail"] i = Some a ->
        find_row (rows pass_demo) k = Some r ->
        find_row (rows (fst (clicks with_url ["road"; "rail"] (pass_demo, [])))) k =
          Some (set_label r (PyStr a) true))
  /\ (forall k,
        ~ In k (firstn (List.length ["road"; "rail"]) (_queue pass_demo)) ->
        find_row (rows (fst (clicks with_url ["road"; "rail"] (pass_demo, [])))) k =
          find_row (rows pass_demo) k).
Proof.
  apply (annotations_follow_queue with_url ["road"; "rail"] pass_demo []).
  - reflexivity.
  - reflexivity.
  - simpl. repeat constructor; simpl; intuition discriminate.
  - simpl. lia.
  - intros _ r Hr. simpl in Hr.
    destruct Hr as [E|[E|[E|[]]]]; subst r; unfold has_hash; simpl; tauto.
Defined.
